(** * Video quality validator

    A shallow embedding of [backend/validator/video_quality_validator.py]:
    the frame walk of [analyze_video_quality], the threshold checks of
    [validate_quality] and the result assembly of [run] and
    [validate_video_file], together with the properties the specification
    states about them.

    Python values are modelled as the interpreter has them: integers are
    unbounded ([Z]), floats are IEEE-754 binary64 ([spec_float] with
    precision 53 and exponent bound 1024, computed by the operations of
    [SpecFloat]), dictionaries with string keys are [gmap string _], and an
    exception is a value of [result]. *)

From Stdlib Require Import ZArith Lia.
From Stdlib Require Import Floats.SpecFloat.
From stdpp Require Import base strings pretty list gmap.

Open Scope Z_scope.

(** ** The Python fragment used by the validator *)

Module Py.

(** *** Exceptions *)

Inductive exn_class :=
| ZeroDivisionError
| OverflowError
| TypeError
| AttributeError
| KeyError
| FileNotFoundError
| OtherException.          (* any other subclass of [Exception], e.g. cv2.error *)

Record exn := Exn { exn_kind : exn_class; exn_text : string }.

Inductive result (A : Type) :=
| Ok (a : A)
| Raise (e : exn).
Arguments Ok {A} a.
Arguments Raise {A} e.

#[export] Instance result_ret : MRet result := fun A a => Ok a.
#[export] Instance result_bind : MBind result := fun A B f r =>
  match r with Ok a => f a | Raise e => Raise e end.

(** *** Floats: binary64 *)

Abbreviation float := spec_float.

Definition prec : Z := 53.
Definition emax : Z := 1024.

Definition fadd : float -> float -> float := SFadd prec emax.
Definition fmul : float -> float -> float := SFmul prec emax.
Definition fdiv : float -> float -> float := SFdiv prec emax.
(** [x < y]; false as soon as one side is a NaN. *)
Definition flt : float -> float -> bool := SFltb.
(** [x > y] is [y < x]. *)
Definition fgt (x y : float) : bool := SFltb y x.

Definition is_inf (x : float) : bool :=
  match x with S754_infinity _ => true | _ => false end.
Definition is_zero (x : float) : bool :=
  match x with S754_zero _ => true | _ => false end.

(** An integer as an unrounded mantissa with exponent 0. *)
Definition exact_int (z : Z) : float :=
  match z with
  | Z0 => S754_zero false
  | Zpos p => S754_finite false p 0
  | Zneg p => S754_finite true p 0
  end.

(** [float(z)]: round to nearest, ties to even; OverflowError beyond the
    binary64 range. *)
Definition float_of_int (z : Z) : result float :=
  let x := binary_normalize prec emax z 0 false in
  if is_inf x
  then Raise (Exn OverflowError "int too large to convert to float")
  else Ok x.

(** A float literal or an in-range integer constant compared with a float. *)
Definition float_const (z : Z) : float := binary_normalize prec emax z 0 false.

(** [a / b] on integers: the correctly rounded quotient of the two exact
    integers. *)
Definition int_truediv (a b : Z) : result float :=
  if b =? 0 then Raise (Exn ZeroDivisionError "division by zero")
  else
    let q := fdiv (exact_int a) (exact_int b) in
    if is_inf q
    then Raise (Exn OverflowError "integer division result too large for a float")
    else Ok q.

(** [x / y] on floats. *)
Definition float_truediv (x y : float) : result float :=
  if is_zero y then Raise (Exn ZeroDivisionError "float division by zero")
  else Ok (fdiv x y).

(** *** Values stored in the statistics dictionary *)

Inductive pyval :=
| PyInt (n : Z)
| PyFloat (x : float)
| PyList (l : list float).

Definition unsupported (op l r : string) : exn :=
  Exn TypeError ("unsupported operand type(s) for " +:+ op +:+ ": '" +:+ l +:+ "' and '" +:+ r +:+ "'").

Definition type_name (v : pyval) : string :=
  match v with PyInt _ => "int" | PyFloat _ => "float" | PyList _ => "list" end.

(** [v == 0]. *)
Definition py_eq_zero (v : pyval) : bool :=
  match v with
  | PyInt n => n =? 0
  | PyFloat x => is_zero x
  | PyList _ => false
  end.

(** [k * v] for an integer literal [k]. *)
Definition py_int_mul (k : Z) (v : pyval) : result pyval :=
  match v with
  | PyInt n => Ok (PyInt (k * n))
  | PyFloat x => fk ← float_of_int k; Ok (PyFloat (fmul fk x))
  | PyList l => Ok (PyList (mjoin (replicate (Z.to_nat k) l)))
  end.

(** [a / b]. *)
Definition py_truediv (a b : pyval) : result float :=
  match a, b with
  | PyInt x, PyInt y => int_truediv x y
  | PyInt x, PyFloat y => fx ← float_of_int x; float_truediv fx y
  | PyFloat x, PyInt y => fy ← float_of_int y; float_truediv x fy
  | PyFloat x, PyFloat y => float_truediv x y
  | _, _ => Raise (unsupported "/" (type_name a) (type_name b))
  end.

(** *** Formatting *)

(** The digits of [format(x, '.1f')] for the non-negative rational
    [m * 2^e]: tenths rounded to nearest, ties to even. *)
Definition tenths (m : positive) (e : Z) : Z :=
  if 0 <=? e then 10 * Z.pos m * 2 ^ e
  else
    let den := 2 ^ (- e) in
    let q := (10 * Z.pos m) / den in
    let r := (10 * Z.pos m) mod den in
    match 2 * r ?= den with
    | Lt => q
    | Gt => q + 1
    | Eq => if Z.even q then q else q + 1
    end.

Definition sign_text (s : bool) : string := if s then "-" else "".

Definition format_1f (x : float) : string :=
  match x with
  | S754_nan => "nan"
  | S754_infinity s => sign_text s +:+ "inf"
  | S754_zero s => sign_text s +:+ "0.0"
  | S754_finite s m e =>
      let t := tenths m e in
      sign_text s +:+ pretty (t / 10) +:+ "." +:+ pretty (t mod 10)
  end.

(** [str(n)] for an integer. *)
Definition str_int (n : Z) : string := pretty n.

End Py.

(** ** The video capture, as the analyzer observes it *)

Module Cv2.
Import Py.

(** A frame converted to grayscale, reduced to the three numbers the
    analyzer reads from it: [cv2.Laplacian(gray, CV_64F).var()],
    [gray.mean()] and [gray.std()]. On an image that [cvtColor] has
    returned these three calls return. *)
Record gray := Gray { laplacian_var : float; mean : float; std : float }.

(** A decoded frame: [cvtColor(frame, COLOR_BGR2GRAY)] returns the
    grayscale image or raises. *)
Record image := Image { cvtColor : result gray }.

(** [cv2.VideoCapture(path)]. [stream] lists the frames [grab] can step
    over, in order; for each, [retrieve] gives [(True, frame)] ([Some]) or
    [(False, None)] ([None]). [frame_count] is
    [int(cap.get(CAP_PROP_FRAME_COUNT))], which the container reports and
    which need not be the length of [stream]. *)
Record VideoCapture := {
  isOpened : bool;
  frame_count : Z;
  fps : float;
  stream : list (option image)
}.

(** [cap.set(CAP_PROP_POS_FRAMES, n)] for [n > 0]: the frames left to grab. *)
Definition seek (n : Z) (frames : list (option image)) : list (option image) :=
  drop (Z.to_nat n) frames.

End Cv2.

(** ** [class VideoQualityValidator] *)

Module Validator.
Import Py Cv2.

Definition nl : string := String (Ascii.ascii_of_nat 10) EmptyString.

(** Quality thresholds *)
Definition MIN_CLARITY : Z := 20.
Definition MIN_EXPOSURE : Z := 60.
Definition MAX_EXPOSURE : Z := 200.
Definition MIN_CONTRAST : Z := 25.

(** Validation thresholds: the float literal [10.0], whose [str] is
    [threshold_text]. *)
Definition MAX_BLURRY_PCT : float := float_const 10.
Definition MAX_EXPOSURE_PCT : float := float_const 10.
Definition MAX_LOW_CONTRAST_PCT : float := float_const 10.
Definition threshold_text : string := "10.0".

(** *** What the interpreter supplies *)

(** [progress_callback(current, total)]: [None] when it returns, [Some e]
    when it raises the exception [e] (a subclass of [Exception]). Within
    one run the first argument differs at every call, so a function of the
    arguments covers a callback with state of its own. *)
Definition callback := Z -> Z -> option exn.

(** The dictionary [validation_result] built at lines 240-251; its four
    keys are always present. *)
Module ValidationResult.
Record t := {
  passed : bool;
  issues : list string;
  details : gmap string (list string);
  stats : gmap string float
}.
End ValidationResult.

(** [@dataclass ValidationPipelineOutput] *)
Module ValidationPipelineOutput.
Record t := {
  passed : bool;
  status : string;
  analyze_success : bool;
  validate_success : bool;
  message : string;
  analyze_message : string;
  validate_message : string;
  issues : list string;
  details : gmap string (list string);
  stats : gmap string float;
  summary : string;
  video_path : string;
  created_at : string
}.
End ValidationPipelineOutput.

Record environment := {
  path_exists : string -> bool;                   (* Path(p).exists() *)
  open_video : string -> VideoCapture;            (* cv2.VideoCapture(p) *)
  utc_now : string;                               (* datetime.now(timezone.utc).isoformat() *)
  (* [get_quality_summary], lines 263-328: numpy statistics formatted into
     a text; it returns a string or raises *)
  get_quality_summary : gmap string pyval -> option ValidationResult.t -> result string
}.

(** *** The analysis loop as a state and exception monad

    The statistics dictionary is mutated in place and the counters are
    local variables: what a statement has written stays written when a
    later statement of the same [try] block raises. *)

Record locals := {
  stats : gmap string pyval;
  analyzed_count : Z;
  frame_idx : Z;
  progress_calls : list (Z * Z);   (* arguments of the callback calls, oldest first *)
  stdout : list string             (* printed lines, oldest first *)
}.

Definition with_stats (d : gmap string pyval) (s : locals) : locals :=
  {| stats := d; analyzed_count := analyzed_count s; frame_idx := frame_idx s;
     progress_calls := progress_calls s; stdout := stdout s |}.

Definition with_analyzed_count (n : Z) (s : locals) : locals :=
  {| stats := stats s; analyzed_count := n; frame_idx := frame_idx s;
     progress_calls := progress_calls s; stdout := stdout s |}.

Definition with_frame_idx (i : Z) (s : locals) : locals :=
  {| stats := stats s; analyzed_count := analyzed_count s; frame_idx := i;
     progress_calls := progress_calls s; stdout := stdout s |}.

Definition with_progress_calls (c : list (Z * Z)) (s : locals) : locals :=
  {| stats := stats s; analyzed_count := analyzed_count s; frame_idx := frame_idx s;
     progress_calls := c; stdout := stdout s |}.

Definition with_stdout (o : list string) (s : locals) : locals :=
  {| stats := stats s; analyzed_count := analyzed_count s; frame_idx := frame_idx s;
     progress_calls := progress_calls s; stdout := o |}.

Definition M (A : Type) : Type := locals -> locals * result A.

#[export] Instance M_ret : MRet M := fun A a s => (s, Ok a).
#[export] Instance M_bind : MBind M := fun A B f m s =>
  match m s with
  | (s', Ok a) => f a s'
  | (s', Raise e) => (s', Raise e)
  end.

Definition lift {A} (r : result A) : M A := fun s => (s, r).
Definition when (b : bool) (m : M unit) : M unit := if b then m else mret tt.

(** [try: body except Exception as e: handler(e)] *)
Definition try_except (body : M unit) (handler : exn -> M unit) : M unit :=
  fun s =>
    match body s with
    | (s', Ok _) => (s', Ok tt)
    | (s', Raise e) => handler e s'
    end.

(** [stats[key].append(x)] *)
Definition stats_append (key : string) (x : float) : M unit := fun s =>
  match stats s !! key with
  | None => (s, Raise (Exn KeyError key))
  | Some (PyList l) => (with_stats (<[key := PyList (l ++ [x])]> (stats s)) s, Ok tt)
  | Some v => (s, Raise (Exn AttributeError
                 ("'" +:+ type_name v +:+ "' object has no attribute 'append'")))
  end.

(** [stats[key] += 1] *)
Definition stats_incr (key : string) : M unit := fun s =>
  match stats s !! key with
  | None => (s, Raise (Exn KeyError key))
  | Some (PyInt n) => (with_stats (<[key := PyInt (n + 1)]> (stats s)) s, Ok tt)
  | Some (PyFloat x) => (with_stats (<[key := PyFloat (fadd x (float_const 1))]> (stats s)) s, Ok tt)
  | Some (PyList _) => (s, Raise (Exn TypeError "'int' object is not iterable"))
  end.

(** [analyzed_count += 1; stats["num_images"] = analyzed_count] *)
Definition count_frame : M unit := fun s =>
  let n := analyzed_count s + 1 in
  (with_stats (<["num_images" := PyInt n]> (stats s)) (with_analyzed_count n s), Ok tt).

(** [if progress_callback: progress_callback(analyzed_count, total_to_analyze)] *)
Definition report_progress (progress_callback : option callback) (total_to_analyze : Z) : M unit :=
  fun s =>
    match progress_callback with
    | None => (s, Ok tt)
    | Some f =>
        let s' := with_progress_calls (progress_calls s ++ [(analyzed_count s, total_to_analyze)]) s in
        match f (analyzed_count s) total_to_analyze with
        | None => (s', Ok tt)
        | Some e => (s', Raise e)
        end
    end.

(** [print(f"  ⚠️ Failed to analyze frame {frame_idx}: {e}")] *)
Definition print_failure (e : exn) : M unit := fun s =>
  (with_stdout (stdout s ++ ["  ⚠️ Failed to analyze frame " +:+ str_int (frame_idx s)
                              +:+ ": " +:+ exn_text e]) s, Ok tt).

(** The body of the inner [try] block, lines 142-168. *)
Definition analyze_frame (progress_callback : option callback) (total_to_analyze : Z)
    (frame : image) : M unit :=
  gray ← lift (cvtColor frame);
  (* 1) Clarity *)
  let clarity_score := laplacian_var gray in
  stats_append "clarity" clarity_score;;
  when (flt clarity_score (float_const MIN_CLARITY)) (stats_incr "blurry");;
  (* 2) Exposure *)
  let mean_intensity := mean gray in
  stats_append "exposure" mean_intensity;;
  (if flt mean_intensity (float_const MIN_EXPOSURE) then stats_incr "under_exposed"
   else if fgt mean_intensity (float_const MAX_EXPOSURE) then stats_incr "over_exposed"
   else mret tt);;
  (* 3) Contrast *)
  let contrast := std gray in
  stats_append "contrast" contrast;;
  when (flt contrast (float_const MIN_CONTRAST)) (stats_incr "low_contrast");;
  count_frame;;
  report_progress progress_callback total_to_analyze.

Definition next_frame (s : locals) : locals := with_frame_idx (frame_idx s + 1) s.

(** The [while True] loop, lines 129-173, by recursion on the frames the
    capture has left: [cap.grab()] fails when none is left. *)
Fixpoint frame_loop (progress_callback : option callback)
    (sample_rate start_frame_int actual_end_frame total_to_analyze : Z)
    (cap : list (option image)) (s : locals) : locals :=
  if actual_end_frame <=? frame_idx s then s
  else
    match cap with
    | [] => s
    | grabbed :: cap' =>
        if (frame_idx s - start_frame_int) mod sample_rate =? 0 then
          match grabbed with
          | None => s
          | Some frame =>
              let s' := fst (try_except
                               (analyze_frame progress_callback total_to_analyze frame)
                               print_failure s) in
              frame_loop progress_callback sample_rate start_frame_int actual_end_frame
                total_to_analyze cap' (next_frame s')
          end
        else
          frame_loop progress_callback sample_rate start_frame_int actual_end_frame
            total_to_analyze cap' (next_frame s)
    end.

Definition initial_stats (total_frames : Z) (fps : float) (sample_rate total_to_analyze : Z)
    : gmap string pyval :=
  <["clarity" := PyList []]> (
  <["exposure" := PyList []]> (
  <["contrast" := PyList []]> (
  <["num_images" := PyInt 0]> (
  <["blurry" := PyInt 0]> (
  <["under_exposed" := PyInt 0]> (
  <["over_exposed" := PyInt 0]> (
  <["low_contrast" := PyInt 0]> (
  <["total_frames" := PyInt total_frames]> (
  <["fps" := PyFloat fps]> (
  <["sample_rate" := PyInt sample_rate]> (
  <["frames_analyzed" := PyInt total_to_analyze]> ∅))))))))))).

(** [min(end_frame_int, total_frames)] when [end_frame] is given. *)
Definition clamp_end (end_frame : option Z) (total_frames : Z) : Z :=
  match end_frame with
  | Some end_frame_int => Z.min end_frame_int total_frames
  | None => total_frames
  end.

(** The state in which the loop is entered, lines 106-127. *)
Definition loop_entry (total_frames : Z) (fps : float)
    (sample_rate start_frame_int total_to_analyze : Z) : locals :=
  {| stats := initial_stats total_frames fps sample_rate total_to_analyze;
     analyzed_count := 0;
     frame_idx := if 0 <? start_frame_int then start_frame_int else 0;
     progress_calls := [];
     stdout := [] |}.

Definition positioned (start_frame_int : Z) (cap : VideoCapture) : list (option image) :=
  if 0 <? start_frame_int then seek start_frame_int (stream cap) else stream cap.

(** What a call leaves behind besides its return value. *)
Record analysis := {
  returned : bool * string * gmap string pyval;
  callback_calls : list (Z * Z);
  printed : list string
}.

Definition analysis_message (analyzed start_frame_int actual_end_frame sample_rate : Z) : string :=
  "Quality analysis completed." +:+ nl +:+ nl +:+
  "Analyzed " +:+ str_int analyzed +:+ "/" +:+ str_int (actual_end_frame - start_frame_int)
  +:+ " frames (range: " +:+ str_int start_frame_int +:+ "-" +:+ str_int actual_end_frame
  +:+ ", sampling every " +:+ str_int sample_rate +:+ " frames)".

(** [analyze_video_quality], lines 68-194. Of the statements in the outer
    [try], the floor division by [sample_rate] is the one that raises on
    integer arguments. [np.array] keeps the three metric sequences as they
    are. *)
Definition analyze_video_quality (cap : VideoCapture)
    (sample_rate start_frame : Z) (end_frame : option Z)
    (progress_callback : option callback) : analysis :=
  if negb (isOpened cap) then
    {| returned := (false, "Unable to open video file.", ∅);
       callback_calls := []; printed := [] |}
  else
    let total_frames := frame_count cap in
    let start_frame_int := start_frame in
    let actual_end_frame := clamp_end end_frame total_frames in
    if sample_rate =? 0 then
      {| returned := (false, "Error occurred during analysis:" +:+ nl +:+ nl
                             +:+ "integer division or modulo by zero", ∅);
         callback_calls := []; printed := [] |}
    else
      let total_to_analyze := (actual_end_frame - start_frame_int + sample_rate - 1) / sample_rate in
      let s := frame_loop progress_callback sample_rate start_frame_int actual_end_frame
                 total_to_analyze (positioned start_frame_int cap)
                 (loop_entry total_frames (fps cap) sample_rate start_frame_int total_to_analyze) in
      if analyzed_count s =? 0 then
        {| returned := (false, "No frames were analyzed.", ∅);
           callback_calls := progress_calls s; printed := stdout s |}
      else
        {| returned := (true,
                        analysis_message (analyzed_count s) start_frame_int actual_end_frame sample_rate,
                        stats s);
           callback_calls := progress_calls s; printed := stdout s |}.

(** *** [validate_quality], lines 196-261 *)

(** [stats.get(key, 0)] *)
Definition get (key : string) (stats : gmap string pyval) : pyval :=
  default (PyInt 0) (stats !! key).

(** [100 * count / num_images] *)
Definition percentage (count num_images : pyval) : result float :=
  scaled ← py_int_mul 100 count; py_truediv scaled num_images.

Definition clarity_issue (blurry_pct : float) : string :=
  "Clarity: " +:+ format_1f blurry_pct
  +:+ "% of frames are blurry (threshold: " +:+ threshold_text +:+ "%)".

Definition exposure_issue (exposure_pct : float) : string :=
  "Exposure: " +:+ format_1f exposure_pct
  +:+ "% of frames have exposure issues (threshold: " +:+ threshold_text +:+ "%)".

Definition contrast_issue (low_contrast_pct : float) : string :=
  "Contrast: " +:+ format_1f low_contrast_pct
  +:+ "% of frames have low contrast (threshold: " +:+ threshold_text +:+ "%)".

(** [details[key].append(line)] on the local dictionary [details]. *)
Definition details_append (key line : string) (details : gmap string (list string))
    : gmap string (list string) :=
  alter (fun l => l ++ [line]) key details.

Definition report (issues : list string) (details : gmap string (list string)) :=
  (issues, details).

(** Lines 220-223. *)
Definition check_clarity (blurry_pct : float)
    (acc : list string * gmap string (list string)) :=
  let '(issues, details) := acc in
  if fgt blurry_pct MAX_BLURRY_PCT then
    let issue := clarity_issue blurry_pct in
    report (issues ++ [issue]) (details_append "clarity" issue details)
  else acc.

(** Lines 225-233. *)
Definition check_exposure (exposure_pct under_exposed_pct over_exposed_pct : float)
    (acc : list string * gmap string (list string)) :=
  let '(issues, details) := acc in
  if fgt exposure_pct MAX_EXPOSURE_PCT then
    let issue := exposure_issue exposure_pct in
    let details := details_append "exposure" issue details in
    let details :=
      if fgt under_exposed_pct (float_const 0)
      then details_append "exposure"
             ("  - Under-exposed: " +:+ format_1f under_exposed_pct +:+ "%") details
      else details in
    let details :=
      if fgt over_exposed_pct (float_const 0)
      then details_append "exposure"
             ("  - Over-exposed: " +:+ format_1f over_exposed_pct +:+ "%") details
      else details in
    report (issues ++ [issue]) details
  else acc.

(** Lines 235-238. *)
Definition check_contrast (low_contrast_pct : float)
    (acc : list string * gmap string (list string)) :=
  let '(issues, details) := acc in
  if fgt low_contrast_pct MAX_LOW_CONTRAST_PCT then
    let issue := contrast_issue low_contrast_pct in
    report (issues ++ [issue]) (details_append "contrast" issue details)
  else acc.

Definition no_details : gmap string (list string) :=
  <["clarity" := []]> (<["exposure" := []]> (<["contrast" := []]> ∅)).

Definition percentages (blurry_pct exposure_pct under_exposed_pct over_exposed_pct
    low_contrast_pct : float) : gmap string float :=
  <["blurry_pct" := blurry_pct]> (
  <["exposure_pct" := exposure_pct]> (
  <["under_exposed_pct" := under_exposed_pct]> (
  <["over_exposed_pct" := over_exposed_pct]> (
  <["low_contrast_pct" := low_contrast_pct]> ∅)))).

(** [len(issues) == 0] *)
Definition is_empty (issues : list string) : bool :=
  Z.of_nat (length issues) =? 0.

Definition validation_message (passed : bool) (issues : list string) : string :=
  if passed then
    "✓ Validation passed!" +:+ nl +:+ nl +:+ "All visual quality checks meet the standards."
  else
    "✗ Validation failed" +:+ nl +:+ nl +:+ "The following issues were found:" +:+ nl +:+ nl
    +:+ foldl (fun msg issue => msg +:+ "  • " +:+ issue +:+ nl) "" issues
    +:+ nl +:+ "A total of " +:+ str_int (Z.of_nat (length issues)) +:+ " issues were found.".

(** Lines 215-261: from the four quotients to the returned triple. *)
Definition judge (blurry_pct under_exposed_pct over_exposed_pct low_contrast_pct : float)
    : bool * string * option ValidationResult.t :=
  let exposure_pct := fadd under_exposed_pct over_exposed_pct in
  let '(issues, details) :=
    check_contrast low_contrast_pct
      (check_exposure exposure_pct under_exposed_pct over_exposed_pct
         (check_clarity blurry_pct (report [] no_details))) in
  let validation_result :=
    {| ValidationResult.passed := is_empty issues;
       ValidationResult.issues := issues;
       ValidationResult.details := details;
       ValidationResult.stats :=
         percentages blurry_pct exposure_pct under_exposed_pct over_exposed_pct
           low_contrast_pct |} in
  (true,
   validation_message (ValidationResult.passed validation_result) issues,
   Some validation_result).

Definition validate_quality (stats : gmap string pyval)
    : result (bool * string * option ValidationResult.t) :=
  let num_images := get "num_images" stats in
  if py_eq_zero num_images then
    Ok (false, "No image data available for validation.", None)
  else
    blurry_pct ← percentage (get "blurry" stats) num_images;
    under_exposed_pct ← percentage (get "under_exposed" stats) num_images;
    over_exposed_pct ← percentage (get "over_exposed" stats) num_images;
    low_contrast_pct ← percentage (get "low_contrast" stats) num_images;
    Ok (judge blurry_pct under_exposed_pct over_exposed_pct low_contrast_pct).

(** *** [run], lines 330-414

    The value [run] returns; the callback calls and the printed lines of a
    run are those of its analysis. *)

Record VideoQualityValidator := { video_path : string }.

(** [__init__], lines 57-66 *)
Definition __init__ (env : environment) (video_path : string) : result VideoQualityValidator :=
  if negb (path_exists env video_path)
  then Raise (Exn FileNotFoundError ("Video file not found: " +:+ video_path))
  else Ok {| video_path := video_path |}.

(** The two terminal outputs, lines 352-366 and 372-386. *)
Definition terminal (analyze_success : bool) (message analyze_msg validate_msg path created_at : string)
    : ValidationPipelineOutput.t :=
  {| ValidationPipelineOutput.passed := false;
     ValidationPipelineOutput.status := "bad";
     ValidationPipelineOutput.analyze_success := analyze_success;
     ValidationPipelineOutput.validate_success := false;
     ValidationPipelineOutput.message := message;
     ValidationPipelineOutput.analyze_message := analyze_msg;
     ValidationPipelineOutput.validate_message := validate_msg;
     ValidationPipelineOutput.issues := [];
     ValidationPipelineOutput.details := ∅;
     ValidationPipelineOutput.stats := ∅;
     ValidationPipelineOutput.summary := "";
     ValidationPipelineOutput.video_path := path;
     ValidationPipelineOutput.created_at := created_at |}.

Definition run (env : environment) (self : VideoQualityValidator)
    (sample_rate start_frame : Z) (end_frame : option Z) (include_summary : bool)
    (progress_callback : option callback) : result ValidationPipelineOutput.t :=
  let created_at := utc_now env in
  let '(analyze_success, analyze_msg, stats) :=
    returned (analyze_video_quality (open_video env (video_path self))
                sample_rate start_frame end_frame progress_callback) in
  if negb analyze_success then
    Ok (terminal false analyze_msg analyze_msg "" (video_path self) created_at)
  else
    '(validate_success, validate_msg, validation_result) ← validate_quality stats;
    if negb validate_success then
      let combined := analyze_msg +:+ nl +:+ nl +:+ validate_msg in
      Ok (terminal true combined analyze_msg validate_msg (video_path self) created_at)
    else
      let passed := from_option ValidationResult.passed false validation_result in
      let status := if passed then "good" else "bad" in
      let summary :=
        if include_summary then
          match get_quality_summary env stats validation_result with
          | Ok text => text
          | Raise _ => ""
          end
        else "" in
      let combined := analyze_msg +:+ nl +:+ nl +:+ validate_msg in
      Ok {| ValidationPipelineOutput.passed := passed;
            ValidationPipelineOutput.status := status;
            ValidationPipelineOutput.analyze_success := true;
            ValidationPipelineOutput.validate_success := true;
            ValidationPipelineOutput.message := combined;
            ValidationPipelineOutput.analyze_message := analyze_msg;
            ValidationPipelineOutput.validate_message := validate_msg;
            ValidationPipelineOutput.issues :=
              from_option ValidationResult.issues [] validation_result;
            ValidationPipelineOutput.details :=
              from_option ValidationResult.details ∅ validation_result;
            ValidationPipelineOutput.stats :=
              from_option ValidationResult.stats ∅ validation_result;
            ValidationPipelineOutput.summary := summary;
            ValidationPipelineOutput.video_path := video_path self;
            ValidationPipelineOutput.created_at := created_at |}.

(** [validate_video_file], lines 417-439; [asdict] keeps the thirteen
    fields under their names. *)
Definition validate_video_file (env : environment) (video_path : string)
    (sample_rate start_frame : Z) (end_frame : option Z) (include_summary : bool)
    (progress_callback : option callback) : result ValidationPipelineOutput.t :=
  validator ← __init__ env video_path;
  run env validator sample_rate start_frame end_frame include_summary progress_callback.

End Validator.

(** ** Vocabulary of the statements *)

Module Spec.
Import Py Cv2 Validator.

(** A float that is not an infinity. *)
Definition not_inf (x : float) : Prop :=
  match x with S754_infinity _ => False | _ => True end.

(** The quotient [100 * count / num_images] of two integers. *)
Definition pct (count num_images : Z) : float :=
  fdiv (exact_int (100 * count)) (exact_int num_images).

(** [stats.get(key, 0)] is the integer [c]: the key is absent and [c] is
    0, or it holds [c]. *)
Definition reads (stats : gmap string pyval) (key : string) (c : Z) : Prop :=
  get key stats = PyInt c.

(** A counter small enough for its percentage to be a finite float
    whatever the non-zero divisor. *)
Definition in_range (c : Z) : Prop := Z.abs c < 2 ^ 1000.

(** [(num_images - blurry) / num_images * 100] *)
Definition complement_pct (blurry num_images : Z) : result float :=
  q ← int_truediv (num_images - blurry) num_images;
  hundred ← float_of_int 100;
  Ok (fmul q hundred).

(** The issues of the three checks, in check order. *)
Definition raised (blurry_pct exposure_pct low_contrast_pct : float) : list string :=
  (if fgt blurry_pct MAX_BLURRY_PCT then [clarity_issue blurry_pct] else []) ++
  (if fgt exposure_pct MAX_EXPOSURE_PCT then [exposure_issue exposure_pct] else []) ++
  (if fgt low_contrast_pct MAX_LOW_CONTRAST_PCT then [contrast_issue low_contrast_pct] else []).

#[export] Instance float_eq_dec : EqDecision float.
Proof. solve_decision. Defined.

(** 100.0 and its two neighbours, 99.99999999999999 and
    100.00000000000001. *)
Definition below_100 : float := S754_finite false 7036874417766399 (-46).
Definition above_100 : float := S754_finite false 7036874417766401 (-46).

(** [blurry_pct + (num_images - blurry) / num_images * 100] is 100.0 or
    one of its neighbours. *)
Definition complement_close (blurry num_images : Z) : bool :=
  match complement_pct blurry num_images with
  | Ok c =>
      let sum := fadd (pct blurry num_images) c in
      bool_decide (sum = float_const 100) || bool_decide (sum = below_100)
      || bool_decide (sum = above_100)
  | Raise _ => false
  end.

(** ... for every [num_images] from 1 to [limit] and every [blurry] from 0
    to [num_images]. *)
Definition complement_close_upto (limit : Z) : bool :=
  forallb (fun n => forallb (fun b => complement_close b n) (seqZ 0 (n + 1)))
          (seqZ 1 limit).

(** [x == y] on floats. *)
Definition feq (x y : float) : bool := SFeqb x y.

(** The per-frame checks of lines 147, 153, 155 and 161. *)
Definition is_blurry (g : gray) : bool := flt (laplacian_var g) (float_const MIN_CLARITY).
Definition is_under_exposed (g : gray) : bool := flt (mean g) (float_const MIN_EXPOSURE).
Definition is_over_exposed (g : gray) : bool :=
  negb (is_under_exposed g) && fgt (mean g) (float_const MAX_EXPOSURE).
Definition is_low_contrast (g : gray) : bool := flt (std g) (float_const MIN_CONTRAST).

Definition bit (b : bool) : Z := if b then 1 else 0.

Definition count_if (p : gray -> bool) (gs : list gray) : Z :=
  Z.of_nat (length (filter (fun g => p g = true) gs)).

(** The entries of the statistics dictionary the frame walk updates. *)
Definition tallies (d : gmap string pyval) (clarity exposure contrast : list float)
    (num_images blurry under_exposed over_exposed low_contrast : Z) : Prop :=
  d !! "clarity" = Some (PyList clarity) /\
  d !! "exposure" = Some (PyList exposure) /\
  d !! "contrast" = Some (PyList contrast) /\
  d !! "num_images" = Some (PyInt num_images) /\
  d !! "blurry" = Some (PyInt blurry) /\
  d !! "under_exposed" = Some (PyInt under_exposed) /\
  d !! "over_exposed" = Some (PyInt over_exposed) /\
  d !! "low_contrast" = Some (PyInt low_contrast).

(** The dictionary holds the statistics of the grayscale frames [gs]. *)
Definition records (d : gmap string pyval) (gs : list gray) : Prop :=
  tallies d (laplacian_var <$> gs) (mean <$> gs) (std <$> gs)
    (Z.of_nat (length gs))
    (count_if is_blurry gs) (count_if is_under_exposed gs)
    (count_if is_over_exposed gs) (count_if is_low_contrast gs).

(** Frame [i] is one the stride selects. *)
Definition sampled (sample_rate start_frame i : Z) : bool :=
  (i - start_frame) mod sample_rate =? 0.

(** The grayscale image of frame [i] when the stride selects it, the
    capture decodes it and the conversion succeeds. *)
Definition gray_at (frames : list (option image)) (sample_rate start_frame i : Z)
    : option gray :=
  if sampled sample_rate start_frame i then
    match frames !! Z.to_nat i with
    | Some (Some frame) =>
        match cvtColor frame with Ok g => Some g | Raise _ => None end
    | _ => None
    end
  else None.

(** The grayscale images of the selected frames with index in
    [[first, stop)], in frame order. *)
Definition analyzed (frames : list (option image)) (sample_rate start_frame first stop : Z)
    : list gray :=
  omap (gray_at frames sample_rate start_frame) (seqZ first (stop - first)).

(** The capture signals the end of the stream at index [i]: [grab] fails,
    or [retrieve] fails on a frame the stride selects. *)
Definition stream_ends_at (frames : list (option image)) (sample_rate start_frame i : Z)
    : Prop :=
  frames !! Z.to_nat i = None \/
  (sampled sample_rate start_frame i = true /\ frames !! Z.to_nat i = Some None).

(** [(1, total), (2, total), ..., (k, total)] *)
Definition progress_reports (k total : Z) : list (Z * Z) :=
  (fun i => (i, total)) <$> seqZ 1 k.

(** The estimate of line 104. *)
Definition estimated_total (cap : VideoCapture) (sample_rate start_frame : Z)
    (end_frame : option Z) : Z :=
  (clamp_end end_frame (frame_count cap) - start_frame + sample_rate - 1) / sample_rate.

(** Fifty analyzed frames, none blurry, three under-exposed, two
    over-exposed, none of low contrast. *)
Definition boundary_scenario : gmap string pyval :=
  <["num_images" := PyInt 50]> (<["blurry" := PyInt 0]> (
  <["under_exposed" := PyInt 3]> (<["over_exposed" := PyInt 2]> (
  <["low_contrast" := PyInt 0]> ∅)))).

(** A hundred analyzed frames, twelve of them blurry. *)
Definition twelve_in_hundred : gmap string pyval :=
  <["num_images" := PyInt 100]> (<["blurry" := PyInt 12]> (
  <["under_exposed" := PyInt 0]> (<["over_exposed" := PyInt 0]> (
  <["low_contrast" := PyInt 0]> ∅)))).

(** Six analyzed frames, one of them blurry. *)
Definition one_in_six : gmap string pyval :=
  <["num_images" := PyInt 6]> (<["blurry" := PyInt 1]> (
  <["under_exposed" := PyInt 0]> (<["over_exposed" := PyInt 0]> (
  <["low_contrast" := PyInt 0]> ∅)))).

(** The index at which the walk starts: [start_frame] when the capture
    was repositioned, 0 otherwise. *)
Definition first_index (start_frame : Z) : Z :=
  if 0 <? start_frame then start_frame else 0.

(** What holds of the local state each time the loop condition is
    evaluated, for a walk that started at [first]. *)
Definition walk_inv (frames : list (option image)) (progress_callback : option callback)
    (sample_rate start_frame total first : Z) (s : locals) : Prop :=
  first <= frame_idx s /\
  records (stats s) (analyzed frames sample_rate start_frame first (frame_idx s)) /\
  analyzed_count s
    = Z.of_nat (length (analyzed frames sample_rate start_frame first (frame_idx s))) /\
  progress_calls s
    = match progress_callback with
      | Some _ => progress_reports (analyzed_count s) total
      | None => []
      end /\
  (forall i, first <= i < frame_idx s ->
     exists grabbed, frames !! Z.to_nat i = Some grabbed /\
       (sampled sample_rate start_frame i = true -> is_Some grabbed)).

(** The local state in which an opened capture leaves the loop. *)
Definition final_state (cap : VideoCapture) (sample_rate start_frame : Z)
    (end_frame : option Z) (progress_callback : option callback) : locals :=
  let total := estimated_total cap sample_rate start_frame end_frame in
  frame_loop progress_callback sample_rate start_frame
    (clamp_end end_frame (frame_count cap)) total (positioned start_frame cap)
    (loop_entry (frame_count cap) (fps cap) sample_rate start_frame total).

(** Two local states that differ at most in what was reported and
    printed. *)
Definition same_analysis (s s0 : locals) : Prop :=
  stats s = stats s0 /\ analyzed_count s = analyzed_count s0 /\
  frame_idx s = frame_idx s0.

(** Two computations that, from states with the same analysis, end in
    states with the same analysis. *)
Definition related {A} (m m0 : M A) : Prop :=
  forall s s0, same_analysis s s0 -> same_analysis (fst (m s)) (fst (m0 s0)).

(** ... and, moreover, in the same result. *)
Definition agree {A} (m m0 : M A) : Prop :=
  forall s s0, same_analysis s s0 ->
    same_analysis (fst (m s)) (fst (m0 s0)) /\ snd (m s) = snd (m0 s0).

(** Sample frames and captures. *)
Definition sharp_frame : option image :=
  Some (Image (Ok (Gray (float_const 100) (float_const 120) (float_const 40)))).
Definition dark_frame : option image :=
  Some (Image (Ok (Gray (float_const 5) (float_const 30) (float_const 10)))).
Definition corrupt_frame : option image :=
  Some (Image (Raise (Exn OtherException "cv2.error"))).

(** Five frames, the third of which does not convert. *)
Definition sample_capture : VideoCapture :=
  {| isOpened := true; frame_count := 5; fps := float_const 30;
     stream := [sharp_frame; dark_frame; corrupt_frame; sharp_frame; sharp_frame] |}.

(** Three frames that all convert. *)
Definition three_frames : VideoCapture :=
  {| isOpened := true; frame_count := 3; fps := float_const 30;
     stream := [sharp_frame; sharp_frame; sharp_frame] |}.

(** An environment in which every path exists and opens [three_frames],
    and one in which no path exists. *)
Definition sample_environment : environment :=
  {| path_exists := fun _ => true;
     open_video := fun _ => three_frames;
     utc_now := "2025-01-01T00:00:00+00:00";
     get_quality_summary := fun _ _ => Ok "" |}.

Definition empty_environment : environment :=
  {| path_exists := fun _ => false;
     open_video := fun _ => {| isOpened := false; frame_count := 0;
                               fps := float_const 0; stream := [] |};
     utc_now := "2025-01-01T00:00:00+00:00";
     get_quality_summary := fun _ _ => Ok "" |}.

(** The messages of the three failures of [analyze_video_quality]. *)
Definition analysis_failures : list string :=
  ["Unable to open video file.";
   "Error occurred during analysis:" +:+ nl +:+ nl +:+ "integer division or modulo by zero";
   "No frames were analyzed."].

(** The four counters [validate_quality] reads besides [num_images]. *)
Definition counter_keys : list string :=
  ["blurry"; "under_exposed"; "over_exposed"; "low_contrast"].

End Spec.

(** ** Vocabulary for the frame walk as a whole *)

Module Trace.
Import Py Cv2 Validator Spec.

(** One turn of the loop on a frame that [grab] has stepped onto, lines
    136-173: [None] when the loop is left through [break], the state with
    which the next turn starts otherwise. *)
Definition loop_body (progress_callback : option callback)
    (sample_rate start_frame_int total_to_analyze : Z)
    (grabbed : option image) (s : locals) : option locals :=
  if (frame_idx s - start_frame_int) mod sample_rate =? 0 then
    match grabbed with
    | None => None
    | Some frame =>
        Some (next_frame (fst (try_except
                                 (analyze_frame progress_callback total_to_analyze frame)
                                 print_failure s)))
    end
  else Some (next_frame s).

(** The line printed for frame [i] by the handler of the inner [try]. *)
Definition failure_line (i : Z) (e : exn) : string :=
  "  ⚠️ Failed to analyze frame " +:+ str_int i +:+ ": " +:+ exn_text e.

(** What the callback does when it is called for frame [i]: the count it
    receives is one more than the number of frames analyzed before [i]. *)
Definition callback_outcome (frames : list (option image))
    (progress_callback : option callback)
    (sample_rate start_frame total first i : Z) : option exn :=
  match progress_callback with
  | Some f =>
      f (Z.of_nat (length (analyzed frames sample_rate start_frame first i)) + 1) total
  | None => None
  end.

(** The lines printed on account of frame [i]: one when the stride selects
    the frame, [retrieve] gives it and either its conversion or the callback
    raises; none otherwise. *)
Definition warning_at (frames : list (option image)) (progress_callback : option callback)
    (sample_rate start_frame total first i : Z) : list string :=
  if sampled sample_rate start_frame i then
    match frames !! Z.to_nat i with
    | Some (Some frame) =>
        match cvtColor frame with
        | Raise e => [failure_line i e]
        | Ok _ =>
            match callback_outcome frames progress_callback sample_rate start_frame
                    total first i with
            | Some e => [failure_line i e]
            | None => []
            end
        end
    | _ => []
    end
  else [].

(** The lines printed on account of the frames with index in
    [[first, stop)], in frame order. *)
Definition warnings (frames : list (option image)) (progress_callback : option callback)
    (sample_rate start_frame total first stop : Z) : list string :=
  mjoin (warning_at frames progress_callback sample_rate start_frame total first
           <$> seqZ first (stop - first)).

(** The indices in [[first, stop)] that the stride selects. *)
Definition selected_indices (sample_rate start_frame first stop : Z) : list Z :=
  filter (fun i => sampled sample_rate start_frame i = true) (seqZ first (stop - first)).

(** The keys of the statistics dictionary that the loop writes to. *)
Definition walk_keys : list string :=
  ["clarity"; "exposure"; "contrast"; "num_images"; "blurry"; "under_exposed";
   "over_exposed"; "low_contrast"].

(** The twelve keys of the statistics dictionary. *)
Definition stats_keys : gset string :=
  list_to_set (walk_keys ++ ["total_frames"; "fps"; "sample_rate"; "frames_analyzed"]).

(** A property of the statistics dictionary that writing to one of the
    keys of the walk does not undo. *)
Definition stable (P : gmap string pyval -> Prop) : Prop :=
  forall d key v, key ∈ walk_keys -> P d -> P (<[key := v]> d).

(** A computation that keeps a property of the statistics dictionary. *)
Definition preserves (P : gmap string pyval -> Prop) {A} (m : M A) : Prop :=
  forall s, P (stats s) -> P (stats (fst (m s))).

(** The estimate of line 104 for a range that ends at [stop]. *)
Definition estimate (sample_rate start_frame stop : Z) : Z :=
  (stop - start_frame + sample_rate - 1) / sample_rate.

(** Every frame of the range is there, is retrieved and converts. *)
Definition healthy (cap : VideoCapture) (first stop : Z) : Prop :=
  forall i, first <= i < stop ->
    exists frame g, stream cap !! Z.to_nat i = Some (Some frame) /\ cvtColor frame = Ok g.

(** The first line of each non-empty entry of [details], in the order of
    the checks. *)
Definition headlines (details : gmap string (list string)) : list string :=
  take 1 (default [] (details !! "clarity")) ++
  take 1 (default [] (details !! "exposure")) ++
  take 1 (default [] (details !! "contrast")).

(** The three keys of [details]. *)
Definition detail_keys : gset string := {["clarity"; "exposure"; "contrast"]}.

(** A function applied to what a call returns. *)
Definition on_result {A B} (f : A -> B) (r : result A) : result B :=
  match r with Ok a => Ok (f a) | Raise e => Raise e end.

(** The sub-lines of the exposure check, lines 230-233. *)
Definition exposure_sublines (under_exposed_pct over_exposed_pct : float) : list string :=
  (if fgt under_exposed_pct (float_const 0)
   then ["  - Under-exposed: " +:+ format_1f under_exposed_pct +:+ "%"] else []) ++
  (if fgt over_exposed_pct (float_const 0)
   then ["  - Over-exposed: " +:+ format_1f over_exposed_pct +:+ "%"] else []).

(** An output with its summary blanked. *)
Definition without_summary (out : ValidationPipelineOutput.t) : ValidationPipelineOutput.t :=
  {| ValidationPipelineOutput.passed := ValidationPipelineOutput.passed out;
     ValidationPipelineOutput.status := ValidationPipelineOutput.status out;
     ValidationPipelineOutput.analyze_success := ValidationPipelineOutput.analyze_success out;
     ValidationPipelineOutput.validate_success := ValidationPipelineOutput.validate_success out;
     ValidationPipelineOutput.message := ValidationPipelineOutput.message out;
     ValidationPipelineOutput.analyze_message := ValidationPipelineOutput.analyze_message out;
     ValidationPipelineOutput.validate_message := ValidationPipelineOutput.validate_message out;
     ValidationPipelineOutput.issues := ValidationPipelineOutput.issues out;
     ValidationPipelineOutput.details := ValidationPipelineOutput.details out;
     ValidationPipelineOutput.stats := ValidationPipelineOutput.stats out;
     ValidationPipelineOutput.summary := "";
     ValidationPipelineOutput.video_path := ValidationPipelineOutput.video_path out;
     ValidationPipelineOutput.created_at := ValidationPipelineOutput.created_at out |}.

(** An output with its time stamp blanked. *)
Definition without_created_at (out : ValidationPipelineOutput.t) : ValidationPipelineOutput.t :=
  {| ValidationPipelineOutput.passed := ValidationPipelineOutput.passed out;
     ValidationPipelineOutput.status := ValidationPipelineOutput.status out;
     ValidationPipelineOutput.analyze_success := ValidationPipelineOutput.analyze_success out;
     ValidationPipelineOutput.validate_success := ValidationPipelineOutput.validate_success out;
     ValidationPipelineOutput.message := ValidationPipelineOutput.message out;
     ValidationPipelineOutput.analyze_message := ValidationPipelineOutput.analyze_message out;
     ValidationPipelineOutput.validate_message := ValidationPipelineOutput.validate_message out;
     ValidationPipelineOutput.issues := ValidationPipelineOutput.issues out;
     ValidationPipelineOutput.details := ValidationPipelineOutput.details out;
     ValidationPipelineOutput.stats := ValidationPipelineOutput.stats out;
     ValidationPipelineOutput.summary := ValidationPipelineOutput.summary out;
     ValidationPipelineOutput.video_path := ValidationPipelineOutput.video_path out;
     ValidationPipelineOutput.created_at := "" |}.

(** Two environments with the same files and captures; their clocks and
    what [get_quality_summary] does in them may differ. *)
Definition same_videos (env env' : environment) : Prop :=
  path_exists env = path_exists env' /\ open_video env = open_video env'.

(** A callback that raises at every call, and one that never does. *)
Definition raising_callback : callback :=
  fun _ _ => Some (Exn OtherException "callback failed").
Definition quiet_callback : callback := fun _ _ => None.

(** There is no callback, or one that returns from every call. *)
Definition quiet (progress_callback : option callback) : Prop :=
  match progress_callback with
  | Some f => forall current total, f current total = None
  | None => True
  end.

(** What the callback answers when it is called with [current]. *)
Definition answer (progress_callback : option callback) (current total : Z) : result unit :=
  match progress_callback with
  | Some f => match f current total with Some e => Raise e | None => Ok tt end
  | None => Ok tt
  end.

End Trace.

(** ** Python strings, as sequences of code points *)

Module Str.

(** A [str]: its code points, in order. *)
Abbreviation str := (list N).

(** An ASCII literal of the source. *)
Definition lit (s : string) : str :=
  (fun a => Ascii.N_of_ascii a) <$> String.list_ascii_of_string s.

Definition slash : N := 47%N.

(** The code points for which [str.isspace] holds, the ones [str.strip]
    removes. *)
Definition whitespace : list N :=
  [9; 10; 11; 12; 13; 28; 29; 30; 31; 32; 133; 160; 5760;
   8192; 8193; 8194; 8195; 8196; 8197; 8198; 8199; 8200; 8201; 8202;
   8232; 8233; 8239; 8287; 12288]%N.

Definition isspace (c : N) : bool := bool_decide (c ∈ whitespace).

(** One of the characters of [chars], as in [s.lstrip(chars)]. *)
Definition among (chars : str) (c : N) : bool := bool_decide (c ∈ chars).

(** [s.lstrip(...)] and [s.rstrip(...)] for the characters [p] holds of. *)
Fixpoint lstrip (p : N -> bool) (s : str) : str :=
  match s with
  | c :: s' => if p c then lstrip p s' else s
  | [] => []
  end.

Definition rstrip (p : N -> bool) (s : str) : str := reverse (lstrip p (reverse s)).

(** [s.strip()] *)
Definition strip (s : str) : str := rstrip isspace (lstrip isspace s).

(** [s.split(sep)] for a separator of one character: the pieces between
    the separators, at least one. *)
Fixpoint split (sep : N) (s : str) : list str :=
  match s with
  | [] => [[]]
  | c :: s' =>
      if (c =? sep)%N then [] :: split sep s'
      else match split sep s' with
           | piece :: pieces => (c :: piece) :: pieces
           | [] => [[c]]
           end
  end.

(** [sep.join(pieces)] *)
Fixpoint join (sep : str) (pieces : list str) : str :=
  match pieces with
  | [] => []
  | [piece] => piece
  | piece :: pieces' => piece ++ sep ++ join sep pieces'
  end.

(** [re.sub(repl, s)] for a pattern [[^...]+]: every maximal run of
    characters outside the class is replaced by [repl]. [in_run] tells
    that the character before belongs to a run already replaced. *)
Fixpoint sub_runs (class : N -> bool) (repl : str) (in_run : bool) (s : str) : str :=
  match s with
  | [] => []
  | c :: s' =>
      if class c then c :: sub_runs class repl false s'
      else if in_run then sub_runs class repl true s'
      else repl ++ sub_runs class repl true s'
  end.

Definition re_sub (class : N -> bool) (repl : str) (s : str) : str :=
  sub_runs class repl false s.

(** [os.path.basename] of [posixpath]: what follows the last slash. *)
Definition basename (p : str) : str := default [] (last (split slash p)).

(** [x or y] on strings. *)
Definition or_else (x : option str) (y : str) : str :=
  match x with
  | Some (c :: s) => c :: s
  | _ => y
  end.

End Str.

(** ** [app.py]: names and keys *)

Module App.
Import Py Validator Str.

Definition UPLOADS_PREFIX : str := lit "uploads".
Definition RECORDS_PREFIX : str := lit "records".

(** The class [A-Za-z0-9._-], whose complement [_filename_strip_re]
    matches, and the class [A-Za-z0-9._/-] of [_prefix_strip_re]. *)
Definition filename_char (c : N) : bool :=
  ((48 <=? c) && (c <=? 57) || (65 <=? c) && (c <=? 90) || (97 <=? c) && (c <=? 122)
   || (c =? 46) || (c =? 95) || (c =? 45))%N.

Definition prefix_char (c : N) : bool := filename_char c || (c =? slash)%N.

(** [safe_filename], lines 94-100 *)
Definition safe_filename (name : option str) : str :=
  let name := strip (or_else name []) in
  match name with
  | [] => lit "upload.bin"
  | _ =>
      let name := basename name in
      let name := re_sub filename_char (lit "_") name in
      or_else (Some name) (lit "upload.bin")
  end.

(** The body of the loop of [safe_prefix], lines 109-115. *)
Definition add_segment (segments : list str) (seg : str) : list str :=
  let seg := strip seg in
  match seg with
  | [] => segments
  | _ =>
      if bool_decide (seg ∈ [lit "."; lit ".."]) then segments
      else segments ++ [seg]
  end.

(** [safe_prefix], lines 103-116 *)
Definition safe_prefix (prefix : option str) : str :=
  let prefix := strip (or_else prefix []) in
  let prefix := re_sub prefix_char (lit "_") prefix in
  let prefix := lstrip (among (lit "/")) prefix in
  let segments := foldl add_segment [] (split slash prefix) in
  join (lit "/") segments.

(** What an endpoint answers: a value, or an [HTTPException]. *)
Inductive response (A : Type) : Type :=
  | Returns (a : A)
  | HTTPException (status_code : Z) (detail : str).
Arguments Returns {A} a.
Arguments HTTPException {A} status_code detail.

(** One call of [s3.put_object], with its keyword arguments. *)
Record put_object_call := {
  Bucket : str;
  Key : str;
  Body : str;
  ContentType : str;
  Metadata : list (str * str)
}.

(** What [create_folder] returns. *)
Record folder_created := {
  ok : bool;
  bucket : str;
  folder_key : str
}.

(** [create_folder], lines 332-353, over the calls of [s3.put_object] made
    so far, oldest first: it returns the calls made when it is left, and
    its answer. [put_object] tells what a call does, given the calls before
    it: [None] when it returns, the text of the error when it raises
    [BotoCoreError] or [ClientError]. *)
Definition create_folder (put_object : list put_object_call -> put_object_call -> option str)
    (WASABI_BUCKET : str) (parent name : str) (calls : list put_object_call)
    : list put_object_call * response folder_created :=
  let parent := safe_prefix (Some parent) in
  let name := safe_prefix (Some name) in
  match name with
  | [] => (calls, HTTPException 400 (lit "Invalid folder name"))
  | _ =>
      let folder_key :=
        match parent with
        | [] => name ++ lit "/"
        | _ => rstrip (among (lit "/")) parent ++ lit "/" ++ name ++ lit "/"
        end in
      let call :=
        {| Bucket := WASABI_BUCKET;
           Key := folder_key;
           Body := [];
           ContentType := lit "application/x-directory";
           Metadata := [(lit "type", lit "folder")] |} in
      match put_object calls call with
      | Some e => (calls ++ [call], HTTPException 500 (lit "Failed to create folder: " ++ e))
      | None =>
          (calls ++ [call],
           Returns {| ok := true; bucket := WASABI_BUCKET; folder_key := folder_key |})
      end
  end.

(** The names and keys [upload_video] derives from its arguments, lines
    368-375. *)
Record upload_names := {
  original_name : str;
  folder_prefix : str;
  uploads_base : str;
  video_key : str;
  record_key : str
}.

Definition upload_video_names (upload_id : str) (filename : option str) (folder : str)
    : upload_names :=
  let original_name := safe_filename (Some (or_else filename (lit "video.mp4"))) in
  let folder_prefix := rstrip (among (lit "/")) (safe_prefix (Some folder)) in
  let uploads_base :=
    match folder_prefix with
    | [] => UPLOADS_PREFIX
    | _ => UPLOADS_PREFIX ++ lit "/" ++ folder_prefix
    end in
  {| original_name := original_name;
     folder_prefix := folder_prefix;
     uploads_base := uploads_base;
     video_key := uploads_base ++ lit "/" ++ upload_id ++ lit "_" ++ original_name;
     record_key := RECORDS_PREFIX ++ lit "/" ++ upload_id ++ lit ".json" |}.

(** The validation of the buffered file in [upload_video], lines 396-418:
    what [validate_video_file] returns, or the record built when it
    raises. *)
Definition upload_video_validation (env : environment) (tmp_path : string)
    (DEFAULT_SAMPLE_RATE : Z) : ValidationPipelineOutput.t :=
  match validate_video_file env tmp_path DEFAULT_SAMPLE_RATE 0 None false None with
  | Ok validation => validation
  | Raise e =>
      {| ValidationPipelineOutput.passed := false;
         ValidationPipelineOutput.status := "bad";
         ValidationPipelineOutput.analyze_success := false;
         ValidationPipelineOutput.validate_success := false;
         ValidationPipelineOutput.message := "Validator crashed: " +:+ exn_text e;
         ValidationPipelineOutput.analyze_message := "";
         ValidationPipelineOutput.validate_message := "";
         ValidationPipelineOutput.issues := ["Validator exception: " +:+ exn_text e];
         ValidationPipelineOutput.details := ∅;
         ValidationPipelineOutput.stats := ∅;
         ValidationPipelineOutput.summary := "";
         ValidationPipelineOutput.video_path := tmp_path;
         ValidationPipelineOutput.created_at := utc_now env |}
  end.

(** [passed] and [status] as [upload_video] stores them, lines 420-421. *)
Definition upload_video_status (env : environment) (tmp_path : string)
    (DEFAULT_SAMPLE_RATE : Z) : bool * string :=
  let validation := upload_video_validation env tmp_path DEFAULT_SAMPLE_RATE in
  let passed := ValidationPipelineOutput.passed validation in
  let status := if passed then "good" else "bad" in
  (passed, status).

(** A segment of a key: not empty, of characters of the file-name class,
    and neither [.] nor [..]. *)
Definition safe_segment (seg : str) : Prop :=
  seg <> [] /\ Forall (fun c => filename_char c = true) seg /\
  seg <> lit "." /\ seg <> lit "..".

(** What the loop of [safe_prefix] does with one piece: the segment it
    appends, if any. *)
Definition kept (seg : str) : option str :=
  match strip seg with
  | [] => None
  | seg' => if bool_decide (seg' ∈ [lit "."; lit ".."]) then None else Some seg'
  end.

End App.

Import Py Cv2 Validator Spec.
Import Trace.

(** ** The model on the scenarios of the specification *)

Section Scenarios.

(** 100 frames of which 12 are blurry: one issue, with the percentage
    printed to one decimal. *)
Example twelve_in_hundred_fails :
  match validate_quality twelve_in_hundred with
  | Ok (true, _, Some vr) =>
      ValidationResult.stats vr !! "blurry_pct" = Some (float_const 12) /\
      ValidationResult.issues vr
        = ["Clarity: 12.0% of frames are blurry (threshold: 10.0%)"] /\
      ValidationResult.passed vr = false
  | _ => False
  end.
Proof. vm_compute. auto. Qed.

(** A capture that is not opened. *)
Example unopened_capture_is_terminal :
  run empty_environment {| video_path := "clip.mp4" |} 30 0 None false None
  = Ok (terminal false "Unable to open video file." "Unable to open video file." ""
          "clip.mp4" (utc_now empty_environment)).
Proof. reflexivity. Qed.

(** Every frame of [sample_capture]: frame 2 does not convert and is
    reported on the standard output, the other four are analyzed; frame 1 is
    blurry, under-exposed and of low contrast. *)
Example sample_capture_every_frame :
  let a := analyze_video_quality sample_capture 1 0 None (Some (fun _ _ => None)) in
  let d := (returned a).2 in
  (returned a).1.1 = true /\
  d !! "num_images" = Some (PyInt 4) /\
  d !! "blurry" = Some (PyInt 1) /\
  d !! "under_exposed" = Some (PyInt 1) /\
  d !! "over_exposed" = Some (PyInt 0) /\
  d !! "low_contrast" = Some (PyInt 1) /\
  callback_calls a = [(1, 5); (2, 5); (3, 5); (4, 5)] /\
  printed a = ["  ⚠️ Failed to analyze frame 2: cv2.error"].
Proof. vm_compute. repeat split. Qed.

(** Frames 1 to 3 with a stride of 2: frames 1 and 3 are selected. *)
Example sample_capture_stride_two :
  let a := analyze_video_quality sample_capture 2 1 (Some 4) None in
  (returned a).1.2
  = "Quality analysis completed." +:+ nl +:+ nl
    +:+ "Analyzed 2/3 frames (range: 1-4, sampling every 2 frames)" /\
  (returned a).2 !! "clarity" = Some (PyList [float_const 5; float_const 100]).
Proof. vm_compute. repeat split. Qed.

End Scenarios.

(** ** Binary64 quotients of integers *)

Section Digits.

Lemma digits2_pos_size p : digits2_pos p = Pos.size p.
Proof. induction p; simpl; congruence. Qed.

Lemma digits2_pos_upper p : Z.pos p < 2 ^ Z.pos (digits2_pos p).
Proof.
  rewrite digits2_pos_size.
  pose proof (Pos.size_gt p) as H.
  change 2 with (Z.pos 2). rewrite <- Pos2Z.inj_pow. lia.
Qed.

Lemma digits2_pos_lower p : 2 ^ Z.pos (digits2_pos p) <= 2 * Z.pos p.
Proof.
  rewrite digits2_pos_size.
  pose proof (Pos.size_le p) as H.
  change 2 with (Z.pos 2) at 1. rewrite <- Pos2Z.inj_pow. lia.
Qed.

Lemma Zdigits2_nonneg m : 0 <= Zdigits2 m.
Proof. destruct m; simpl; lia. Qed.

Lemma Zdigits2_value m : 0 <= m -> m < 2 ^ Zdigits2 m.
Proof.
  intros Hm. destruct m as [|p|p]; simpl; try lia. apply digits2_pos_upper.
Qed.

Lemma Zdigits2_bound m k : 0 <= m -> 0 <= k -> m < 2 ^ k -> Zdigits2 m <= k.
Proof.
  intros Hm Hk Hlt. destruct m as [|p|p]; simpl; try lia.
  pose proof (digits2_pos_lower p) as Hl.
  destruct (Z_le_gt_dec (Z.pos (digits2_pos p)) k) as [|Hgt]; [assumption|exfalso].
  assert (H : 2 ^ (k + 1) <= 2 ^ Z.pos (digits2_pos p)) by (apply Z.pow_le_mono_r; lia).
  rewrite Z.pow_add_r in H by lia. lia.
Qed.

Lemma Zdigits2_lower m k : 0 <= k -> 2 ^ k <= m -> k < Zdigits2 m.
Proof.
  intros Hk Hm.
  assert (0 < 2 ^ k) by (apply Z.pow_pos_nonneg; lia).
  pose proof (Zdigits2_value m ltac:(lia)) as Hv.
  pose proof (Zdigits2_nonneg m).
  destruct (Z_lt_le_dec k (Zdigits2 m)) as [|Hle]; [assumption|exfalso].
  assert (2 ^ Zdigits2 m <= 2 ^ k) by (apply Z.pow_le_mono_r; lia). lia.
Qed.

Lemma Zdigits2_succ m a : 0 <= m -> 0 <= a <= m + 1 -> Zdigits2 a <= Zdigits2 m + 1.
Proof.
  intros Hm Ha. pose proof (Zdigits2_nonneg m). pose proof (Zdigits2_value m Hm).
  apply Zdigits2_bound; [lia|lia|].
  rewrite Z.pow_add_r by lia. lia.
Qed.

(** The digits of [k * p] exceed those of [p] by the digits of [k], or by
    one less. *)
Lemma Zdigits2_scale k p j :
  0 <= j -> 2 ^ j <= Z.pos k < 2 ^ (j + 1) ->
  let d := Zdigits2 (Z.pos (k * p)) - Zdigits2 (Z.pos p) in d = j \/ d = j + 1.
Proof.
  intros Hj Hk.
  pose proof (Zdigits2_value (Z.pos p) ltac:(lia)) as Hup.
  pose proof (digits2_pos_lower p) as Hlo.
  change (Z.pos (digits2_pos p)) with (Zdigits2 (Z.pos p)) in Hlo.
  set (dp := Zdigits2 (Z.pos p)) in *.
  assert (Hdp : 1 <= dp) by (subst dp; simpl; lia).
  assert (Hhi : Zdigits2 (Z.pos (k * p)) <= dp + j + 1).
  { apply Zdigits2_bound; [lia|lia|].
    rewrite Pos2Z.inj_mul. replace (dp + j + 1) with ((j + 1) + dp) by lia.
    rewrite Z.pow_add_r by lia. nia. }
  assert (Hlow : dp - 1 + j < Zdigits2 (Z.pos (k * p))).
  { apply Zdigits2_lower; [lia|].
    rewrite Pos2Z.inj_mul. replace (dp - 1 + j) with (j + (dp - 1)) by lia.
    rewrite Z.pow_add_r by lia.
    assert (2 ^ (dp - 1) <= Z.pos p).
    { replace dp with (1 + (dp - 1)) in Hlo by lia.
      rewrite Z.pow_add_r in Hlo by lia. lia. }
    assert (0 < 2 ^ (dp - 1)) by (apply Z.pow_pos_nonneg; lia).
    nia. }
  cbv zeta. lia.
Qed.

End Digits.

Section Rounding.

Lemma shr_record_of_loc_m m l : shr_m (shr_record_of_loc m l) = m.
Proof. destruct l as [|[]]; reflexivity. Qed.

Lemma shr_1_m r : 0 <= shr_m r -> shr_m (shr_1 r) = shr_m r / 2.
Proof.
  destruct r as [m rb sb]; simpl. intros Hm.
  destruct m as [|[p|p|]|p]; cbn [shr_m]; try lia.
  - reflexivity.
  - rewrite Pos2Z.inj_xI. apply Z.div_unique with (r := 1); lia.
  - rewrite Pos2Z.inj_xO. apply Z.div_unique with (r := 0); lia.
  - reflexivity.
Qed.

Lemma shr_1_nonneg r : 0 <= shr_m r -> 0 <= shr_m (shr_1 r).
Proof. intros Hr. rewrite shr_1_m by assumption. apply Z.div_pos; lia. Qed.

(** Shifting right [p] times divides the mantissa by [2 ^ p]. *)
Lemma iter_pos_shr_1 p : forall r, 0 <= shr_m r ->
  shr_m (SpecFloat.iter_pos shr_1 p r) = shr_m r / 2 ^ Z.pos p.
Proof.
  induction p as [p IH|p IH|]; intros r Hr; cbn [SpecFloat.iter_pos].
  - assert (H1 := shr_1_nonneg r Hr).
    assert (H2 : 0 <= shr_m (SpecFloat.iter_pos shr_1 p (shr_1 r))).
    { rewrite IH by assumption. apply Z.div_pos; lia. }
    rewrite IH, IH, shr_1_m by assumption.
    rewrite !Z.div_div by lia. f_equal.
    replace (Z.pos p~1) with (1 + Z.pos p + Z.pos p) by lia.
    rewrite !Z.pow_add_r by lia. lia.
  - assert (H2 : 0 <= shr_m (SpecFloat.iter_pos shr_1 p r)).
    { rewrite IH by assumption. apply Z.div_pos; lia. }
    rewrite IH, IH by assumption.
    rewrite !Z.div_div by lia. f_equal.
    replace (Z.pos p~0) with (Z.pos p + Z.pos p) by lia.
    rewrite !Z.pow_add_r by lia. lia.
  - rewrite shr_1_m by assumption. reflexivity.
Qed.

(** [shr_fexp] keeps the mantissa non-negative, the exponent at most
    [emax - prec] and the magnitude below [2 ^ k]. *)
Lemma shr_fexp_bound m e l k :
  0 <= m -> e <= emax - prec -> Zdigits2 m + e <= k -> k <= emax ->
  let '(r, e') := shr_fexp prec emax m e l in
  0 <= shr_m r /\ e' <= emax - prec /\ Zdigits2 (shr_m r) + e' <= Z.max k e'.
Proof.
  intros Hm He Hd Hk. unfold shr_fexp, shr.
  destruct (fexp prec emax (Zdigits2 m + e) - e) as [|p|p] eqn:Hn.
  - rewrite shr_record_of_loc_m. lia.
  - rewrite iter_pos_shr_1, shr_record_of_loc_m by (rewrite shr_record_of_loc_m; lia).
    assert (Hpos : 0 < 2 ^ Z.pos p) by (apply Z.pow_pos_nonneg; lia).
    split; [apply Z.div_pos; lia|].
    unfold fexp, emin in Hn. unfold prec, emax in *. split; [lia|].
    pose proof (Zdigits2_nonneg m) as Hdn.
    pose proof (Zdigits2_value m Hm) as Hv.
    destruct (Z_le_gt_dec (Zdigits2 m) (Z.pos p)) as [Hle|Hgt].
    + rewrite Z.div_small; [simpl; lia|].
      split; [lia|]. eapply Z.lt_le_trans; [exact Hv|]. apply Z.pow_le_mono_r; lia.
    + assert (Zdigits2 (m / 2 ^ Z.pos p) <= Zdigits2 m - Z.pos p); [|lia].
      apply Zdigits2_bound; [apply Z.div_pos; lia|lia|].
      apply Z.div_lt_upper_bound; [lia|].
      rewrite <- Z.pow_add_r by lia.
      replace (Z.pos p + (Zdigits2 m - Z.pos p)) with (Zdigits2 m) by lia. exact Hv.
  - rewrite shr_record_of_loc_m. lia.
Qed.

Lemma round_nearest_even_bound m l :
  0 <= m -> 0 <= round_nearest_even m l <= m + 1.
Proof. destruct l as [|[]]; simpl; try destruct (Z.even m); lia. Qed.

(** Rounding a magnitude below [2 ^ (emax - 1)] does not overflow. *)
Lemma binary_round_aux_not_inf sx mx ex lx :
  0 <= mx -> ex <= emax - prec -> Zdigits2 mx + ex <= emax - 1 ->
  not_inf (binary_round_aux prec emax sx mx ex lx).
Proof.
  intros Hm He Hd. unfold binary_round_aux.
  pose proof (shr_fexp_bound mx ex lx (emax - 1) Hm He Hd ltac:(unfold emax; lia)) as H1.
  destruct (shr_fexp prec emax mx ex lx) as [r1 e1].
  destruct H1 as (Hr1 & He1 & Hd1).
  set (m2 := round_nearest_even (shr_m r1) (loc_of_shr_record r1)).
  pose proof (round_nearest_even_bound (shr_m r1) (loc_of_shr_record r1) Hr1) as Hm2.
  fold m2 in Hm2.
  pose proof (Zdigits2_succ (shr_m r1) m2 Hr1 Hm2) as Hd2.
  assert (Hk : Zdigits2 m2 + e1 <= emax) by (unfold prec, emax in *; lia).
  pose proof (shr_fexp_bound m2 e1 loc_Exact emax ltac:(lia) He1 Hk ltac:(lia)) as H2.
  destruct (shr_fexp prec emax m2 e1 loc_Exact) as [r2 e2].
  destruct H2 as (Hr2 & He2 & _).
  destruct (shr_m r2); try exact I.
  destruct (Z.leb e2 (emax - prec)) eqn:Hl; [exact I|].
  apply Z.leb_gt in Hl. lia.
Qed.

Lemma SFdiv_core_nonneg a b :
  0 < a -> 0 < b ->
  let '(q, e, _) := SFdiv_core_binary prec emax a 0 b 0 in
  0 <= q /\ e <= 0 /\ q = a * 2 ^ (- e) / b.
Proof.
  intros Ha Hb. unfold SFdiv_core_binary.
  set (e := Z.min _ _).
  assert (He : e <= 0) by (subst e; lia).
  replace (0 - 0 - e) with (- e) by lia.
  assert (Hm : match - e with Z.pos _ => Z.shiftl a (- e) | 0 => a | Z.neg _ => 0 end
               = a * 2 ^ (- e)).
  { destruct (- e) eqn:E; try lia.
    rewrite Z.shiftl_mul_pow2 by lia. reflexivity. }
  rewrite Hm.
  assert (Hp : 0 < 2 ^ (- e)) by (apply Z.pow_pos_nonneg; lia).
  assert (Hx : 0 < a * 2 ^ (- e)) by (apply Z.mul_pos_pos; lia).
  remember (a * 2 ^ (- e)) as x eqn:Ex. clear Hm.
  assert (Hq : fst (Z.div_eucl x b) = x / b) by reflexivity.
  destruct (Z.div_eucl x b) as [q r]. simpl in Hq. subst q.
  assert (0 <= x / b) by (apply Z.div_pos; lia).
  rewrite <- Ex. lia.
Qed.

(** The quotient of two integers is finite as soon as it is below
    [2 ^ 1023] in magnitude. *)
Lemma fdiv_exact_int_not_inf a b :
  Z.abs a < 2 ^ (emax - 1) * Z.abs b ->
  not_inf (fdiv (exact_int a) (exact_int b)).
Proof.
  intros Ha.
  assert (Hgen : forall sx sy pa pb, Z.pos pa < 2 ^ (emax - 1) * Z.pos pb ->
            not_inf (SFdiv prec emax (S754_finite sx pa 0) (S754_finite sy pb 0))).
  { intros sx sy pa pb Hpa. unfold SFdiv.
    pose proof (SFdiv_core_nonneg (Z.pos pa) (Z.pos pb) ltac:(lia) ltac:(lia)) as Hc.
    destruct (SFdiv_core_binary prec emax (Z.pos pa) 0 (Z.pos pb) 0) as [[q e] l].
    destruct Hc as (Hq & He & Hle).
    apply binary_round_aux_not_inf; [assumption|unfold prec, emax; lia|].
    assert (Zdigits2 q <= emax - 1 - e); [|lia].
    apply Zdigits2_bound; [assumption|unfold emax; lia|].
    subst q. apply Z.div_lt_upper_bound; [lia|].
    replace (emax - 1 - e) with ((emax - 1) + (- e)) by lia.
    rewrite Z.pow_add_r by (unfold emax; lia).
    assert (0 < 2 ^ (- e)) by (apply Z.pow_pos_nonneg; lia). nia. }
  unfold fdiv.
  destruct a as [|pa|pa], b as [|pb|pb]; try exact I; try apply Hgen; try lia.
  all: exfalso; revert Ha; simpl; lia.
Qed.

Lemma SFdiv_core_multiple k p :
  SFdiv_core_binary prec emax (Z.pos (k * p)) 0 (Z.pos p) 0 =
  let e := Z.min (fexp prec emax (Zdigits2 (Z.pos (k * p)) - Zdigits2 (Z.pos p))) 0 in
  (Z.pos k * 2 ^ (- e), e, loc_Exact).
Proof.
  unfold SFdiv_core_binary.
  replace (Zdigits2 (Z.pos (k * p)) + 0 - (Zdigits2 (Z.pos p) + 0))
    with (Zdigits2 (Z.pos (k * p)) - Zdigits2 (Z.pos p)) by lia.
  change (0 - 0) with 0.
  set (e := Z.min _ 0). cbv zeta.
  assert (He : e <= 0) by (subst e; lia).
  replace (0 - e) with (- e) by lia.
  assert (Hm : match - e with Z.pos _ => Z.shiftl (Z.pos (k * p)) (- e)
                            | 0 => Z.pos (k * p) | Z.neg _ => 0 end
               = Z.pos k * 2 ^ (- e) * Z.pos p).
  { destruct (- e) eqn:E; try lia.
    rewrite Z.shiftl_mul_pow2 by lia. lia. }
  rewrite Hm.
  assert (Hp : 0 < 2 ^ (- e)) by (apply Z.pow_pos_nonneg; lia).
  remember (Z.pos k * 2 ^ (- e)) as x eqn:Ex.
  assert (Hq : fst (Z.div_eucl (x * Z.pos p) (Z.pos p)) = x * Z.pos p / Z.pos p) by reflexivity.
  assert (Hr : snd (Z.div_eucl (x * Z.pos p) (Z.pos p)) = (x * Z.pos p) mod Z.pos p) by reflexivity.
  rewrite Z.div_mul in Hq by lia. rewrite Z.mod_mul in Hr by lia.
  destruct (Z.div_eucl (x * Z.pos p) (Z.pos p)) as [q r]. simpl in Hq, Hr. subst q r.
  unfold new_location. destruct (Z.even (Z.pos p)); reflexivity.
Qed.

(** [n / n] is [1.0]. *)
Lemma fdiv_same n : 0 < n ->
  fdiv (exact_int n) (exact_int n) = float_const 1.
Proof.
  intros Hn. destruct n as [|p|p]; try lia. unfold fdiv. cbn [exact_int SFdiv].
  replace p with (1 * p)%positive at 1 by lia.
  rewrite SFdiv_core_multiple. cbv zeta.
  destruct (Zdigits2_scale 1 p 0 ltac:(lia) ltac:(lia)) as [->| ->]; reflexivity.
Qed.

(** [100 * n / n] is [100.0]. *)
Lemma fdiv_hundredfold n : 0 < n ->
  fdiv (exact_int (100 * n)) (exact_int n) = float_const 100.
Proof.
  intros Hn. destruct n as [|p|p]; try lia.
  change (100 * Z.pos p) with (Z.pos (100 * p)). unfold fdiv. cbn [exact_int SFdiv].
  rewrite SFdiv_core_multiple. cbv zeta.
  destruct (Zdigits2_scale 100 p 6 ltac:(lia) ltac:(lia)) as [->| ->]; reflexivity.
Qed.

End Rounding.

(** ** [validate_quality] *)

Section Validation.

Lemma is_inf_not_inf x : not_inf x -> is_inf x = false.
Proof. destruct x; simpl; intros H; try reflexivity. destruct H. Qed.

Lemma in_range_quotient c n : in_range c -> n <> 0 ->
  Z.abs (100 * c) < 2 ^ (emax - 1) * Z.abs n.
Proof.
  unfold in_range, emax. intros Hc Hn.
  change (1024 - 1) with (23 + 1000). rewrite Z.pow_add_r by lia.
  assert (0 < 2 ^ 1000) by (apply Z.pow_pos_nonneg; lia).
  assert (128 <= 2 ^ 23) by (change (2 ^ 23) with 8388608; lia).
  rewrite Z.abs_mul. change (Z.abs 100) with 100. nia.
Qed.

Lemma percentage_int c n :
  n <> 0 -> Z.abs (100 * c) < 2 ^ (emax - 1) * Z.abs n ->
  percentage (PyInt c) (PyInt n) = Ok (pct c n).
Proof.
  intros Hn Hc. unfold percentage, py_int_mul. cbn [mbind result_bind py_truediv].
  unfold int_truediv. apply Z.eqb_neq in Hn. rewrite Hn.
  rewrite is_inf_not_inf by (apply fdiv_exact_int_not_inf; exact Hc). reflexivity.
Qed.

Lemma reads_missing (stats : gmap string pyval) key : stats !! key = None -> reads stats key 0.
Proof. unfold reads, get. intros ->. reflexivity. Qed.

Lemma reads_present (stats : gmap string pyval) key c :
  stats !! key = Some (PyInt c) -> reads stats key c.
Proof. unfold reads, get. intros ->. reflexivity. Qed.

Lemma validate_quality_no_data stats :
  reads stats "num_images" 0 ->
  validate_quality stats = Ok (false, "No image data available for validation.", None).
Proof. unfold reads, validate_quality. intros ->. reflexivity. Qed.

(** On integer counters the validator returns the verdict on the four
    quotients. *)
Lemma validate_quality_ints stats n b u o l :
  reads stats "num_images" n -> n <> 0 ->
  reads stats "blurry" b -> reads stats "under_exposed" u ->
  reads stats "over_exposed" o -> reads stats "low_contrast" l ->
  Z.abs (100 * b) < 2 ^ (emax - 1) * Z.abs n ->
  Z.abs (100 * u) < 2 ^ (emax - 1) * Z.abs n ->
  Z.abs (100 * o) < 2 ^ (emax - 1) * Z.abs n ->
  Z.abs (100 * l) < 2 ^ (emax - 1) * Z.abs n ->
  validate_quality stats = Ok (judge (pct b n) (pct u n) (pct o n) (pct l n)).
Proof.
  unfold reads, validate_quality. intros -> Hn -> -> -> -> Hb Hu Ho Hl.
  cbn [py_eq_zero]. apply Z.eqb_neq in Hn as Hn'. rewrite Hn'.
  rewrite !percentage_int by assumption. reflexivity.
Qed.

Lemma judge_verdict b u o l :
  exists msg vr,
    judge b u o l = (true, msg, Some vr) /\
    ValidationResult.issues vr = raised b (fadd u o) l /\
    ValidationResult.passed vr = is_empty (raised b (fadd u o) l) /\
    ValidationResult.stats vr = percentages b (fadd u o) u o l.
Proof.
  unfold judge, raised, check_contrast, check_exposure, check_clarity, report.
  destruct (fgt b MAX_BLURRY_PCT), (fgt (fadd u o) MAX_EXPOSURE_PCT),
    (fgt l MAX_LOW_CONTRAST_PCT); cbn [app]; eauto 10.
Qed.

Lemma is_empty_nil (issues : list string) : is_empty issues = true <-> issues = [].
Proof.
  unfold is_empty. destruct issues; simpl; [tauto|]. split; [lia|discriminate].
Qed.

Lemma clarity_not_exposure x y : clarity_issue x <> exposure_issue y.
Proof. unfold clarity_issue, exposure_issue. simpl. discriminate. Qed.

Lemma clarity_not_contrast x y : clarity_issue x <> contrast_issue y.
Proof. unfold clarity_issue, contrast_issue. simpl. discriminate. Qed.

Lemma exposure_not_contrast x y : exposure_issue x <> contrast_issue y.
Proof. unfold exposure_issue, contrast_issue. simpl. discriminate. Qed.

Lemma raised_clarity b e l :
  clarity_issue b ∈ raised b e l <-> fgt b MAX_BLURRY_PCT = true.
Proof.
  unfold raised.
  pose proof (clarity_not_exposure b e). pose proof (clarity_not_contrast b l).
  destruct (fgt b MAX_BLURRY_PCT), (fgt e MAX_EXPOSURE_PCT), (fgt l MAX_LOW_CONTRAST_PCT);
    cbn [app]; rewrite ?elem_of_cons, ?elem_of_nil; intuition congruence.
Qed.

Lemma raised_exposure b e l :
  exposure_issue e ∈ raised b e l <-> fgt e MAX_EXPOSURE_PCT = true.
Proof.
  unfold raised.
  pose proof (clarity_not_exposure b e). pose proof (exposure_not_contrast e l).
  destruct (fgt b MAX_BLURRY_PCT), (fgt e MAX_EXPOSURE_PCT), (fgt l MAX_LOW_CONTRAST_PCT);
    cbn [app]; rewrite ?elem_of_cons, ?elem_of_nil; intuition congruence.
Qed.

Lemma raised_contrast b e l :
  contrast_issue l ∈ raised b e l <-> fgt l MAX_LOW_CONTRAST_PCT = true.
Proof.
  unfold raised.
  pose proof (clarity_not_contrast b l). pose proof (exposure_not_contrast e l).
  destruct (fgt b MAX_BLURRY_PCT), (fgt e MAX_EXPOSURE_PCT), (fgt l MAX_LOW_CONTRAST_PCT);
    cbn [app]; rewrite ?elem_of_cons, ?elem_of_nil; intuition congruence.
Qed.

Lemma raised_only b e l issue :
  issue ∈ raised b e l ->
  issue = clarity_issue b \/ issue = exposure_issue e \/ issue = contrast_issue l.
Proof.
  unfold raised.
  destruct (fgt b MAX_BLURRY_PCT), (fgt e MAX_EXPOSURE_PCT), (fgt l MAX_LOW_CONTRAST_PCT);
    cbn [app]; rewrite ?elem_of_cons, ?elem_of_nil; intuition congruence.
Qed.

(** A float equal to the threshold is not greater than it. *)
Lemma at_threshold_not_above x :
  feq x (float_const 10) = true -> fgt x (float_const 10) = false.
Proof.
  unfold feq, fgt, SFeqb, SFltb.
  change (float_const 10) with (S754_finite false 5629499534213120 (-49)).
  destruct x as [s|s| |s m e]; try (destruct s; discriminate); try discriminate.
  destruct s; [discriminate|]. cbn [SFcompare].
  destruct (Z.compare_spec e (-49)) as [->| |]; try discriminate.
  destruct (Pos.compare_cont Eq m 5629499534213120) eqn:Hm; try discriminate.
  apply Pos.compare_eq in Hm. subst m. reflexivity.
Qed.

(** The verdict on integer counters, with its issues and percentages. *)
Lemma validate_quality_verdict stats n b u o l :
  reads stats "num_images" n -> n <> 0 ->
  reads stats "blurry" b -> reads stats "under_exposed" u ->
  reads stats "over_exposed" o -> reads stats "low_contrast" l ->
  in_range b -> in_range u -> in_range o -> in_range l ->
  exists msg vr,
    validate_quality stats = Ok (true, msg, Some vr) /\
    ValidationResult.issues vr = raised (pct b n) (fadd (pct u n) (pct o n)) (pct l n) /\
    ValidationResult.passed vr
      = is_empty (raised (pct b n) (fadd (pct u n) (pct o n)) (pct l n)) /\
    ValidationResult.stats vr
      = percentages (pct b n) (fadd (pct u n) (pct o n)) (pct u n) (pct o n) (pct l n).
Proof.
  intros Hn Hn0 Hb Hu Ho Hl Rb Ru Ro Rl.
  rewrite (validate_quality_ints stats n b u o l)
    by (try assumption; apply in_range_quotient; assumption).
  destruct (judge_verdict (pct b n) (pct u n) (pct o n) (pct l n))
    as (msg & vr & -> & H1 & H2 & H3).
  eauto 10.
Qed.

End Validation.

(** Whatever [validate_quality] returns with success is a verdict on four
    percentages. *)
Lemma validate_quality_judged (stats : gmap string pyval) msg vr :
  validate_quality stats = Ok (true, msg, Some vr) ->
  exists b u o l, judge b u o l = (true, msg, Some vr).
Proof.
  unfold validate_quality. destruct (py_eq_zero _); [discriminate|].
  destruct (percentage (get "blurry" stats) _) as [b|]; [|discriminate].
  destruct (percentage (get "under_exposed" stats) _) as [u|]; [|discriminate].
  destruct (percentage (get "over_exposed" stats) _) as [o|]; [|discriminate].
  destruct (percentage (get "low_contrast" stats) _) as [l|]; [|discriminate].
  cbn [mbind result_bind]. intros [= H]. eauto.
Qed.

(** C2. On integer counters with [num_images > 0], [validate_quality]
    returns a result whose percentages are the quotients
    [100 * count / num_images] of the counters it was given, and whose
    issues are those of the checks whose percentage is strictly greater than
    the threshold 10.0, in the order of the checks: the issue of a check is
    raised exactly when its percentage is above 10.0, and the validation
    passes exactly when none of the three is. Every result
    [validate_quality] returns lists the issue of a check exactly when the
    percentage it reports for that check is above 10.0, lists nothing else,
    and passes exactly when it lists nothing. A percentage equal to 10.0
    raises nothing: with 50 frames, 3 under-exposed and 2 over-exposed the
    exposure percentage is 10.0 and the validation passes, while with 12
    blurry frames of 100 the clarity issue is raised and the validation
    fails. *)
Theorem C2_issue_iff_strictly_above_threshold :
  (forall (stats : gmap string pyval) n b u o l,
     reads stats "num_images" n -> 0 < n ->
     reads stats "blurry" b -> reads stats "under_exposed" u ->
     reads stats "over_exposed" o -> reads stats "low_contrast" l ->
     in_range b -> in_range u -> in_range o -> in_range l ->
     let blurry_pct := pct b n in
     let exposure_pct := fadd (pct u n) (pct o n) in
     let low_contrast_pct := pct l n in
     exists msg vr,
       validate_quality stats = Ok (true, msg, Some vr) /\
       ValidationResult.stats vr !! "blurry_pct" = Some blurry_pct /\
       ValidationResult.stats vr !! "exposure_pct" = Some exposure_pct /\
       ValidationResult.stats vr !! "low_contrast_pct" = Some low_contrast_pct /\
       ValidationResult.issues vr
         = (if fgt blurry_pct MAX_BLURRY_PCT then [clarity_issue blurry_pct] else [])
           ++ (if fgt exposure_pct MAX_EXPOSURE_PCT then [exposure_issue exposure_pct] else [])
           ++ (if fgt low_contrast_pct MAX_LOW_CONTRAST_PCT
               then [contrast_issue low_contrast_pct] else []) /\
       (clarity_issue blurry_pct ∈ ValidationResult.issues vr
          <-> fgt blurry_pct MAX_BLURRY_PCT = true) /\
       (exposure_issue exposure_pct ∈ ValidationResult.issues vr
          <-> fgt exposure_pct MAX_EXPOSURE_PCT = true) /\
       (contrast_issue low_contrast_pct ∈ ValidationResult.issues vr
          <-> fgt low_contrast_pct MAX_LOW_CONTRAST_PCT = true) /\
       (ValidationResult.passed vr = true <-> ValidationResult.issues vr = []) /\
       (ValidationResult.passed vr = true
          <-> fgt blurry_pct MAX_BLURRY_PCT = false /\
              fgt exposure_pct MAX_EXPOSURE_PCT = false /\
              fgt low_contrast_pct MAX_LOW_CONTRAST_PCT = false)) /\
  (forall (stats : gmap string pyval) msg vr,
     validate_quality stats = Ok (true, msg, Some vr) ->
     exists blurry_pct exposure_pct low_contrast_pct,
       ValidationResult.stats vr !! "blurry_pct" = Some blurry_pct /\
       ValidationResult.stats vr !! "exposure_pct" = Some exposure_pct /\
       ValidationResult.stats vr !! "low_contrast_pct" = Some low_contrast_pct /\
       (clarity_issue blurry_pct ∈ ValidationResult.issues vr
          <-> fgt blurry_pct MAX_BLURRY_PCT = true) /\
       (exposure_issue exposure_pct ∈ ValidationResult.issues vr
          <-> fgt exposure_pct MAX_EXPOSURE_PCT = true) /\
       (contrast_issue low_contrast_pct ∈ ValidationResult.issues vr
          <-> fgt low_contrast_pct MAX_LOW_CONTRAST_PCT = true) /\
       (forall issue, issue ∈ ValidationResult.issues vr ->
          issue = clarity_issue blurry_pct \/ issue = exposure_issue exposure_pct
          \/ issue = contrast_issue low_contrast_pct) /\
       (ValidationResult.passed vr = true <-> ValidationResult.issues vr = [])) /\
  (forall x, feq x (float_const 10) = true ->
     fgt x MAX_BLURRY_PCT = false /\ fgt x MAX_EXPOSURE_PCT = false
     /\ fgt x MAX_LOW_CONTRAST_PCT = false) /\
  match validate_quality boundary_scenario with
  | Ok (true, _, Some vr) =>
      ValidationResult.stats vr !! "exposure_pct" = Some (float_const 10) /\
      ValidationResult.issues vr = [] /\
      ValidationResult.passed vr = true
  | _ => False
  end /\
  match validate_quality twelve_in_hundred with
  | Ok (true, _, Some vr) =>
      ValidationResult.stats vr !! "blurry_pct" = Some (float_const 12) /\
      ValidationResult.issues vr = [clarity_issue (float_const 12)] /\
      ValidationResult.passed vr = false
  | _ => False
  end.
Proof.
  split; [|split; [|split; [|split]]].
  - intros stats n b u o l Hn Hpos Hb Hu Ho Hl Rb Ru Ro Rl. cbv zeta.
    destruct (validate_quality_verdict stats n b u o l) as (msg & vr & Hv & Hi & Hp & Hs);
      try assumption; [lia|].
    exists msg, vr. split; [exact Hv|]. rewrite Hi, Hp, Hs. unfold percentages.
    do 3 (split; [by simplify_map_eq|]).
    split; [reflexivity|].
    split; [apply raised_clarity|]. split; [apply raised_exposure|].
    split; [apply raised_contrast|]. split; [apply is_empty_nil|].
    rewrite is_empty_nil. unfold raised.
    destruct (fgt (pct b n) MAX_BLURRY_PCT),
      (fgt (fadd (pct u n) (pct o n)) MAX_EXPOSURE_PCT),
      (fgt (pct l n) MAX_LOW_CONTRAST_PCT); cbn [app];
      (split; [intros H; try discriminate H; auto|intros (H1 & H2 & H3); congruence]).
  - intros stats msg vr Hv.
    destruct (validate_quality_judged stats msg vr Hv) as (b & u & o & l & Hj).
    destruct (judge_verdict b u o l) as (msg' & vr' & Hj' & Hi & Hp & Hs).
    rewrite Hj in Hj'. injection Hj' as _ <-.
    exists b, (fadd u o), l. rewrite Hi, Hp, Hs. unfold percentages.
    do 3 (split; [by simplify_map_eq|]).
    split; [apply raised_clarity|]. split; [apply raised_exposure|].
    split; [apply raised_contrast|]. split; [apply raised_only|apply is_empty_nil].
  - intros x Hx. unfold MAX_BLURRY_PCT, MAX_EXPOSURE_PCT, MAX_LOW_CONTRAST_PCT.
    rewrite at_threshold_not_above by exact Hx. auto.
  - vm_compute. auto.
  - vm_compute. auto.
Qed.

Lemma C2_boundary_witness :
  exists msg vr,
    validate_quality twelve_in_hundred = Ok (true, msg, Some vr) /\
    (clarity_issue (pct 12 100) ∈ ValidationResult.issues vr
       <-> fgt (pct 12 100) MAX_BLURRY_PCT = true) /\
    (ValidationResult.passed vr = true <-> ValidationResult.issues vr = []).
Proof.
  destruct (proj1 C2_issue_iff_strictly_above_threshold twelve_in_hundred 100 12 0 0 0)
    as (msg & vr & Hv & _ & _ & _ & _ & Hc & _ & _ & Hp & _);
    try reflexivity; try (vm_compute; reflexivity).
  exists msg, vr. split; [exact Hv|]. split; [exact Hc|exact Hp].
Defined.

(** The sum of a percentage and its complement at the two ends of the
    range. *)
Lemma complement_at_ends b n :
  0 < n -> b = 0 \/ b = n ->
  exists c, complement_pct b n = Ok c /\ fadd (pct b n) c = float_const 100.
Proof.
  intros Hn [-> | ->]; unfold complement_pct, pct, int_truediv.
  - replace (n - 0) with n by lia.
    rewrite (proj2 (Z.eqb_neq n 0)) by lia.
    rewrite fdiv_same by exact Hn. destruct n; try lia.
    eexists. split; reflexivity.
  - replace (n - n) with 0 by lia.
    rewrite (proj2 (Z.eqb_neq n 0)) by lia.
    rewrite fdiv_hundredfold by exact Hn. destruct n; try lia.
    eexists. split; reflexivity.
Qed.

(** Up to a hundred frames the sum is within one unit in the last place of
    100.0. *)
Lemma complement_close_small b n :
  0 < n <= 100 -> 0 <= b <= n -> complement_close b n = true.
Proof.
  intros Hn Hb.
  assert (Hall : complement_close_upto 100 = true) by (vm_compute; reflexivity).
  unfold complement_close_upto in Hall. rewrite forallb_forall in Hall.
  specialize (Hall n). rewrite forallb_forall in Hall.
  apply Hall.
  - apply list_elem_of_In, elem_of_seqZ. lia.
  - apply list_elem_of_In, elem_of_seqZ. lia.
Qed.

(** C3, as amended. With [num_images > 0], [validate_quality] returns under
    the five percentage keys the binary64 quotients [100 * count /
    num_images] of the integer counters and, for the exposure, the float sum
    of the under- and over-exposed quotients. The sum
    [blurry_pct + (num_images - blurry) / num_images * 100] is exactly 100.0
    when [blurry] is 0 or [num_images]; for up to a hundred frames it is
    100.0 or one of the two floats next to it. *)
Theorem C3_percentages_scaled_by_100 :
  forall (stats : gmap string pyval) n b u o l,
    reads stats "num_images" n -> 0 < n ->
    reads stats "blurry" b -> reads stats "under_exposed" u ->
    reads stats "over_exposed" o -> reads stats "low_contrast" l ->
    in_range b -> in_range u -> in_range o -> in_range l ->
    exists msg vr,
      validate_quality stats = Ok (true, msg, Some vr) /\
      ValidationResult.stats vr !! "blurry_pct"
        = Some (fdiv (exact_int (100 * b)) (exact_int n)) /\
      ValidationResult.stats vr !! "under_exposed_pct"
        = Some (fdiv (exact_int (100 * u)) (exact_int n)) /\
      ValidationResult.stats vr !! "over_exposed_pct"
        = Some (fdiv (exact_int (100 * o)) (exact_int n)) /\
      ValidationResult.stats vr !! "low_contrast_pct"
        = Some (fdiv (exact_int (100 * l)) (exact_int n)) /\
      ValidationResult.stats vr !! "exposure_pct"
        = Some (fadd (fdiv (exact_int (100 * u)) (exact_int n))
                     (fdiv (exact_int (100 * o)) (exact_int n))) /\
      (b = 0 \/ b = n ->
       exists c, complement_pct b n = Ok c /\ fadd (pct b n) c = float_const 100) /\
      (n <= 100 -> 0 <= b <= n ->
       exists c, complement_pct b n = Ok c /\
         (fadd (pct b n) c = float_const 100 \/ fadd (pct b n) c = below_100
          \/ fadd (pct b n) c = above_100)).
Proof.
  intros stats n b u o l Hn Hpos Hb Hu Ho Hl Rb Ru Ro Rl.
  destruct (validate_quality_verdict stats n b u o l) as (msg & vr & Hv & _ & _ & Hs);
    try assumption; [lia|].
  exists msg, vr. split; [exact Hv|]. rewrite Hs. unfold percentages, pct.
  repeat (split; [by simplify_map_eq|]).
  split; [apply complement_at_ends; exact Hpos|].
  intros Hsmall Hrange.
  pose proof (complement_close_small b n ltac:(lia) Hrange) as Hc.
  unfold complement_close in Hc.
  destruct (complement_pct b n) as [c|]; [|discriminate].
  exists c. split; [reflexivity|]. fold (pct b n).
  apply orb_true_iff in Hc as [Hc|Hc]; [apply orb_true_iff in Hc as [Hc|Hc]|];
    apply bool_decide_eq_true in Hc; auto.
Qed.

Lemma C3_percentages_witness :
  exists msg vr,
    validate_quality one_in_six = Ok (true, msg, Some vr) /\
    ValidationResult.stats vr !! "blurry_pct"
      = Some (fdiv (exact_int (100 * 1)) (exact_int 6)).
Proof.
  destruct (C3_percentages_scaled_by_100 one_in_six 6 1 0 0 0)
    as (msg & vr & Hv & Hb & _);
    try reflexivity; try (vm_compute; reflexivity).
  exists msg, vr. split; [exact Hv|exact Hb].
Defined.

(** C3 as stated fails: with 6 analyzed frames of which 1 is blurry,
    [blurry_pct] is 16.666666666666668, the complement is 83.33333333333334
    and their float sum is 100.00000000000001, not 100. *)
Lemma C3_complement_is_not_100_at_1_of_6 :
  match validate_quality one_in_six, complement_pct 1 6 with
  | Ok (true, _, Some vr), Ok c =>
      ValidationResult.stats vr !! "blurry_pct" = Some (pct 1 6) /\
      fadd (pct 1 6) c = S754_finite false 7036874417766401 (-46) /\
      feq (fadd (pct 1 6) c) (float_const 100) = false
  | _, _ => False
  end.
Proof. vm_compute. split; [reflexivity|]. split; reflexivity. Qed.

(** C10. A counter key missing from the dictionary is read as 0: the
    validation succeeds, the percentage of that counter is 0.0 and the result
    is the one for the dictionary with the key set to 0; a missing
    [num_images] is read as 0 and gives the no-data failure. *)
Theorem C10_missing_keys_default_to_zero :
  (forall (stats : gmap string pyval) key n b u o l,
     key ∈ counter_keys -> stats !! key = None ->
     reads stats "num_images" n -> 0 < n ->
     reads stats "blurry" b -> reads stats "under_exposed" u ->
     reads stats "over_exposed" o -> reads stats "low_contrast" l ->
     in_range b -> in_range u -> in_range o -> in_range l ->
     reads stats key 0 /\
     validate_quality stats = validate_quality (<[key := PyInt 0]> stats) /\
     exists msg vr,
       validate_quality stats = Ok (true, msg, Some vr) /\
       ValidationResult.stats vr !! (key +:+ "_pct") = Some (S754_zero false)) /\
  (forall (stats : gmap string pyval),
     stats !! "num_images" = None ->
     reads stats "num_images" 0 /\
     validate_quality stats
       = Ok (false, "No image data available for validation.", None)).
Proof.
  split.
  - intros stats key n b u o l Hkey Hmiss Hn Hpos Hb Hu Ho Hl Rb Ru Ro Rl.
    pose proof (reads_missing stats key Hmiss) as H0.
    split; [exact H0|]. split.
    + unfold validate_quality, get.
      assert (Hg : forall k, default (PyInt 0) (<[key := PyInt 0]> stats !! k)
                             = default (PyInt 0) (stats !! k)).
      { intros k. destruct (decide (key = k)) as [<-|Hne].
        - rewrite lookup_insert_eq, Hmiss. reflexivity.
        - rewrite lookup_insert_ne by exact Hne. reflexivity. }
      rewrite !Hg. reflexivity.
    + destruct (validate_quality_verdict stats n b u o l) as (msg & vr & Hv & _ & _ & Hs);
        try assumption; [lia|].
      exists msg, vr. split; [exact Hv|]. rewrite Hs. unfold percentages, counter_keys in *.
      assert (Hz : pct 0 n = S754_zero false) by (destruct n; try lia; reflexivity).
      unfold reads in *.
      repeat (apply elem_of_cons in Hkey as [-> | Hkey]);
        [| | | |by apply elem_of_nil in Hkey].
      * rewrite H0 in Hb. injection Hb as <-. rewrite Hz. by simplify_map_eq.
      * rewrite H0 in Hu. injection Hu as <-. rewrite Hz. by simplify_map_eq.
      * rewrite H0 in Ho. injection Ho as <-. rewrite Hz. by simplify_map_eq.
      * rewrite H0 in Hl. injection Hl as <-. rewrite Hz. by simplify_map_eq.
  - intros stats Hmiss. pose proof (reads_missing stats _ Hmiss) as H0.
    split; [exact H0|]. apply validate_quality_no_data. exact H0.
Qed.

Lemma C10_missing_blurry_witness :
  exists msg vr,
    validate_quality (<["num_images" := PyInt 4]> ∅) = Ok (true, msg, Some vr) /\
    ValidationResult.stats vr !! "blurry_pct" = Some (S754_zero false).
Proof.
  destruct (proj1 C10_missing_keys_default_to_zero
              (<["num_images" := PyInt 4]> ∅) "blurry" 4 0 0 0 0)
    as (_ & _ & msg & vr & Hv & Hp);
    try reflexivity; try (vm_compute; reflexivity).
  - unfold counter_keys. apply elem_of_cons. left. reflexivity.
  - exists msg, vr. split; [exact Hv|exact Hp].
Defined.

(** ** The analysis of one frame *)

Section Frame.

Lemma stats_append_ok key x s l :
  stats s !! key = Some (PyList l) ->
  stats_append key x s = (with_stats (<[key := PyList (l ++ [x])]> (stats s)) s, Ok tt).
Proof. unfold stats_append. intros ->. reflexivity. Qed.

Lemma stats_incr_ok key s n :
  stats s !! key = Some (PyInt n) ->
  stats_incr key s = (with_stats (<[key := PyInt (n + 1)]> (stats s)) s, Ok tt).
Proof. unfold stats_incr. intros ->. reflexivity. Qed.

Lemma bind_ok {A B} (m : M A) (f : A -> M B) s s' a :
  m s = (s', Ok a) -> (m ≫= f) s = f a s'.
Proof. unfold mbind, M_bind. intros ->. reflexivity. Qed.

Lemma analyze_frame_raises cb T frame e s :
  cvtColor frame = Raise e -> analyze_frame cb T frame s = (s, Raise e).
Proof. unfold analyze_frame, mbind, M_bind, lift. intros ->. reflexivity. Qed.

(** One statement of the [try] block that updates the dictionary. *)
Ltac run_statement :=
  erewrite bind_ok;
  [|first [apply stats_append_ok | apply stats_incr_ok | reflexivity];
    cbn [stats with_stats]; simplify_map_eq; reflexivity].

(** Lines 164-168: the frame is counted and the callback, when there is
    one, is called with the new count. *)
Lemma count_and_report cb T s :
  exists s' r,
    (count_frame ≫= λ _, report_progress cb T) s = (s', r) /\
    stats s' = <["num_images" := PyInt (analyzed_count s + 1)]> (stats s) /\
    analyzed_count s' = analyzed_count s + 1 /\
    frame_idx s' = frame_idx s /\
    stdout s' = stdout s /\
    progress_calls s'
      = progress_calls s
        ++ match cb with Some _ => [(analyzed_count s + 1, T)] | None => [] end.
Proof.
  unfold mbind, M_bind, count_frame, report_progress.
  destruct cb as [f|]; cbn [analyzed_count with_stats with_analyzed_count].
  - destruct (f _ _); eexists _, _; (split; [reflexivity|]); repeat split.
  - eexists _, _. split; [reflexivity|]. rewrite app_nil_r. repeat split.
Qed.

(** A frame that converts is tallied: its three metrics are appended, the
    counters of the checks it fails and the frame count go up by one, and
    the callback, when there is one, is called with the new count. *)
Lemma analyze_frame_tallies cb T frame g s cl ex co n b u o l :
  cvtColor frame = Ok g ->
  tallies (stats s) cl ex co n b u o l -> analyzed_count s = n ->
  exists s' r,
    analyze_frame cb T frame s = (s', r) /\
    tallies (stats s') (cl ++ [laplacian_var g]) (ex ++ [mean g]) (co ++ [std g]) (n + 1)
      (b + bit (is_blurry g)) (u + bit (is_under_exposed g))
      (o + bit (is_over_exposed g)) (l + bit (is_low_contrast g)) /\
    analyzed_count s' = n + 1 /\
    frame_idx s' = frame_idx s /\
    stdout s' = stdout s /\
    progress_calls s'
      = progress_calls s ++ match cb with Some _ => [(n + 1, T)] | None => [] end.
Proof.
  intros Hg (Hcl & Hex & Hco & Hn & Hb & Hu & Ho & Hl) Hc.
  unfold analyze_frame.
  erewrite bind_ok by (unfold lift; rewrite Hg; reflexivity).
  unfold is_over_exposed, is_blurry, is_under_exposed, is_low_contrast.
  generalize (flt (laplacian_var g) (float_const MIN_CLARITY)) as blurry.
  generalize (flt (mean g) (float_const MIN_EXPOSURE)) as under.
  generalize (fgt (mean g) (float_const MAX_EXPOSURE)) as over.
  generalize (flt (std g) (float_const MIN_CONTRAST)) as low.
  intros low over under blurry.
  run_statement.
  destruct blurry; cbn [when]; run_statement; run_statement.
  all: destruct under; [|destruct over]; run_statement; run_statement.
  all: destruct low; cbn [when]; run_statement.
  all: match goal with
       | |- context [(count_frame ≫= _) ?s0] =>
           destruct (count_and_report cb T s0) as (s' & r & -> & Hs & Ha & Hi & Ho' & Hp)
       end;
    exists s', r; (split; [reflexivity|]);
    cbn [stats with_stats analyzed_count frame_idx stdout progress_calls] in *;
    rewrite Hs, Ha, Hi, Ho', Hp, Hc; cbn [bit negb andb]; rewrite ?Z.add_0_r;
    (split; [unfold tallies; simplify_map_eq; done|done]).
Qed.

End Frame.

(** C4. A frame that converts has the three checks applied to its own
    metrics and to nothing else: clarity below 20 counts it blurry; exposure
    below 60 counts it under-exposed, otherwise exposure above 200 counts it
    over-exposed, so that at most one of the two exposure counters moves;
    contrast below 25 counts it of low contrast. *)
Theorem C4_frame_classification :
  forall cb T frame g s clarity exposure contrast n b u o l,
    cvtColor frame = Ok g ->
    tallies (stats s) clarity exposure contrast n b u o l ->
    analyzed_count s = n ->
    let s' := fst (analyze_frame cb T frame s) in
    exists b' u' o' l',
      stats s' !! "blurry" = Some (PyInt b') /\
      stats s' !! "under_exposed" = Some (PyInt u') /\
      stats s' !! "over_exposed" = Some (PyInt o') /\
      stats s' !! "low_contrast" = Some (PyInt l') /\
      b' = b + (if flt (laplacian_var g) (float_const 20) then 1 else 0) /\
      u' = u + (if flt (mean g) (float_const 60) then 1 else 0) /\
      o' = o + (if flt (mean g) (float_const 60) then 0
                else if fgt (mean g) (float_const 200) then 1 else 0) /\
      l' = l + (if flt (std g) (float_const 25) then 1 else 0) /\
      0 <= (u' - u) + (o' - o) <= 1.
Proof.
  intros cb T frame g s cl ex co n b u o l Hg Ht Hc.
  destruct (analyze_frame_tallies cb T frame g s cl ex co n b u o l Hg Ht Hc)
    as (s' & r & -> & (_ & _ & _ & _ & Hb & Hu & Ho & Hl) & _).
  cbn [fst]. eexists _, _, _, _.
  split; [exact Hb|]. split; [exact Hu|]. split; [exact Ho|]. split; [exact Hl|].
  unfold is_over_exposed, is_blurry, is_under_exposed, is_low_contrast, bit,
    MIN_CLARITY, MIN_EXPOSURE, MAX_EXPOSURE, MIN_CONTRAST.
  destruct (flt (mean g) (float_const 60)), (fgt (mean g) (float_const 200));
    cbn [negb andb]; repeat split; try reflexivity; lia.
Qed.

Lemma C4_classification_witness :
  let frame := Image (Ok (Gray (float_const 10) (float_const 250) (float_const 30))) in
  let s := loop_entry 1 (float_const 30) 1 0 1 in
  let s' := fst (analyze_frame None 1 frame s) in
  exists b' u' o' l',
    stats s' !! "blurry" = Some (PyInt b') /\
    stats s' !! "under_exposed" = Some (PyInt u') /\
    stats s' !! "over_exposed" = Some (PyInt o') /\
    stats s' !! "low_contrast" = Some (PyInt l') /\
    b' = 1 /\ u' = 0 /\ o' = 1 /\ l' = 0.
Proof.
  intros frame s s'.
  destruct (C4_frame_classification None 1 frame
              (Gray (float_const 10) (float_const 250) (float_const 30)) s
              [] [] [] 0 0 0 0 0)
    as (b' & u' & o' & l' & Hb & Hu & Ho & Hl & Eb & Eu & Eo & El & _);
    [reflexivity|repeat split; reflexivity|reflexivity|].
  exists b', u', o', l'. repeat split; assumption.
Defined.

(** ** The frame walk *)

Section Walk.

Lemma count_if_snoc p gs g : count_if p (gs ++ [g]) = count_if p gs + bit (p g).
Proof.
  unfold count_if, bit. rewrite filter_app, length_app.
  destruct (p g) eqn:E.
  - rewrite filter_cons_True by exact E. cbn [filter list_filter length]. lia.
  - rewrite filter_cons_False by (rewrite E; discriminate).
    cbn [filter list_filter length]. lia.
Qed.

Lemma count_if_bounds p gs : 0 <= count_if p gs <= Z.of_nat (length gs).
Proof. unfold count_if. pose proof (length_filter (fun g => p g = true) gs). lia. Qed.

Lemma exposure_counts_disjoint gs :
  count_if is_under_exposed gs + count_if is_over_exposed gs <= Z.of_nat (length gs).
Proof.
  induction gs as [|g gs IH] using rev_ind; [reflexivity|].
  rewrite !count_if_snoc, length_app. cbn [length].
  assert (bit (is_under_exposed g) + bit (is_over_exposed g) <= 1); [|lia].
  unfold is_over_exposed. destruct (is_under_exposed g), (fgt _ _); cbn [negb andb bit]; lia.
Qed.

Lemma records_snoc d gs g :
  tallies d ((laplacian_var <$> gs) ++ [laplacian_var g]) ((mean <$> gs) ++ [mean g])
    ((std <$> gs) ++ [std g]) (Z.of_nat (length gs) + 1)
    (count_if is_blurry gs + bit (is_blurry g))
    (count_if is_under_exposed gs + bit (is_under_exposed g))
    (count_if is_over_exposed gs + bit (is_over_exposed g))
    (count_if is_low_contrast gs + bit (is_low_contrast g)) ->
  records d (gs ++ [g]).
Proof.
  unfold records. rewrite !fmap_app, !count_if_snoc, length_app. cbn [fmap list_fmap length].
  replace (Z.of_nat (length gs + 1)) with (Z.of_nat (length gs) + 1) by lia. trivial.
Qed.

Lemma seqZ_snoc m n : 0 <= n -> seqZ m (n + 1) = seqZ m n ++ [m + n].
Proof.
  intros Hn. rewrite seqZ_app by lia. reflexivity.
Qed.

Lemma analyzed_succ frames rate start first i :
  first <= i ->
  analyzed frames rate start first (i + 1)
  = analyzed frames rate start first i ++ option_list (gray_at frames rate start i).
Proof.
  intros Hi. unfold analyzed.
  replace (i + 1 - first) with (i - first + 1) by lia.
  rewrite seqZ_snoc by lia. rewrite omap_app. cbn [omap list_omap].
  replace (first + (i - first)) with i by lia.
  destruct (gray_at frames rate start i); reflexivity.
Qed.

Lemma progress_reports_succ k T :
  0 <= k -> progress_reports (k + 1) T = progress_reports k T ++ [(k + 1, T)].
Proof.
  intros Hk. unfold progress_reports.
  rewrite seqZ_snoc by lia.
  rewrite fmap_app. cbn [fmap list_fmap]. do 3 f_equal. lia.
Qed.

(** The [try] statement on a frame that converts. *)
Lemma try_converted cb T frame g s gs :
  cvtColor frame = Ok g ->
  records (stats s) gs -> analyzed_count s = Z.of_nat (length gs) ->
  let s' := fst (try_except (analyze_frame cb T frame) print_failure s) in
  records (stats s') (gs ++ [g]) /\
  analyzed_count s' = analyzed_count s + 1 /\
  frame_idx s' = frame_idx s /\
  progress_calls s'
    = progress_calls s
      ++ match cb with Some _ => [(analyzed_count s + 1, T)] | None => [] end.
Proof.
  intros Hg Hr Hc. unfold try_except.
  destruct (analyze_frame_tallies cb T frame g s _ _ _ _ _ _ _ _ Hg Hr Hc)
    as (s' & r & -> & Ht & Ha & Hi & _ & Hp).
  rewrite Hc.
  destruct r; cbn [fst print_failure stats analyzed_count frame_idx progress_calls with_stdout];
    (split; [apply records_snoc; exact Ht|auto]).
Qed.

(** The [try] statement on a frame whose conversion raises: one line is
    printed and nothing else changes. *)
Lemma try_unconverted cb T frame e s :
  cvtColor frame = Raise e ->
  let s' := fst (try_except (analyze_frame cb T frame) print_failure s) in
  stats s' = stats s /\ analyzed_count s' = analyzed_count s /\
  frame_idx s' = frame_idx s /\ progress_calls s' = progress_calls s /\
  stdout s' = stdout s ++ ["  ⚠️ Failed to analyze frame " +:+ str_int (frame_idx s)
                            +:+ ": " +:+ exn_text e].
Proof.
  intros He. unfold try_except. rewrite (analyze_frame_raises cb T frame e s He).
  repeat split.
Qed.

Lemma drop_head {A} (l cap : list A) x n :
  x :: cap = drop n l -> l !! n = Some x /\ cap = drop (n + 1) l.
Proof.
  intros H. split.
  - replace n with (n + 0)%nat by lia. rewrite <- lookup_drop, <- H. reflexivity.
  - rewrite <- drop_drop, <- H. reflexivity.
Qed.

Lemma drop_empty {A} (l : list A) n : [] = drop n l -> l !! n = None.
Proof.
  intros H. replace n with (n + 0)%nat by lia. rewrite <- lookup_drop, <- H. reflexivity.
Qed.

Lemma gray_at_unsampled frames rate start i :
  sampled rate start i = false -> gray_at frames rate start i = None.
Proof. unfold gray_at. intros ->. reflexivity. Qed.

Lemma gray_at_sampled frames rate start i frame :
  sampled rate start i = true -> frames !! Z.to_nat i = Some (Some frame) ->
  gray_at frames rate start i
  = match cvtColor frame with Ok g => Some g | Raise _ => None end.
Proof. unfold gray_at. intros -> ->. reflexivity. Qed.

(** Moving to the next frame index keeps the invariant, whatever was done
    with the frame just grabbed. *)
Lemma walk_inv_next frames cb rate start T first s s1 grabbed :
  walk_inv frames cb rate start T first s ->
  frames !! Z.to_nat (frame_idx s) = Some grabbed ->
  (sampled rate start (frame_idx s) = true -> is_Some grabbed) ->
  frame_idx s1 = frame_idx s ->
  records (stats s1) (analyzed frames rate start first (frame_idx s + 1)) ->
  analyzed_count s1
    = Z.of_nat (length (analyzed frames rate start first (frame_idx s + 1))) ->
  progress_calls s1
    = match cb with Some _ => progress_reports (analyzed_count s1) T | None => [] end ->
  walk_inv frames cb rate start T first (next_frame s1).
Proof.
  intros (Hf & _ & _ & _ & Hg) Hl Hs Hi Hr Ha Hp.
  unfold walk_inv, next_frame.
  cbn [frame_idx stats analyzed_count progress_calls with_frame_idx]. rewrite Hi.
  split; [lia|]. split; [exact Hr|]. split; [exact Ha|]. split; [exact Hp|].
  intros i Hrange. destruct (decide (i = frame_idx s)) as [->|Hne].
  - exists grabbed. split; assumption.
  - apply Hg. lia.
Qed.

(** The loop keeps the invariant, moves the index forward, never past the
    end of the range, and leaves the range early only where the capture
    signals the end of the stream. *)
Lemma frame_loop_inv frames cb rate start end_ T first :
  0 <= first ->
  forall cap s,
    cap = drop (Z.to_nat (frame_idx s)) frames ->
    walk_inv frames cb rate start T first s ->
    let s' := frame_loop cb rate start end_ T cap s in
    walk_inv frames cb rate start T first s' /\
    frame_idx s <= frame_idx s' /\
    frame_idx s' <= Z.max (frame_idx s) end_ /\
    (frame_idx s' < end_ -> stream_ends_at frames rate start (frame_idx s')).
Proof.
  intros Hfirst cap. induction cap as [|grabbed cap IH]; intros s Hcap Hinv; cbn [frame_loop].
  - destruct (end_ <=? frame_idx s) eqn:Hend.
    + apply Z.leb_le in Hend. split; [exact Hinv|]. repeat split; lia.
    + apply drop_empty in Hcap. split; [exact Hinv|]. repeat split; try lia.
      intros _. left. exact Hcap.
  - destruct (end_ <=? frame_idx s) eqn:Hend.
    { apply Z.leb_le in Hend. split; [exact Hinv|]. repeat split; lia. }
    apply Z.leb_gt in Hend.
    assert (Hidx : first <= frame_idx s) by apply Hinv.
    apply drop_head in Hcap as [Hl Hcap].
    replace (Z.to_nat (frame_idx s) + 1)%nat with (Z.to_nat (frame_idx s + 1)) in Hcap by lia.
    pose proof (analyzed_succ frames rate start first (frame_idx s) Hidx) as Hsucc.
    pose proof Hinv as (Hf & Hr & Ha & Hp & Hg).
    fold (sampled rate start (frame_idx s)).
    destruct (sampled rate start (frame_idx s)) eqn:Hs.
    + destruct grabbed as [frame|].
      * (* the frame is retrieved and analysed *)
        set (s1 := fst (try_except (analyze_frame cb T frame) print_failure s)).
        assert (Hnext : walk_inv frames cb rate start T first (next_frame s1)
                        /\ frame_idx s1 = frame_idx s).
        { rewrite (gray_at_sampled _ _ _ _ frame Hs Hl) in Hsucc.
          destruct (cvtColor frame) as [g|e] eqn:Hcv.
          - destruct (try_converted cb T frame g s _ Hcv Hr Ha) as (Hr1 & Ha1 & Hi1 & Hp1).
            fold s1 in Hr1, Ha1, Hi1, Hp1. split; [|exact Hi1].
            apply (walk_inv_next frames cb rate start T first s s1 (Some frame));
              try assumption; try (intros _; eauto).
            + rewrite Hsucc. exact Hr1.
            + rewrite Hsucc, Ha1, Ha, length_app. change (length (option_list (Some g))) with 1%nat. lia.
            + rewrite Hp1, Hp, Ha1. destruct cb; [|reflexivity].
              rewrite progress_reports_succ by lia. reflexivity.
          - destruct (try_unconverted cb T frame e s Hcv) as (Hr1 & Ha1 & Hi1 & Hp1 & _).
            fold s1 in Hr1, Ha1, Hi1, Hp1. split; [|exact Hi1].
            apply (walk_inv_next frames cb rate start T first s s1 (Some frame));
              try assumption; try (intros _; eauto).
            + rewrite Hsucc, app_nil_r, Hr1. exact Hr.
            + rewrite Hsucc, app_nil_r, Ha1. exact Ha.
            + rewrite Hp1, Ha1. exact Hp. }
        destruct Hnext as [Hnext Hi1].
        destruct (IH (next_frame s1)) as (H1 & H2 & H3 & H4).
        { cbn [next_frame frame_idx with_frame_idx]. rewrite Hi1. exact Hcap. }
        { exact Hnext. }
        cbn [next_frame frame_idx with_frame_idx] in H2, H3. rewrite Hi1 in H2, H3.
        split; [exact H1|]. split; [lia|]. split; [lia|exact H4].
      * (* retrieve fails *)
        split; [exact Hinv|]. repeat split; try lia.
        intros _. right. split; assumption.
    + (* the frame is stepped over *)
      rewrite (gray_at_unsampled _ _ _ _ Hs), app_nil_r in Hsucc.
      destruct (IH (next_frame s)) as (H1 & H2 & H3 & H4).
      { cbn [next_frame frame_idx with_frame_idx]. exact Hcap. }
      { apply (walk_inv_next frames cb rate start T first s s grabbed);
          try assumption; try reflexivity.
        - rewrite Hs. discriminate.
        - rewrite Hsucc. exact Hr.
        - rewrite Hsucc. exact Ha. }
      cbn [next_frame frame_idx with_frame_idx] in H2, H3.
      split; [exact H1|]. split; [lia|]. split; [lia|exact H4].
Qed.

End Walk.

(** ** The callback does not steer the analysis *)

Section Callback.

Lemma related_bind {A B} (m m0 : M A) (f f0 : A -> M B) :
  agree m m0 -> (forall a, related (f a) (f0 a)) -> related (m ≫= f) (m0 ≫= f0).
Proof.
  intros Hm Hf s s0 Hs. destruct (Hm s s0 Hs) as [Hst Hres].
  unfold mbind, M_bind.
  destruct (m s) as [s1 r1], (m0 s0) as [s2 r2]. cbn [fst snd] in *. subst r2.
  destruct r1 as [a|e]; [apply Hf; exact Hst|exact Hst].
Qed.

Lemma agree_lift {A} (r : result A) : agree (lift r) (lift r).
Proof. intros s s0 Hs. split; [exact Hs|reflexivity]. Qed.

Lemma agree_mret {A} (a : A) : agree (mret a : M A) (mret a).
Proof. intros s s0 Hs. split; [exact Hs|reflexivity]. Qed.

Lemma agree_stats_append key x : agree (stats_append key x) (stats_append key x).
Proof.
  intros s s0 (Hst & Ha & Hi). unfold stats_append. rewrite Hst.
  destruct (stats s0 !! key) as [[| |l]|]; repeat split; assumption || (cbn; congruence).
Qed.

Lemma agree_stats_incr key : agree (stats_incr key) (stats_incr key).
Proof.
  intros s s0 (Hst & Ha & Hi). unfold stats_incr. rewrite Hst.
  destruct (stats s0 !! key) as [[| |l]|]; repeat split; assumption || (cbn; congruence).
Qed.

Lemma agree_when b m : agree m m -> agree (when b m) (when b m).
Proof. intros Hm. destruct b; [exact Hm|apply agree_mret]. Qed.

Lemma agree_count_frame : agree count_frame count_frame.
Proof.
  intros s s0 (Hst & Ha & Hi). unfold count_frame.
  repeat split; cbn; congruence.
Qed.

Lemma related_report_progress cb cb0 T :
  related (report_progress cb T) (report_progress cb0 T).
Proof.
  intros s s0 (Hst & Ha & Hi). unfold report_progress.
  destruct cb as [f|], cb0 as [f0|];
    repeat match goal with |- context [match ?f ?a ?b with _ => _ end] =>
                             destruct (f a b) end;
    repeat split; assumption.
Qed.

(** The [try] block ends in states with the same analysis whatever the
    callback is and does. *)
Lemma related_analyze_frame cb cb0 T frame :
  related (analyze_frame cb T frame) (analyze_frame cb0 T frame).
Proof.
  unfold analyze_frame.
  apply related_bind; [apply agree_lift|intros gray].
  apply related_bind; [apply agree_stats_append|intros _].
  apply related_bind; [apply agree_when, agree_stats_incr|intros _].
  apply related_bind; [apply agree_stats_append|intros _].
  apply related_bind; [|intros _].
  { destruct (flt _ _); [apply agree_stats_incr|].
    destruct (fgt _ _); [apply agree_stats_incr|apply agree_mret]. }
  apply related_bind; [apply agree_stats_append|intros _].
  apply related_bind; [apply agree_when, agree_stats_incr|intros _].
  apply related_bind; [apply agree_count_frame|intros _].
  apply related_report_progress.
Qed.

Lemma related_try cb cb0 T frame :
  related (try_except (analyze_frame cb T frame) print_failure)
          (try_except (analyze_frame cb0 T frame) print_failure).
Proof.
  intros s s0 Hs. pose proof (related_analyze_frame cb cb0 T frame s s0 Hs) as H.
  unfold try_except.
  destruct (analyze_frame cb T frame s) as [s1 [|e1]],
           (analyze_frame cb0 T frame s0) as [s2 [|e2]]; exact H.
Qed.

Lemma frame_loop_related cb cb0 rate start end_ T cap :
  forall s s0, same_analysis s s0 ->
    same_analysis (frame_loop cb rate start end_ T cap s)
                  (frame_loop cb0 rate start end_ T cap s0).
Proof.
  induction cap as [|grabbed cap IH]; intros s s0 Hs; cbn [frame_loop];
    pose proof Hs as (Hst & Ha & Hi); rewrite Hi.
  - destruct (end_ <=? frame_idx s0); exact Hs.
  - destruct (end_ <=? frame_idx s0); [exact Hs|].
    destruct ((frame_idx s0 - start) mod rate =? 0).
    + destruct grabbed as [frame|]; [|exact Hs].
      apply IH. pose proof (related_try cb cb0 T frame s s0 Hs) as (H1 & H2 & H3).
      repeat split; cbn; congruence.
    + apply IH. repeat split; cbn; congruence.
Qed.

(** What the analysis returns does not depend on the callback. *)
Lemma returned_any_callback cap rate start end_frame cb cb0 :
  returned (analyze_video_quality cap rate start end_frame cb)
  = returned (analyze_video_quality cap rate start end_frame cb0).
Proof.
  unfold analyze_video_quality.
  destruct (negb (isOpened cap)); [reflexivity|].
  destruct (rate =? 0); [reflexivity|].
  match goal with
  | |- context [frame_loop cb ?r ?s ?e ?t ?c ?i] =>
      pose proof (frame_loop_related cb cb0 r s e t c i i
                    (conj eq_refl (conj eq_refl eq_refl))) as (Hst & Ha & Hi);
      rewrite Ha, Hst
  end.
  match goal with |- context [analyzed_count ?s =? 0] => destruct (analyzed_count s =? 0) end;
    reflexivity.
Qed.

End Callback.

(** ** [analyze_video_quality] *)

Section Analysis.

Lemma first_index_nonneg start : 0 <= first_index start.
Proof. unfold first_index. destruct (0 <? start) eqn:E; [apply Z.ltb_lt in E|]; lia. Qed.

Lemma first_index_start start : 0 <= start -> first_index start = start.
Proof. unfold first_index. destruct (0 <? start) eqn:E; [|apply Z.ltb_ge in E]; lia. Qed.

Lemma analyzed_empty frames rate start first : analyzed frames rate start first first = [].
Proof. unfold analyzed. rewrite seqZ_nil by lia. reflexivity. Qed.

Lemma records_initial total_frames fps rate total :
  records (initial_stats total_frames fps rate total) [].
Proof. unfold records, tallies, initial_stats. simplify_map_eq. repeat split. Qed.

Lemma entry_inv cap rate start T cb :
  walk_inv (stream cap) cb rate start T (first_index start)
    (loop_entry (frame_count cap) (fps cap) rate start T).
Proof.
  unfold walk_inv, loop_entry, first_index.
  cbn [frame_idx stats analyzed_count progress_calls].
  rewrite analyzed_empty. split; [lia|]. split; [apply records_initial|].
  split; [reflexivity|]. split; [destruct cb; reflexivity|]. intros i Hi. lia.
Qed.

Lemma entry_position cap rate start T :
  positioned start cap
  = drop (Z.to_nat (frame_idx (loop_entry (frame_count cap) (fps cap) rate start T)))
      (stream cap).
Proof.
  unfold positioned, loop_entry, seek. cbn [frame_idx].
  destruct (0 <? start); reflexivity.
Qed.

(** The state in which the loop is left. *)
Lemma final_state_inv cap rate start end_frame cb :
  let s := final_state cap rate start end_frame cb in
  let first := first_index start in
  let actual_end := clamp_end end_frame (frame_count cap) in
  walk_inv (stream cap) cb rate start (estimated_total cap rate start end_frame) first s /\
  first <= frame_idx s <= Z.max first actual_end /\
  (frame_idx s < actual_end -> stream_ends_at (stream cap) rate start (frame_idx s)).
Proof.
  cbv zeta. unfold final_state.
  destruct (frame_loop_inv (stream cap) cb rate start
              (clamp_end end_frame (frame_count cap))
              (estimated_total cap rate start end_frame) (first_index start)
              (first_index_nonneg start)
              (positioned start cap)
              (loop_entry (frame_count cap) (fps cap) rate start
                 (estimated_total cap rate start end_frame))
              (entry_position _ _ _ _) (entry_inv _ _ _ _ _))
    as (H1 & H2 & H3 & H4).
  change (frame_idx (loop_entry _ _ _ _ _)) with (first_index start) in *.
  split; [exact H1|]. split; [lia|exact H4].
Qed.

(** The three ways [analyze_video_quality] returns. *)
Lemma analyze_video_quality_cases cap rate start end_frame cb :
  analyze_video_quality cap rate start end_frame cb
  = if negb (isOpened cap) then
      {| returned := (false, "Unable to open video file.", ∅);
         callback_calls := []; printed := [] |}
    else if rate =? 0 then
      {| returned := (false, "Error occurred during analysis:" +:+ nl +:+ nl
                             +:+ "integer division or modulo by zero", ∅);
         callback_calls := []; printed := [] |}
    else
      let s := final_state cap rate start end_frame cb in
      if analyzed_count s =? 0 then
        {| returned := (false, "No frames were analyzed.", ∅);
           callback_calls := progress_calls s; printed := stdout s |}
      else
        {| returned := (true,
                        analysis_message (analyzed_count s) start
                          (clamp_end end_frame (frame_count cap)) rate,
                        stats s);
           callback_calls := progress_calls s; printed := stdout s |}.
Proof. reflexivity. Qed.

(** A successful analysis returns the dictionary of the final state,
    which records at least one frame. *)
Lemma analysis_success cap rate start end_frame cb msg d :
  returned (analyze_video_quality cap rate start end_frame cb) = (true, msg, d) ->
  let s := final_state cap rate start end_frame cb in
  isOpened cap = true /\ rate <> 0 /\ d = stats s /\ analyzed_count s <> 0.
Proof.
  rewrite analyze_video_quality_cases. cbv zeta.
  destruct (isOpened cap); cbn [negb]; [|discriminate].
  destruct (rate =? 0) eqn:Hr; [discriminate|].
  destruct (analyzed_count _ =? 0) eqn:Ha; [discriminate|].
  cbn [returned]. intros [= <- <-].
  apply Z.eqb_neq in Hr, Ha. auto.
Qed.

(** The counters of a dictionary that records [gs]. *)
Lemma records_bounds d gs :
  records d gs ->
  exists b u o l,
    tallies d (laplacian_var <$> gs) (mean <$> gs) (std <$> gs)
      (Z.of_nat (length gs)) b u o l /\
    0 <= b <= Z.of_nat (length gs) /\ 0 <= u /\ 0 <= o /\
    u + o <= Z.of_nat (length gs) /\ 0 <= l <= Z.of_nat (length gs).
Proof.
  intros Hr. eexists _, _, _, _. split; [exact Hr|].
  pose proof (count_if_bounds is_blurry gs).
  pose proof (count_if_bounds is_under_exposed gs).
  pose proof (count_if_bounds is_over_exposed gs).
  pose proof (count_if_bounds is_low_contrast gs).
  pose proof (exposure_counts_disjoint gs). lia.
Qed.

End Analysis.

(** C6. For a non-zero stride and a start index that is not negative, the
    walk moves the frame index from [start_frame] to a stopping index that is
    at most [min(end_frame, total_frames)] ([total_frames] when no end is
    given); every index before the stopping index was grabbed, and retrieved
    when the stride selects it; the walk stops before the end of the range
    only where the capture signals the end of the stream; and the three
    metric sequences hold the metrics of exactly the frames between the two
    indices that the stride selects (those whose conversion succeeds), in
    frame order. *)
Theorem C6_frames_walked_and_sampled :
  forall cap sample_rate start_frame end_frame cb,
    sample_rate <> 0 -> 0 <= start_frame ->
    let actual_end_frame :=
      match end_frame with
      | Some e => Z.min e (frame_count cap)
      | None => frame_count cap
      end in
    let s := final_state cap sample_rate start_frame end_frame cb in
    let stop := frame_idx s in
    let selected := analyzed (stream cap) sample_rate start_frame start_frame stop in
    start_frame <= stop <= Z.max start_frame actual_end_frame /\
    (forall i, start_frame <= i < stop ->
       exists grabbed, stream cap !! Z.to_nat i = Some grabbed /\
         ((i - start_frame) mod sample_rate = 0 -> is_Some grabbed)) /\
    (stop < actual_end_frame ->
       stream_ends_at (stream cap) sample_rate start_frame stop) /\
    stats s !! "clarity" = Some (PyList (laplacian_var <$> selected)) /\
    stats s !! "exposure" = Some (PyList (mean <$> selected)) /\
    stats s !! "contrast" = Some (PyList (std <$> selected)) /\
    stats s !! "num_images" = Some (PyInt (Z.of_nat (length selected))) /\
    (forall msg d,
       returned (analyze_video_quality cap sample_rate start_frame end_frame cb)
         = (true, msg, d) -> d = stats s).
Proof.
  intros cap rate start end_frame cb Hrate Hstart. cbv zeta.
  destruct (final_state_inv cap rate start end_frame cb) as (Hinv & Hrange & Hend).
  rewrite (first_index_start start Hstart) in *.
  destruct Hinv as (_ & Hrec & _ & _ & Hgrab).
  destruct Hrec as (Hcl & Hex & Hco & Hn & _).
  split; [exact Hrange|]. split.
  { intros i Hi. destruct (Hgrab i Hi) as (grabbed & Hl & Hs).
    exists grabbed. split; [exact Hl|]. intros Hmod. apply Hs.
    unfold sampled. apply Z.eqb_eq. exact Hmod. }
  split; [exact Hend|]. split; [exact Hcl|]. split; [exact Hex|].
  split; [exact Hco|]. split; [exact Hn|].
  intros msg d Hret. apply analysis_success in Hret. apply Hret.
Qed.

Lemma C6_sample_walk_witness :
  let s := final_state sample_capture 2 1 (Some 4) None in
  1 <= frame_idx s <= Z.max 1 (Z.min 4 (frame_count sample_capture)) /\
  stats s !! "num_images"
    = Some (PyInt (Z.of_nat (length (analyzed (stream sample_capture) 2 1 1 (frame_idx s))))).
Proof.
  destruct (C6_frames_walked_and_sampled sample_capture 2 1 (Some 4) None)
    as (Hr & _ & _ & _ & _ & _ & Hn & _); [lia|lia|].
  split; [exact Hr|exact Hn].
Defined.

(** C8. The dictionary a successful analysis returns holds counters
    [blurry], [under_exposed], [over_exposed] and [low_contrast] between 0
    and [num_images], and [num_images] is the length of each of the three
    metric sequences, whatever frames of the capture failed to convert. *)
Theorem C8_counters_within_num_images :
  forall cap sample_rate start_frame end_frame cb msg d,
    returned (analyze_video_quality cap sample_rate start_frame end_frame cb)
      = (true, msg, d) ->
    exists clarity exposure contrast n b u o l,
      tallies d clarity exposure contrast n b u o l /\
      0 <= b <= n /\ 0 <= u <= n /\ 0 <= o <= n /\ 0 <= l <= n /\
      n = Z.of_nat (length clarity) /\ n = Z.of_nat (length exposure) /\
      n = Z.of_nat (length contrast) /\ 0 < n.
Proof.
  intros cap rate start end_frame cb msg d Hret.
  apply analysis_success in Hret as (_ & _ & -> & Hcount).
  destruct (final_state_inv cap rate start end_frame cb) as ((_ & Hrec & Ha & _) & _).
  destruct (records_bounds _ _ Hrec) as (b & u & o & l & Ht & Hb & Hu & Ho & Huo & Hl).
  eexists _, _, _, _, b, u, o, l. split; [exact Ht|].
  rewrite !length_fmap. rewrite Ha in Hcount. repeat split; lia.
Qed.

Lemma C8_sample_witness :
  exists clarity exposure contrast n b u o l,
    tallies (returned (analyze_video_quality sample_capture 1 0 None None)).2
      clarity exposure contrast n b u o l /\
    0 <= b <= n /\ 0 <= u <= n /\ 0 <= o <= n /\ 0 <= l <= n /\
    n = Z.of_nat (length clarity) /\ n = Z.of_nat (length exposure) /\
    n = Z.of_nat (length contrast) /\ 0 < n.
Proof.
  apply (C8_counters_within_num_images sample_capture 1 0 None None
           (returned (analyze_video_quality sample_capture 1 0 None None)).1.2).
  vm_compute. reflexivity.
Defined.

Section Progress.

Lemma progress_reports_lookup k T i c t :
  progress_reports k T !! i = Some (c, t) -> c = 1 + Z.of_nat i /\ t = T.
Proof.
  unfold progress_reports. rewrite list_lookup_fmap.
  destruct (seqZ 1 k !! i) as [j|] eqn:Hj; [|discriminate].
  apply lookup_seqZ in Hj as [-> _]. cbn. intros [= <- <-]. auto.
Qed.

Lemma progress_reports_consecutive k T i c t c' t' :
  progress_reports k T !! i = Some (c, t) ->
  progress_reports k T !! S i = Some (c', t') ->
  c' = c + 1 /\ t' = t.
Proof.
  intros H1 H2. apply progress_reports_lookup in H1 as [-> ->].
  apply progress_reports_lookup in H2 as [-> ->]. split; [lia|reflexivity].
Qed.

End Progress.

(** C9. With a callback, the calls made during one analysis are
    [(1, total), (2, total), ..., (k, total)] where [k] is the number of
    frames analyzed ([num_images] of a successful analysis, 0 of a failed
    one) and [total] the estimate of line 104: one call after each analyzed
    frame, the count going up by one from call to call and the total staying
    the same; and what the analysis returns is what it returns without a
    callback, and with any other one. *)
Theorem C9_progress_reports :
  forall cap sample_rate start_frame end_frame f,
    let a := analyze_video_quality cap sample_rate start_frame end_frame (Some f) in
    let total := estimated_total cap sample_rate start_frame end_frame in
    exists k,
      0 <= k /\
      callback_calls a = progress_reports k total /\
      (forall msg d, returned a = (true, msg, d) -> d !! "num_images" = Some (PyInt k)) /\
      (forall msg d, returned a = (false, msg, d) -> k = 0) /\
      (forall i c t c' t',
         callback_calls a !! i = Some (c, t) ->
         callback_calls a !! S i = Some (c', t') -> c' = c + 1 /\ t' = t) /\
      returned a = returned (analyze_video_quality cap sample_rate start_frame end_frame None) /\
      callback_calls (analyze_video_quality cap sample_rate start_frame end_frame None) = [] /\
      (forall f',
         returned (analyze_video_quality cap sample_rate start_frame end_frame (Some f'))
         = returned a).
Proof.
  intros cap rate start end_frame f. cbv zeta.
  assert (Hany : forall cb0,
            returned (analyze_video_quality cap rate start end_frame cb0)
            = returned (analyze_video_quality cap rate start end_frame (Some f)))
    by (intros cb0; apply returned_any_callback).
  assert (Hnone : callback_calls (analyze_video_quality cap rate start end_frame None) = []).
  { rewrite analyze_video_quality_cases. cbv zeta.
    destruct (final_state_inv cap rate start end_frame None) as ((_ & _ & _ & Hp & _) & _).
    destruct (negb (isOpened cap)); [reflexivity|].
    destruct (rate =? 0); [reflexivity|].
    destruct (analyzed_count _ =? 0); exact Hp. }
  pose proof (analyze_video_quality_cases cap rate start end_frame (Some f)) as Hcases.
  cbv zeta in Hcases.
  remember (analyze_video_quality cap rate start end_frame (Some f)) as a eqn:Ea.
  clear Ea.
  destruct (final_state_inv cap rate start end_frame (Some f))
    as ((_ & (_ & _ & _ & Hn & _) & Ha & Hp & _) & _).
  set (s := final_state cap rate start end_frame (Some f)) in *.
  assert (Hk : 0 <= analyzed_count s) by lia.
  destruct (negb (isOpened cap)).
  { exists 0. subst a. cbn [returned callback_calls] in *.
    repeat split; try reflexivity; try discriminate; auto. }
  destruct (rate =? 0).
  { exists 0. subst a. cbn [returned callback_calls] in *.
    repeat split; try reflexivity; try discriminate; auto. }
  exists (analyzed_count s).
  destruct (analyzed_count s =? 0) eqn:Hz; subst a; cbn [returned callback_calls] in *.
  - apply Z.eqb_eq in Hz. split; [exact Hk|]. split; [exact Hp|].
    split; [discriminate|]. split; [intros; exact Hz|].
    split; [rewrite Hp; apply progress_reports_consecutive|].
    split; [symmetry; apply Hany|]. split; [exact Hnone|]. intros f'. apply Hany.
  - split; [exact Hk|]. split; [exact Hp|].
    split; [intros msg d [= <- <-]; rewrite Ha; exact Hn|].
    split; [discriminate|].
    split; [rewrite Hp; apply progress_reports_consecutive|].
    split; [symmetry; apply Hany|]. split; [exact Hnone|]. intros f'. apply Hany.
Qed.

(** C7 as stated fails in its example: a stride larger than the frame range
    still selects the frame at [start_frame]. With three frames and a stride
    of 30 the analysis succeeds with one analyzed frame. *)
Lemma C7_stride_beyond_range_analyzes_one_frame :
  match returned (analyze_video_quality three_frames 30 0 None None) with
  | (true, _, d) => d !! "num_images" = Some (PyInt 1)
  | _ => False
  end.
Proof. vm_compute. reflexivity. Qed.

(** C7, as amended. A capture that is not opened gives the failure "Unable
    to open video file."; an opened one, walked with a non-zero stride, gives
    the failure "No frames were analyzed." with an empty dictionary exactly
    when no selected frame converted, in particular when the stream is empty
    or the frame range is, and succeeds otherwise. [validate_quality] returns
    the no-data failure exactly when [num_images] is 0 and succeeds
    otherwise. *)
Theorem C7_analysis_and_validation_failures :
  (forall cap sample_rate start_frame end_frame cb,
     isOpened cap = false ->
     returned (analyze_video_quality cap sample_rate start_frame end_frame cb)
       = (false, "Unable to open video file.", ∅)) /\
  (forall cap sample_rate start_frame end_frame cb,
     isOpened cap = true -> sample_rate <> 0 ->
     let s := final_state cap sample_rate start_frame end_frame cb in
     let converted :=
       analyzed (stream cap) sample_rate start_frame (first_index start_frame) (frame_idx s) in
     let a := analyze_video_quality cap sample_rate start_frame end_frame cb in
     (converted = [] <-> returned a = (false, "No frames were analyzed.", ∅)) /\
     (converted <> [] -> exists msg, returned a = (true, msg, stats s)) /\
     (stream cap = [] -> converted = []) /\
     (clamp_end end_frame (frame_count cap) <= first_index start_frame -> converted = [])) /\
  (forall (stats : gmap string pyval) n b u o l,
     reads stats "num_images" n ->
     reads stats "blurry" b -> reads stats "under_exposed" u ->
     reads stats "over_exposed" o -> reads stats "low_contrast" l ->
     in_range b -> in_range u -> in_range o -> in_range l ->
     (n = 0 <-> validate_quality stats
                = Ok (false, "No image data available for validation.", None)) /\
     (n <> 0 -> exists msg vr, validate_quality stats = Ok (true, msg, Some vr))).
Proof.
  split; [|split].
  - intros cap rate start end_frame cb Hopen.
    rewrite analyze_video_quality_cases, Hopen. reflexivity.
  - intros cap rate start end_frame cb Hopen Hrate. cbv zeta.
    rewrite analyze_video_quality_cases, Hopen. cbn [negb].
    apply Z.eqb_neq in Hrate. rewrite Hrate. cbv zeta.
    destruct (final_state_inv cap rate start end_frame cb)
      as ((_ & _ & Ha & _ & Hgrab) & Hrange & _).
    set (s := final_state cap rate start end_frame cb) in *.
    assert (Hnil : forall gs : list gray, Z.of_nat (length gs) = 0 <-> gs = []).
    { intros [|g gs]; cbn [length]; split; (reflexivity || lia || discriminate). }
    assert (Hfirst : frame_idx s = first_index start ->
                     analyzed (stream cap) rate start (first_index start) (frame_idx s) = []).
    { intros ->. apply analyzed_empty. }
    split; [|split; [|split]].
    + rewrite <- Hnil, <- Ha.
      destruct (analyzed_count s =? 0) eqn:Hz; cbn [returned].
      * apply Z.eqb_eq in Hz. tauto.
      * apply Z.eqb_neq in Hz. split; [tauto|discriminate].
    + rewrite <- Hnil, <- Ha. intros Hne. apply Z.eqb_neq in Hne. rewrite Hne.
      cbn [returned]. eauto.
    + intros Hempty. apply Hfirst.
      destruct (Z.eq_dec (frame_idx s) (first_index start)) as [|Hne]; [assumption|].
      destruct (Hgrab (first_index start)) as (grabbed & Hl & _); [lia|].
      rewrite Hempty in Hl. discriminate Hl.
    + intros Hend. apply Hfirst. lia.
  - intros stats n b u o l Hn Hb Hu Ho Hl Rb Ru Ro Rl. split.
    + split.
      * intros ->. apply validate_quality_no_data. exact Hn.
      * intros Hv. destruct (Z.eq_dec n 0) as [|Hne]; [assumption|].
        destruct (validate_quality_verdict stats n b u o l) as (msg & vr & Hv' & _);
          try assumption.
        rewrite Hv' in Hv. discriminate Hv.
    + intros Hne.
      destruct (validate_quality_verdict stats n b u o l) as (msg & vr & Hv' & _);
        try assumption.
      eauto.
Qed.

Lemma C7_empty_stream_witness :
  returned (analyze_video_quality
              {| isOpened := true; frame_count := 0; fps := float_const 0; stream := [] |}
              30 0 None None)
  = (false, "No frames were analyzed.", ∅).
Proof.
  destruct (proj1 (proj2 C7_analysis_and_validation_failures)
              {| isOpened := true; frame_count := 0; fps := float_const 0; stream := [] |}
              30 0 None None) as (Hiff & _ & Hempty & _); [reflexivity|lia|].
  apply Hiff. apply Hempty. reflexivity.
Defined.

(** ** [run] and [validate_video_file] *)

Section Pipeline.

(** The statistics of at least one frame always validate. *)
Lemma validate_after_analysis d gs :
  records d gs -> gs <> [] ->
  exists msg vr, validate_quality d = Ok (true, msg, Some vr).
Proof.
  intros Hr Hne.
  destruct (records_bounds d gs Hr)
    as (b & u & o & l & (_ & _ & _ & Hn & Hb & Hu & Ho & Hl) & Bb & Bu & Bo & Buo & Bl).
  assert (Hlen : 0 < Z.of_nat (length gs)) by (destruct gs; [congruence|cbn [length]; lia]).
  assert (Hpow : 128 <= 2 ^ (emax - 1)).
  { change 128 with (2 ^ 7). apply Z.pow_le_mono_r; unfold emax; lia. }
  rewrite (validate_quality_ints d (Z.of_nat (length gs)) b u o l);
    try (apply reads_present; assumption); try lia.
  - destruct (judge_verdict (pct b (Z.of_nat (length gs))) (pct u (Z.of_nat (length gs)))
                (pct o (Z.of_nat (length gs))) (pct l (Z.of_nat (length gs))))
      as (msg & vr & -> & _). eauto.
  - rewrite Z.abs_eq, (Z.abs_eq (Z.of_nat _)) by lia. nia.
  - rewrite Z.abs_eq, (Z.abs_eq (Z.of_nat _)) by lia. nia.
  - rewrite Z.abs_eq, (Z.abs_eq (Z.of_nat _)) by lia. nia.
  - rewrite Z.abs_eq, (Z.abs_eq (Z.of_nat _)) by lia. nia.
Qed.

(** [run] returns, and what it returns is the terminal output of a failed
    analysis or a completed output whose status follows [passed]. *)
Lemma run_cases env self rate start end_frame include_summary cb :
  exists out,
    run env self rate start end_frame include_summary cb = Ok out /\
    ((exists m, m ∈ analysis_failures /\
        out = terminal false m m "" (video_path self) (utc_now env)) \/
     (ValidationPipelineOutput.analyze_success out = true /\
      ValidationPipelineOutput.validate_success out = true /\
      ValidationPipelineOutput.status out
        = if ValidationPipelineOutput.passed out then "good" else "bad")).
Proof.
  unfold run. rewrite analyze_video_quality_cases. cbv zeta.
  set (cap := open_video env (video_path self)).
  destruct (negb (isOpened cap)).
  { cbn [returned negb]. eexists. split; [reflexivity|]. left. eexists.
    split; [|reflexivity]. unfold analysis_failures. apply elem_of_cons. auto. }
  destruct (rate =? 0).
  { cbn [returned negb]. eexists. split; [reflexivity|]. left. eexists.
    split; [|reflexivity]. unfold analysis_failures.
    apply elem_of_cons. right. apply elem_of_cons. auto. }
  destruct (final_state_inv cap rate start end_frame cb) as ((_ & Hrec & Ha & _) & _).
  set (s := final_state cap rate start end_frame cb) in *.
  destruct (analyzed_count s =? 0) eqn:Hz.
  { cbn [returned negb]. eexists. split; [reflexivity|]. left. eexists.
    split; [|reflexivity]. unfold analysis_failures.
    do 2 (apply elem_of_cons; right). apply elem_of_cons. auto. }
  cbn [returned negb]. apply Z.eqb_neq in Hz.
  destruct (validate_after_analysis (stats s) _ Hrec) as (msg & vr & ->).
  { intros Hnil. rewrite Hnil in Ha. cbn [length] in Ha. lia. }
  cbn [mbind result_bind negb]. eexists. split; [reflexivity|]. right.
  cbn [ValidationPipelineOutput.analyze_success ValidationPipelineOutput.validate_success
       ValidationPipelineOutput.status ValidationPipelineOutput.passed].
  auto.
Qed.

Lemma status_follows_passed (p : bool) :
  (if p then "good" else "bad") = "good" <-> p = true.
Proof. destruct p; split; (reflexivity || discriminate). Qed.

End Pipeline.

(** C1. [run] returns an output whose status is "good" exactly when
    [passed] is true; an output with [analyze_success] or [validate_success]
    false has [passed] false and status "bad", as has each of the two
    terminal outputs [run] can build. *)
Theorem C1_status_good_iff_passed :
  (forall env self sample_rate start_frame end_frame include_summary cb,
     exists out,
       run env self sample_rate start_frame end_frame include_summary cb = Ok out /\
       (ValidationPipelineOutput.status out = "good"
          <-> ValidationPipelineOutput.passed out = true) /\
       (ValidationPipelineOutput.status out = "good"
          \/ ValidationPipelineOutput.status out = "bad") /\
       (ValidationPipelineOutput.analyze_success out = false
          \/ ValidationPipelineOutput.validate_success out = false ->
        ValidationPipelineOutput.passed out = false /\
        ValidationPipelineOutput.status out = "bad")) /\
  (forall analyze_success message analyze_msg validate_msg path created_at,
     let out := terminal analyze_success message analyze_msg validate_msg path created_at in
     ValidationPipelineOutput.passed out = false /\
     ValidationPipelineOutput.status out = "bad" /\
     ValidationPipelineOutput.validate_success out = false /\
     (ValidationPipelineOutput.status out = "good"
        <-> ValidationPipelineOutput.passed out = true)).
Proof.
  split.
  - intros env self rate start end_frame include_summary cb.
    destruct (run_cases env self rate start end_frame include_summary cb)
      as (out & Hrun & Hcase).
    exists out. split; [exact Hrun|]. clear Hrun.
    destruct Hcase as [(m & _ & ->) | (Ha & Hv & Hs)].
    + cbn. repeat split; try discriminate; auto.
    + rewrite Hs, Ha, Hv. split; [apply status_follows_passed|].
      split; [destruct (ValidationPipelineOutput.passed out); auto|].
      intros [H|H]; discriminate H.
  - intros. cbn. repeat split; discriminate.
Qed.




Lemma C1_sample_run_witness :
  exists out,
    run sample_environment {| video_path := "clip.mp4" |} 30 0 None false None = Ok out /\
    (ValidationPipelineOutput.status out = "good"
       <-> ValidationPipelineOutput.passed out = true).
Proof.
  destruct (proj1 C1_status_good_iff_passed sample_environment
              {| video_path := "clip.mp4" |} 30 0 None false None)
    as (out & Hrun & Hiff & _).
  exists out. split; [exact Hrun|exact Hiff].
Defined.

Lemma C9_sample_reports_witness :
  exists k,
    callback_calls (analyze_video_quality sample_capture 1 0 None (Some (fun _ _ => None)))
    = progress_reports k (estimated_total sample_capture 1 0 None).
Proof.
  destruct (C9_progress_reports sample_capture 1 0 None (fun _ _ => None))
    as (k & _ & Hcalls & _).
  exists k. exact Hcalls.
Defined.

(** ** What the walk leaves alone *)

Section Keys.

Context (P : gmap string pyval -> Prop) (HP : stable P).

Lemma preserves_bind {A B} (m : M A) (f : A -> M B) :
  preserves P m -> (forall a, preserves P (f a)) -> preserves P (m ≫= f).
Proof.
  intros Hm Hf s Hs. unfold mbind, M_bind. specialize (Hm s Hs).
  destruct (m s) as [s1 [a|e]]; cbn [fst] in *; [apply Hf|]; exact Hm.
Qed.

Lemma preserves_lift {A} (r : result A) : preserves P (lift r).
Proof. intros s Hs. exact Hs. Qed.

Lemma preserves_mret {A} (a : A) : preserves P (mret a : M A).
Proof. intros s Hs. exact Hs. Qed.

Lemma preserves_stats_append key x : key ∈ walk_keys -> preserves P (stats_append key x).
Proof.
  intros Hk s Hs. unfold stats_append.
  destruct (stats s !! key) as [[| |l]|]; cbn [fst stats with_stats]; auto.
Qed.

Lemma preserves_stats_incr key : key ∈ walk_keys -> preserves P (stats_incr key).
Proof.
  intros Hk s Hs. unfold stats_incr.
  destruct (stats s !! key) as [[| |l]|]; cbn [fst stats with_stats]; auto.
Qed.

Lemma preserves_when b m : preserves P m -> preserves P (when b m).
Proof. intros Hm. destruct b; [exact Hm|apply preserves_mret]. Qed.

Lemma preserves_count_frame : preserves P count_frame.
Proof.
  intros s Hs. unfold count_frame. cbn [fst stats with_stats with_analyzed_count].
  apply HP; [|exact Hs]. apply (bool_decide_eq_true_1 _). reflexivity.
Qed.

Lemma preserves_report_progress cb T : preserves P (report_progress cb T).
Proof.
  intros s Hs. unfold report_progress. destruct cb as [f|]; [|exact Hs].
  destruct (f _ _); exact Hs.
Qed.

Lemma preserves_analyze_frame cb T frame : preserves P (analyze_frame cb T frame).
Proof.
  assert (Hkeys : Forall (fun key => key ∈ walk_keys) walk_keys)
    by (apply Forall_forall; auto).
  unfold walk_keys in Hkeys at 2.
  repeat (apply Forall_cons in Hkeys as [? Hkeys]).
  unfold analyze_frame.
  apply preserves_bind; [apply preserves_lift|intros gray].
  apply preserves_bind; [apply preserves_stats_append; assumption|intros _].
  apply preserves_bind; [apply preserves_when, preserves_stats_incr; assumption|intros _].
  apply preserves_bind; [apply preserves_stats_append; assumption|intros _].
  apply preserves_bind; [|intros _].
  { destruct (flt _ _); [apply preserves_stats_incr; assumption|].
    destruct (fgt _ _); [apply preserves_stats_incr; assumption|apply preserves_mret]. }
  apply preserves_bind; [apply preserves_stats_append; assumption|intros _].
  apply preserves_bind; [apply preserves_when, preserves_stats_incr; assumption|intros _].
  apply preserves_bind; [apply preserves_count_frame|intros _].
  apply preserves_report_progress.
Qed.

Lemma preserves_try cb T frame :
  preserves P (try_except (analyze_frame cb T frame) print_failure).
Proof.
  intros s Hs. pose proof (preserves_analyze_frame cb T frame s Hs) as H.
  unfold try_except. destruct (analyze_frame cb T frame s) as [s1 [|e]]; exact H.
Qed.

Lemma frame_loop_preserves cb rate start end_ T cap :
  forall s, P (stats s) -> P (stats (frame_loop cb rate start end_ T cap s)).
Proof.
  induction cap as [|grabbed cap IH]; intros s Hs; cbn [frame_loop].
  - destruct (end_ <=? frame_idx s); exact Hs.
  - destruct (end_ <=? frame_idx s); [exact Hs|].
    destruct (_ =? 0).
    + destruct grabbed as [frame|]; [|exact Hs].
      apply IH. apply (preserves_try cb T frame s Hs).
    + apply IH. exact Hs.
Qed.

End Keys.

Lemma stable_lookup key (v : pyval) :
  key ∉ walk_keys -> stable (fun d => d !! key = Some v).
Proof.
  intros Hk d key' v' Hk' Hd. rewrite lookup_insert_ne; [exact Hd|].
  intros ->. contradiction.
Qed.

Lemma not_walk_key key : bool_decide (key ∈ walk_keys) = false -> key ∉ walk_keys.
Proof. intros H. apply bool_decide_eq_false in H. exact H. Qed.

Lemma stable_keys : stable (fun d => dom d = stats_keys).
Proof.
  intros d key v Hk Hd. rewrite dom_insert_L, Hd.
  assert (Hin : key ∈ stats_keys)
    by (unfold stats_keys; apply elem_of_list_to_set, elem_of_app; auto).
  apply set_eq. intros x. rewrite elem_of_union, elem_of_singleton.
  split; [intros [->|Hx]; assumption|auto].
Qed.

Lemma initial_keys total_frames fps rate T :
  dom (initial_stats total_frames fps rate T) = stats_keys.
Proof. apply (bool_decide_unpack _). vm_compute. exact I. Qed.

Lemma returned_true (a : analysis) :
  fst (fst (returned a)) = true ->
  returned a = (true, snd (fst (returned a)), snd (returned a)).
Proof. destruct (returned a) as [[ok msg] d]. cbn [fst snd]. intros ->. reflexivity. Qed.

(** The entries the walk does not write to, and the keys, when the loop is
    left. *)
Lemma final_state_keeps cap rate start end_frame cb :
  let d := stats (final_state cap rate start end_frame cb) in
  d !! "total_frames" = Some (PyInt (frame_count cap)) /\
  d !! "fps" = Some (PyFloat (fps cap)) /\
  d !! "sample_rate" = Some (PyInt rate) /\
  d !! "frames_analyzed" = Some (PyInt (estimated_total cap rate start end_frame)) /\
  dom d = stats_keys.
Proof.
  cbv zeta. unfold final_state. repeat split.
  1-4: apply frame_loop_preserves; [apply stable_lookup, not_walk_key; reflexivity|];
    vm_compute; reflexivity.
  apply (frame_loop_preserves _ stable_keys). apply initial_keys.
Qed.

(** X1. The dictionary of a successful analysis holds, as they were when
    the dictionary was created, the frame count and the frame rate of the
    capture, the stride and the estimate of line 104, and has the twelve
    keys it was created with. *)
Theorem analysis_keeps_video_properties cap sample_rate start_frame end_frame cb msg d :
  returned (analyze_video_quality cap sample_rate start_frame end_frame cb) = (true, msg, d) ->
  d !! "total_frames" = Some (PyInt (frame_count cap)) /\
  d !! "fps" = Some (PyFloat (fps cap)) /\
  d !! "sample_rate" = Some (PyInt sample_rate) /\
  d !! "frames_analyzed"
    = Some (PyInt (estimated_total cap sample_rate start_frame end_frame)) /\
  dom d = stats_keys.
Proof.
  intros Hret. apply analysis_success in Hret as (_ & _ & -> & _).
  apply final_state_keeps.
Qed.

Lemma analysis_keeps_video_properties_witness :
  let d := snd (returned (analyze_video_quality sample_capture 2 1 (Some 4) None)) in
  d !! "total_frames" = Some (PyInt 5) /\ d !! "sample_rate" = Some (PyInt 2) /\
  dom d = stats_keys.
Proof.
  destruct (analysis_keeps_video_properties sample_capture 2 1 (Some 4) None
              (snd (fst (returned (analyze_video_quality sample_capture 2 1 (Some 4) None))))
              (snd (returned (analyze_video_quality sample_capture 2 1 (Some 4) None))))
    as (H1 & _ & H3 & _ & H5); [apply returned_true; vm_compute; reflexivity|].
  split; [exact H1|]. split; [exact H3|exact H5].
Defined.

(** ** The estimate of line 104 and the frames the stride selects *)

Section Count.

Lemma estimate_succ rate start i :
  0 < rate ->
  estimate rate start (i + 1) = estimate rate start i + bit (sampled rate start i).
Proof.
  intros Hrate. unfold estimate, sampled.
  pose proof (Z.div_mod (i - start) rate ltac:(lia)) as Hdm.
  pose proof (Z.mod_pos_bound (i - start) rate Hrate) as Hb.
  set (q := (i - start) / rate) in *. set (r := (i - start) mod rate) in *.
  destruct (r =? 0) eqn:Hr; cbn [bit].
  - apply Z.eqb_eq in Hr.
    rewrite <- (Z.div_unique (i + 1 - start + rate - 1) rate (q + 1) 0) by lia.
    rewrite <- (Z.div_unique (i - start + rate - 1) rate q (rate - 1)) by lia.
    reflexivity.
  - apply Z.eqb_neq in Hr.
    rewrite <- (Z.div_unique (i + 1 - start + rate - 1) rate (q + 1) r) by lia.
    rewrite <- (Z.div_unique (i - start + rate - 1) rate (q + 1) (r - 1)) by lia.
    lia.
Qed.

Lemma estimate_mono rate start i j :
  0 < rate -> i <= j -> estimate rate start i <= estimate rate start j.
Proof. intros Hrate Hij. unfold estimate. apply Z.div_le_mono; lia. Qed.

Lemma estimate_start rate start : 0 < rate -> estimate rate start start = 0.
Proof. intros Hrate. unfold estimate. apply Z.div_small. lia. Qed.

Lemma estimate_range rate start stop :
  0 < rate -> 0 < estimate rate start stop -> estimate rate start stop <= stop - start.
Proof.
  intros Hrate Hpos. unfold estimate in *.
  destruct (Z_lt_le_dec (stop - start) 1) as [Hlt|Hge].
  - assert (stop - start + rate - 1 < 0 \/ 0 <= stop - start + rate - 1 < rate) as [H|H] by lia.
    + pose proof (Z.div_lt_upper_bound (stop - start + rate - 1) rate 0 Hrate ltac:(lia)). lia.
    + rewrite Z.div_small in Hpos by lia. lia.
  - apply Z.div_le_upper_bound; [lia|]. nia.
Qed.

Lemma selected_succ rate start first i :
  first <= i ->
  selected_indices rate start first (i + 1)
  = selected_indices rate start first i ++ (if sampled rate start i then [i] else []).
Proof.
  intros Hi. unfold selected_indices.
  replace (i + 1 - first) with (i - first + 1) by lia.
  rewrite seqZ_snoc by lia. rewrite filter_app.
  replace (first + (i - first)) with i by lia.
  destruct (sampled rate start i) eqn:Hs.
  - rewrite (filter_cons_True _ i []) by exact Hs. reflexivity.
  - rewrite (filter_cons_False _ i []) by (rewrite Hs; discriminate). reflexivity.
Qed.

(** The stride selects as many indices of a range as the estimate grows
    over it. *)
Lemma selected_count rate start first stop :
  0 < rate -> first <= stop ->
  Z.of_nat (length (selected_indices rate start first stop))
  = estimate rate start stop - estimate rate start first.
Proof.
  intros Hrate Hle.
  replace stop with (first + Z.of_nat (Z.to_nat (stop - first))) by lia.
  induction (Z.to_nat (stop - first)) as [|k IH].
  - rewrite Z.add_0_r. unfold selected_indices. rewrite seqZ_nil by lia.
    cbn [filter list_filter length]. lia.
  - replace (first + Z.of_nat (S k)) with (first + Z.of_nat k + 1) by lia.
    rewrite selected_succ by lia. rewrite length_app, estimate_succ by exact Hrate.
    destruct (sampled rate start (first + Z.of_nat k)); cbn [length bit]; lia.
Qed.

Lemma omap_filter_length {A B} (f : A -> option B) (p : A -> bool) (l : list A) :
  (forall x b, f x = Some b -> p x = true) ->
  (length (omap f l) <= length (filter (fun x => p x = true) l))%nat.
Proof.
  intros Hf. induction l as [|x l IH]; [reflexivity|].
  cbn [omap list_omap]. destruct (f x) as [b|] eqn:Hx.
  - rewrite filter_cons_True by (eapply Hf; exact Hx). cbn [length]. lia.
  - destruct (p x) eqn:Hp.
    + rewrite filter_cons_True by exact Hp. cbn [length]. lia.
    + rewrite filter_cons_False by (rewrite Hp; discriminate). exact IH.
Qed.

Lemma omap_filter_all {A B} (f : A -> option B) (p : A -> bool) (l : list A) :
  (forall x b, f x = Some b -> p x = true) ->
  (forall x, x ∈ l -> p x = true -> is_Some (f x)) ->
  length (omap f l) = length (filter (fun x => p x = true) l).
Proof.
  intros Hf Hall. induction l as [|x l IH]; [reflexivity|].
  cbn [omap list_omap].
  assert (IH' : length (omap f l) = length (filter (fun x => p x = true) l)).
  { apply IH. intros y Hy. apply Hall. apply elem_of_cons. auto. }
  destruct (f x) as [b|] eqn:Hx.
  - rewrite filter_cons_True by (eapply Hf; exact Hx). cbn [length]. lia.
  - destruct (p x) eqn:Hp.
    + destruct (Hall x) as [b Hb]; [apply elem_of_cons; auto|exact Hp|]. congruence.
    + rewrite filter_cons_False by (rewrite Hp; discriminate). exact IH'.
Qed.

Lemma gray_at_selected frames rate start i g :
  gray_at frames rate start i = Some g -> sampled rate start i = true.
Proof. unfold gray_at. destruct (sampled rate start i); [reflexivity|discriminate]. Qed.

Lemma analyzed_le_selected frames rate start first stop :
  (length (analyzed frames rate start first stop)
   <= length (selected_indices rate start first stop))%nat.
Proof.
  unfold analyzed, selected_indices. apply omap_filter_length.
  intros i g. apply gray_at_selected.
Qed.

Lemma first_index_ge start : start <= first_index start.
Proof. unfold first_index. destruct (0 <? start) eqn:E; [|apply Z.ltb_ge in E]; lia. Qed.

(** The frames analyzed are at most as many as estimated. *)
Lemma analyzed_within cap rate start end_frame cb :
  0 < rate ->
  let s := final_state cap rate start end_frame cb in
  analyzed_count s <> 0 ->
  analyzed_count s <= estimated_total cap rate start end_frame.
Proof.
  intros Hrate s Hne.
  destruct (final_state_inv cap rate start end_frame cb) as ((_ & _ & Ha & _) & Hrange & _).
  fold s in Ha, Hrange.
  pose proof (first_index_ge start) as Hfirst.
  set (first := first_index start) in *.
  set (actual_end := clamp_end end_frame (frame_count cap)) in *.
  assert (Hstop : frame_idx s <= actual_end).
  { destruct (Z_le_gt_dec first actual_end) as [|Hgt]; [lia|].
    assert (frame_idx s = first) as Heq by lia.
    rewrite Heq, analyzed_empty in Ha. cbn [length] in Ha. lia. }
  pose proof (analyzed_le_selected (stream cap) rate start first (frame_idx s)) as Hsel.
  pose proof (selected_count rate start first (frame_idx s) Hrate ltac:(lia)) as Hcount.
  pose proof (estimate_mono rate start start first Hrate Hfirst) as H0.
  rewrite estimate_start in H0 by exact Hrate.
  pose proof (estimate_mono rate start (frame_idx s) actual_end Hrate Hstop) as H1.
  change (estimated_total cap rate start end_frame) with (estimate rate start actual_end).
  lia.
Qed.

End Count.

(** X2. With a positive stride, a successful analysis has analyzed at most
    as many frames as it estimated and at most as many as the range has:
    [num_images] is positive and at most [frames_analyzed], the message
    reads "Analyzed n/m frames" with [n <= m], and in every call of the
    callback the count is between 1 and the total, which is the estimate. *)
Theorem analyzed_within_estimate cap sample_rate start_frame end_frame cb msg d :
  0 < sample_rate ->
  let a := analyze_video_quality cap sample_rate start_frame end_frame cb in
  let actual_end_frame := clamp_end end_frame (frame_count cap) in
  returned a = (true, msg, d) ->
  exists n total,
    d !! "num_images" = Some (PyInt n) /\
    d !! "frames_analyzed" = Some (PyInt total) /\
    0 < n <= total /\
    n <= actual_end_frame - start_frame /\
    msg = analysis_message n start_frame actual_end_frame sample_rate /\
    (forall current t, (current, t) ∈ callback_calls a -> 1 <= current <= t /\ t = total).
Proof.
  intros Hrate a actual_end Hret.
  destruct (final_state_keeps cap sample_rate start_frame end_frame cb)
    as (_ & _ & _ & Htotal & _).
  pose proof (analyzed_within cap sample_rate start_frame end_frame cb Hrate) as Hwithin.
  destruct (final_state_inv cap sample_rate start_frame end_frame cb)
    as ((_ & (_ & _ & _ & Hn & _) & Ha & Hp & _) & _).
  pose proof (analyze_video_quality_cases cap sample_rate start_frame end_frame cb) as Hcases.
  fold a in Hcases. cbv zeta in Hcases, Hwithin.
  set (s := final_state cap sample_rate start_frame end_frame cb) in *.
  set (total := estimated_total cap sample_rate start_frame end_frame) in *.
  destruct (negb (isOpened cap)); [rewrite Hcases in Hret; discriminate Hret|].
  destruct (sample_rate =? 0); [rewrite Hcases in Hret; discriminate Hret|].
  destruct (analyzed_count s =? 0) eqn:Hz; [rewrite Hcases in Hret; discriminate Hret|].
  apply Z.eqb_neq in Hz. specialize (Hwithin Hz).
  rewrite Hcases in Hret |- *. cbn [returned callback_calls] in *.
  injection Hret as <- <-.
  exists (analyzed_count s), total.
  assert (Hpos : 0 < analyzed_count s) by lia.
  split; [rewrite Ha; exact Hn|]. split; [exact Htotal|]. split; [lia|].
  split.
  { pose proof (estimate_range sample_rate start_frame actual_end Hrate) as Hr.
    change (estimate sample_rate start_frame actual_end) with total in Hr. lia. }
  split; [reflexivity|].
  intros current t Hin. rewrite Hp in Hin. destruct cb as [f|].
  - apply list_elem_of_lookup in Hin as [i Hi].
    pose proof (lookup_lt_Some _ _ _ Hi) as Hlt.
    apply progress_reports_lookup in Hi as [-> ->].
    unfold progress_reports in Hlt. rewrite length_fmap, length_seqZ in Hlt. lia.
  - apply elem_of_nil in Hin. contradiction.
Qed.

Lemma analyzed_within_estimate_witness :
  exists n total,
    snd (returned (analyze_video_quality sample_capture 2 0 None None)) !! "num_images"
      = Some (PyInt n) /\
    snd (returned (analyze_video_quality sample_capture 2 0 None None)) !! "frames_analyzed"
      = Some (PyInt total) /\
    0 < n <= total.
Proof.
  destruct (analyzed_within_estimate sample_capture 2 0 None None
              (snd (fst (returned (analyze_video_quality sample_capture 2 0 None None))))
              (snd (returned (analyze_video_quality sample_capture 2 0 None None))))
    as (n & total & Hn & Ht & Hle & _); [lia|apply returned_true; vm_compute; reflexivity|].
  exists n, total. split; [exact Hn|]. split; [exact Ht|exact Hle].
Defined.

(** ** One turn of the loop *)

Section Turn.

Lemma frame_loop_stop cb rate start end_ T cap s :
  end_ <= frame_idx s -> frame_loop cb rate start end_ T cap s = s.
Proof.
  intros Hend. apply Z.leb_le in Hend.
  destruct cap; cbn [frame_loop]; rewrite Hend; reflexivity.
Qed.

Lemma frame_loop_cons cb rate start end_ T grabbed cap s :
  frame_loop cb rate start end_ T (grabbed :: cap) s
  = if end_ <=? frame_idx s then s
    else match loop_body cb rate start T grabbed s with
         | Some s1 => frame_loop cb rate start end_ T cap s1
         | None => s
         end.
Proof.
  cbn [frame_loop]. unfold loop_body.
  destruct (end_ <=? frame_idx s); [reflexivity|].
  destruct (_ =? 0); [destruct grabbed|]; reflexivity.
Qed.

(** A turn that does not leave the loop moves to the next index. *)
Lemma loop_body_idx frames cb rate start T first grabbed s s1 :
  walk_inv frames cb rate start T first s ->
  loop_body cb rate start T grabbed s = Some s1 ->
  frame_idx s1 = frame_idx s + 1.
Proof.
  intros (_ & Hr & Ha & _) Hbody. unfold loop_body in Hbody.
  destruct (_ =? 0).
  - destruct grabbed as [frame|]; [|discriminate Hbody].
    injection Hbody as <-. cbn [next_frame frame_idx with_frame_idx]. f_equal.
    destruct (cvtColor frame) as [g|e] eqn:Hcv.
    + apply (try_converted cb T frame g s _ Hcv Hr Ha).
    + apply (try_unconverted cb T frame e s Hcv).
  - injection Hbody as <-. reflexivity.
Qed.

(** ... and keeps the invariant of the walk. *)
Lemma loop_body_inv frames cb rate start T first grabbed cap s s1 :
  0 <= first ->
  grabbed :: cap = drop (Z.to_nat (frame_idx s)) frames ->
  walk_inv frames cb rate start T first s ->
  loop_body cb rate start T grabbed s = Some s1 ->
  walk_inv frames cb rate start T first s1.
Proof.
  intros Hfirst Hcap Hinv Hbody.
  pose proof (frame_loop_inv frames cb rate start (frame_idx s + 1) T first Hfirst
                (grabbed :: cap) s Hcap Hinv) as (H & _).
  rewrite frame_loop_cons, Hbody in H.
  replace (frame_idx s + 1 <=? frame_idx s) with false in H by (symmetry; apply Z.leb_gt; lia).
  rewrite frame_loop_stop in H; [exact H|].
  rewrite (loop_body_idx _ _ _ _ _ _ _ _ _ Hinv Hbody). lia.
Qed.

(** What every turn keeps, given the invariant of the walk, holds when the
    loop is left. *)
Lemma frame_loop_rule frames cb rate start end_ T first (Q : locals -> Prop) :
  0 <= first ->
  (forall s grabbed s1,
     walk_inv frames cb rate start T first s -> Q s ->
     frames !! Z.to_nat (frame_idx s) = Some grabbed ->
     loop_body cb rate start T grabbed s = Some s1 -> Q s1) ->
  forall cap s,
    cap = drop (Z.to_nat (frame_idx s)) frames ->
    walk_inv frames cb rate start T first s -> Q s ->
    Q (frame_loop cb rate start end_ T cap s).
Proof.
  intros Hfirst Hstep cap. induction cap as [|grabbed cap IH]; intros s Hcap Hinv HQ.
  - cbn [frame_loop]. destruct (end_ <=? frame_idx s); exact HQ.
  - rewrite frame_loop_cons. destruct (end_ <=? frame_idx s); [exact HQ|].
    destruct (loop_body cb rate start T grabbed s) as [s1|] eqn:Hbody; [|exact HQ].
    pose proof (loop_body_inv _ _ _ _ _ _ _ _ _ _ Hfirst Hcap Hinv Hbody) as Hinv1.
    pose proof (loop_body_idx _ _ _ _ _ _ _ _ _ Hinv Hbody) as Hidx.
    apply drop_head in Hcap as [Hl Hcap].
    apply IH; [|exact Hinv1|exact (Hstep s grabbed s1 Hinv HQ Hl Hbody)].
    rewrite Hidx. replace (Z.to_nat (frame_idx s + 1)) with (Z.to_nat (frame_idx s) + 1)%nat;
      [exact Hcap|].
    destruct Hinv as (Hge & _). lia.
Qed.

(** What holds when the loop of an analysis is left. *)
Lemma final_state_rule cap rate start end_frame cb (Q : locals -> Prop) :
  let T := estimated_total cap rate start end_frame in
  Q (loop_entry (frame_count cap) (fps cap) rate start T) ->
  (forall s grabbed s1,
     walk_inv (stream cap) cb rate start T (first_index start) s -> Q s ->
     stream cap !! Z.to_nat (frame_idx s) = Some grabbed ->
     loop_body cb rate start T grabbed s = Some s1 -> Q s1) ->
  Q (final_state cap rate start end_frame cb).
Proof.
  intros T Hentry Hstep. unfold final_state.
  apply (frame_loop_rule (stream cap) cb rate start _ T (first_index start) Q
           (first_index_nonneg start) Hstep).
  - apply entry_position.
  - apply entry_inv.
  - exact Hentry.
Qed.

End Turn.

(** ** The lines printed during the walk *)

Section Printed.

Lemma count_and_report_result cb T s :
  snd ((count_frame ≫= λ _, report_progress cb T) s) = answer cb (analyzed_count s + 1) T.
Proof.
  unfold mbind, M_bind, count_frame, report_progress, answer.
  destruct cb as [f|]; cbn [analyzed_count with_stats with_analyzed_count]; [|reflexivity].
  destruct (f _ _); reflexivity.
Qed.

Ltac next_statement :=
  erewrite bind_ok;
  [|first [apply stats_append_ok | apply stats_incr_ok | reflexivity];
    cbn [stats with_stats]; simplify_map_eq; reflexivity].

(** The [try] block on a frame that converts ends as the callback does. *)
Lemma analyze_frame_result cb T frame g s cl ex co n b u o l :
  cvtColor frame = Ok g ->
  tallies (stats s) cl ex co n b u o l -> analyzed_count s = n ->
  snd (analyze_frame cb T frame s) = answer cb (n + 1) T.
Proof.
  intros Hg (Hcl & Hex & Hco & Hn & Hb & Hu & Ho & Hl) Hc.
  unfold analyze_frame.
  erewrite bind_ok by (unfold lift; rewrite Hg; reflexivity).
  generalize (flt (laplacian_var g) (float_const MIN_CLARITY)) as blurry.
  generalize (flt (mean g) (float_const MIN_EXPOSURE)) as under.
  generalize (fgt (mean g) (float_const MAX_EXPOSURE)) as over.
  generalize (flt (std g) (float_const MIN_CONTRAST)) as low.
  intros low over under blurry.
  next_statement.
  destruct blurry; cbn [when]; next_statement; next_statement.
  all: destruct under; [|destruct over]; next_statement; next_statement.
  all: destruct low; cbn [when]; next_statement.
  all: rewrite count_and_report_result; cbn [analyzed_count with_stats]; rewrite Hc;
    reflexivity.
Qed.

(** The [try] statement on a frame that converts prints a line exactly
    when the callback raises. *)
Lemma try_converted_stdout cb T frame g s gs :
  cvtColor frame = Ok g ->
  records (stats s) gs -> analyzed_count s = Z.of_nat (length gs) ->
  stdout (fst (try_except (analyze_frame cb T frame) print_failure s))
  = stdout s ++ match answer cb (Z.of_nat (length gs) + 1) T with
                | Raise e => [failure_line (frame_idx s) e]
                | Ok _ => []
                end.
Proof.
  intros Hg Hr Hc.
  pose proof (analyze_frame_result cb T frame g s _ _ _ _ _ _ _ _ Hg Hr Hc) as Hres.
  destruct (analyze_frame_tallies cb T frame g s _ _ _ _ _ _ _ _ Hg Hr Hc)
    as (s' & r & Heq & _ & _ & Hi & Ho & _).
  unfold try_except. rewrite Heq in Hres |- *. cbn [snd] in Hres. rewrite <- Hres.
  destruct r as [[]|e]; cbn [fst print_failure stdout with_stdout].
  - rewrite app_nil_r. exact Ho.
  - rewrite Ho, Hi. reflexivity.
Qed.

Lemma warnings_succ frames cb rate start T first i :
  first <= i ->
  warnings frames cb rate start T first (i + 1)
  = warnings frames cb rate start T first i ++ warning_at frames cb rate start T first i.
Proof.
  intros Hi. unfold warnings.
  replace (i + 1 - first) with (i - first + 1) by lia.
  rewrite seqZ_snoc by lia. rewrite fmap_app, join_app. cbn [fmap list_fmap mjoin list_join].
  replace (first + (i - first)) with i by lia. rewrite app_nil_r. reflexivity.
Qed.

Lemma warnings_empty frames cb rate start T first :
  warnings frames cb rate start T first first = [].
Proof. unfold warnings. rewrite seqZ_nil by lia. reflexivity. Qed.

(** A turn prints the lines of the frame it is at. *)
Lemma loop_body_stdout frames cb rate start T first grabbed s s1 :
  walk_inv frames cb rate start T first s ->
  frames !! Z.to_nat (frame_idx s) = Some grabbed ->
  loop_body cb rate start T grabbed s = Some s1 ->
  stdout s1 = stdout s ++ warning_at frames cb rate start T first (frame_idx s).
Proof.
  intros (_ & Hr & Ha & _) Hl Hbody. unfold loop_body in Hbody. unfold warning_at.
  fold (sampled rate start (frame_idx s)) in Hbody.
  destruct (sampled rate start (frame_idx s)).
  - rewrite Hl. destruct grabbed as [frame|]; [|discriminate Hbody].
    injection Hbody as <-. cbn [next_frame stdout with_frame_idx].
    destruct (cvtColor frame) as [g|e] eqn:Hcv.
    + rewrite (try_converted_stdout cb T frame g s _ Hcv Hr Ha).
      unfold answer, callback_outcome. destruct cb as [f|]; [|reflexivity].
      destruct (f _ _); reflexivity.
    + apply (try_unconverted cb T frame e s Hcv).
  - injection Hbody as <-. cbn [next_frame stdout with_frame_idx].
    rewrite app_nil_r. reflexivity.
Qed.

Lemma final_state_stdout cap rate start end_frame cb :
  let s := final_state cap rate start end_frame cb in
  stdout s
  = warnings (stream cap) cb rate start (estimated_total cap rate start end_frame)
      (first_index start) (frame_idx s).
Proof.
  apply (final_state_rule cap rate start end_frame cb
           (fun s => stdout s
                     = warnings (stream cap) cb rate start
                         (estimated_total cap rate start end_frame)
                         (first_index start) (frame_idx s))).
  - unfold loop_entry. cbn [stdout frame_idx]. fold (first_index start).
    rewrite warnings_empty. reflexivity.
  - intros s grabbed s1 Hinv HQ Hl Hbody.
    rewrite (loop_body_idx _ _ _ _ _ _ _ _ _ Hinv Hbody).
    rewrite warnings_succ by apply Hinv.
    rewrite (loop_body_stdout _ _ _ _ _ _ _ _ _ Hinv Hl Hbody), HQ. reflexivity.
Qed.

(** Of the frames walked, each one the stride selects is counted or has a
    line printed, and not both, when the callback does not raise. *)
Lemma warnings_count frames cb rate start T first stop :
  quiet cb -> first <= stop ->
  (forall i, first <= i < stop ->
     exists grabbed, frames !! Z.to_nat i = Some grabbed /\
       (sampled rate start i = true -> is_Some grabbed)) ->
  (length (warnings frames cb rate start T first stop)
   + length (analyzed frames rate start first stop)
   = length (selected_indices rate start first stop))%nat.
Proof.
  intros Hq Hle.
  replace stop with (first + Z.of_nat (Z.to_nat (stop - first))) by lia.
  induction (Z.to_nat (stop - first)) as [|k IH]; intros Hgrab.
  - rewrite Z.add_0_r, warnings_empty, analyzed_empty.
    unfold selected_indices. rewrite seqZ_nil by lia. reflexivity.
  - replace (first + Z.of_nat (S k)) with (first + Z.of_nat k + 1) in * by lia.
    rewrite warnings_succ, analyzed_succ, selected_succ by lia. rewrite !length_app.
    assert (IH' := IH (fun i (Hi : first <= i < first + Z.of_nat k) =>
                         Hgrab i (conj (proj1 Hi) (Z.lt_lt_succ_r _ _ (proj2 Hi))))).
    destruct (Hgrab (first + Z.of_nat k)) as (grabbed & Hl & Hsome); [lia|].
    unfold warning_at, gray_at. destruct (sampled rate start (first + Z.of_nat k)).
    + rewrite Hl. destruct (Hsome eq_refl) as [frame ->].
      destruct (cvtColor frame) as [g|e]; cbn [option_list option_rect length]; [|lia].
      replace (callback_outcome _ _ _ _ _ _ _) with (@None exn); [cbn [length]; lia|].
      unfold callback_outcome. destruct cb as [f|]; [|reflexivity]. symmetry. apply Hq.
    + cbn [option_list option_rect length]. lia.
Qed.

Lemma printed_final_state cap rate start end_frame cb :
  isOpened cap = true -> rate <> 0 ->
  printed (analyze_video_quality cap rate start end_frame cb)
  = stdout (final_state cap rate start end_frame cb).
Proof.
  intros Hopen Hrate. rewrite analyze_video_quality_cases, Hopen. cbn [negb].
  apply Z.eqb_neq in Hrate. rewrite Hrate. cbv zeta.
  destruct (analyzed_count _ =? 0); reflexivity.
Qed.

End Printed.

(** X3. The lines an analysis prints are the warnings of the frames it
    walked, in frame order: one line, naming the frame index and the
    exception, for each selected frame whose conversion raises and for each
    analyzed frame at which the callback raises, and no other line. *)
Theorem printed_lines_are_frame_warnings cap sample_rate start_frame end_frame cb :
  isOpened cap = true -> sample_rate <> 0 ->
  printed (analyze_video_quality cap sample_rate start_frame end_frame cb)
  = warnings (stream cap) cb sample_rate start_frame
      (estimated_total cap sample_rate start_frame end_frame)
      (first_index start_frame)
      (frame_idx (final_state cap sample_rate start_frame end_frame cb)).
Proof.
  intros Hopen Hrate. rewrite (printed_final_state _ _ _ _ _ Hopen Hrate).
  apply final_state_stdout.
Qed.

Lemma printed_lines_are_frame_warnings_witness :
  printed (analyze_video_quality sample_capture 1 0 None None)
  = [failure_line 2 (Exn OtherException "cv2.error")].
Proof.
  rewrite (printed_lines_are_frame_warnings sample_capture 1 0 None None eq_refl);
    [|discriminate].
  vm_compute. reflexivity.
Defined.

(** X4. With no callback, or one that never raises, every selected frame
    of the walk is accounted for once: the number of printed lines and the
    number of frames analyzed add up to the number of indices the stride
    selects between the first index and the index at which the walk
    stopped. *)
Theorem selected_frames_counted_or_reported cap sample_rate start_frame end_frame cb :
  isOpened cap = true -> sample_rate <> 0 -> quiet cb ->
  let a := analyze_video_quality cap sample_rate start_frame end_frame cb in
  let s := final_state cap sample_rate start_frame end_frame cb in
  Z.of_nat (length (printed a)) + analyzed_count s
  = Z.of_nat (length (selected_indices sample_rate start_frame (first_index start_frame)
                        (frame_idx s))).
Proof.
  intros Hopen Hrate Hq. cbv zeta.
  rewrite (printed_final_state _ _ _ _ _ Hopen Hrate), final_state_stdout.
  destruct (final_state_inv cap sample_rate start_frame end_frame cb)
    as ((Hle & _ & Ha & _ & Hgrab) & _).
  rewrite Ha, <- Nat2Z.inj_add. f_equal.
  apply warnings_count; assumption.
Qed.

Lemma selected_frames_counted_or_reported_witness :
  Z.of_nat (length (printed (analyze_video_quality sample_capture 1 0 None None)))
  + analyzed_count (final_state sample_capture 1 0 None None)
  = 5.
Proof.
  rewrite (selected_frames_counted_or_reported sample_capture 1 0 None None eq_refl);
    [vm_compute; reflexivity|discriminate|exact I].
Defined.

(** ** Captures whose frames are all there *)

Section Healthy.

Lemma sampled_start rate start : sampled rate start start = true.
Proof. unfold sampled. rewrite Z.sub_diag, Zmod_0_l. reflexivity. Qed.

Lemma gray_at_healthy cap rate start first stop i :
  healthy cap first stop -> first <= i < stop -> sampled rate start i = true ->
  is_Some (gray_at (stream cap) rate start i).
Proof.
  intros Hh Hi Hs. destruct (Hh i Hi) as (frame & g & Hl & Hcv).
  unfold gray_at. rewrite Hs, Hl, Hcv. eauto.
Qed.

Lemma analyzed_healthy cap rate start first stop :
  healthy cap first stop ->
  length (analyzed (stream cap) rate start first stop)
  = length (selected_indices rate start first stop).
Proof.
  intros Hh. unfold analyzed, selected_indices. apply omap_filter_all.
  - intros i g. apply gray_at_selected.
  - intros i Hi Hs. apply elem_of_seqZ in Hi.
    apply (gray_at_healthy cap rate start first stop); [exact Hh|lia|exact Hs].
Qed.

Lemma healthy_prefix cap first stop stop' :
  stop' <= stop -> healthy cap first stop -> healthy cap first stop'.
Proof. intros Hle Hh i Hi. apply Hh. lia. Qed.

(** The walk of a healthy range stops at its end. *)
Lemma healthy_stop cap rate start end_frame cb :
  let actual_end := clamp_end end_frame (frame_count cap) in
  first_index start <= actual_end ->
  healthy cap (first_index start) actual_end ->
  frame_idx (final_state cap rate start end_frame cb) = actual_end.
Proof.
  intros actual_end Hle Hh.
  destruct (final_state_inv cap rate start end_frame cb) as (_ & Hrange & Hend).
  fold actual_end in Hrange, Hend.
  destruct (Z_lt_le_dec (frame_idx (final_state cap rate start end_frame cb)) actual_end)
    as [Hlt|Hge]; [|lia].
  destruct (Hh _ (conj (proj1 Hrange) Hlt)) as (frame & g & Hl & _).
  destruct (Hend Hlt) as [Hnone|[_ Hnone]]; rewrite Hl in Hnone; discriminate Hnone.
Qed.

Lemma analyzed_first frames rate start first stop frame g :
  first < stop -> sampled rate start first = true ->
  frames !! Z.to_nat first = Some (Some frame) -> cvtColor frame = Ok g ->
  analyzed frames rate start first stop = g :: analyzed frames rate start (first + 1) stop.
Proof.
  intros Hlt Hs Hl Hcv. unfold analyzed.
  rewrite seqZ_cons by lia. cbn [omap list_omap].
  rewrite (gray_at_sampled _ _ _ _ frame Hs Hl), Hcv.
  replace (Z.pred (stop - first)) with (stop - (first + 1)) by lia. reflexivity.
Qed.

Lemma returned_final_state cap rate start end_frame cb :
  isOpened cap = true -> rate <> 0 ->
  let s := final_state cap rate start end_frame cb in
  analyzed_count s <> 0 ->
  returned (analyze_video_quality cap rate start end_frame cb)
  = (true,
     analysis_message (analyzed_count s) start (clamp_end end_frame (frame_count cap)) rate,
     stats s).
Proof.
  intros Hopen Hrate s Hne. rewrite analyze_video_quality_cases, Hopen. cbn [negb].
  apply Z.eqb_neq in Hrate, Hne. rewrite Hrate. cbv zeta. fold s. rewrite Hne. reflexivity.
Qed.

Lemma calls_final_state cap rate start end_frame cb :
  isOpened cap = true -> rate <> 0 ->
  let s := final_state cap rate start end_frame cb in
  callback_calls (analyze_video_quality cap rate start end_frame cb)
  = match cb with
    | Some _ => progress_reports (analyzed_count s) (estimated_total cap rate start end_frame)
    | None => []
    end.
Proof.
  intros Hopen Hrate s. rewrite analyze_video_quality_cases, Hopen. cbn [negb].
  apply Z.eqb_neq in Hrate. rewrite Hrate. cbv zeta. fold s.
  destruct (final_state_inv cap rate start end_frame cb) as ((_ & _ & _ & Hp & _) & _).
  destruct (analyzed_count s =? 0); exact Hp.
Qed.

Lemma warnings_healthy cap cb rate start T first stop :
  quiet cb -> first <= stop -> healthy cap first stop ->
  warnings (stream cap) cb rate start T first stop = [].
Proof.
  intros Hq Hle Hh. apply length_zero_iff_nil.
  assert (Hgrab : forall i, first <= i < stop ->
            exists grabbed, stream cap !! Z.to_nat i = Some grabbed /\
              (sampled rate start i = true -> is_Some grabbed)).
  { intros i Hi. destruct (Hh i Hi) as (frame & g & Hl & _). eauto. }
  pose proof (warnings_count (stream cap) cb rate start T first stop Hq Hle Hgrab) as Hc.
  rewrite (analyzed_healthy cap rate start first stop Hh) in Hc. lia.
Qed.

End Healthy.

(** X5. When every frame of the range is there and converts, and the
    stride is positive, the estimate of line 104 is exact: the analysis
    succeeds, [num_images] equals [frames_analyzed], the message reports
    that many frames, the callback is called once for each count from 1 to
    the total, so that its last call reports completion, and nothing is
    printed unless the callback raises. *)
Theorem healthy_capture_meets_estimate cap sample_rate start_frame end_frame cb :
  isOpened cap = true -> 0 < sample_rate -> 0 <= start_frame ->
  let actual_end_frame := clamp_end end_frame (frame_count cap) in
  let total := estimated_total cap sample_rate start_frame end_frame in
  let a := analyze_video_quality cap sample_rate start_frame end_frame cb in
  start_frame < actual_end_frame ->
  healthy cap start_frame actual_end_frame ->
  0 < total /\
  (exists d,
     returned a
       = (true, analysis_message total start_frame actual_end_frame sample_rate, d) /\
     d !! "num_images" = Some (PyInt total) /\
     d !! "frames_analyzed" = Some (PyInt total)) /\
  callback_calls a
    = match cb with Some _ => progress_reports total total | None => [] end /\
  (quiet cb -> printed a = []).
Proof.
  intros Hopen Hrate Hstart actual_end total a Hlt Hh.
  assert (Hne : sample_rate <> 0) by lia.
  pose proof (first_index_start start_frame Hstart) as Hfirst.
  pose proof (healthy_stop cap sample_rate start_frame end_frame cb) as Hstop.
  cbv zeta in Hstop. rewrite Hfirst in Hstop. fold actual_end in Hstop.
  specialize (Hstop ltac:(lia) Hh).
  destruct (final_state_inv cap sample_rate start_frame end_frame cb)
    as ((_ & (_ & _ & _ & Hn & _) & Ha & _) & _).
  destruct (final_state_keeps cap sample_rate start_frame end_frame cb)
    as (_ & _ & _ & Htotal & _).
  set (s := final_state cap sample_rate start_frame end_frame cb) in *.
  rewrite Hfirst, Hstop in Ha, Hn.
  rewrite (analyzed_healthy cap sample_rate start_frame start_frame actual_end Hh) in Ha, Hn.
  rewrite (selected_count sample_rate start_frame start_frame actual_end Hrate) in Ha, Hn by lia.
  rewrite estimate_start, Z.sub_0_r in Ha, Hn by exact Hrate.
  change (estimate sample_rate start_frame actual_end) with total in Ha, Hn.
  assert (Hpos : 0 < total).
  { pose proof (estimate_mono sample_rate start_frame (start_frame + 1) actual_end Hrate
                  ltac:(lia)) as Hm.
    rewrite estimate_succ, estimate_start, sampled_start in Hm by exact Hrate.
    cbn [bit] in Hm. change (estimate sample_rate start_frame actual_end) with total in Hm.
    lia. }
  split; [exact Hpos|]. split; [|split].
  - exists (stats s). split; [|split; [exact Hn|exact Htotal]].
    unfold a. rewrite (returned_final_state _ _ _ _ _ Hopen Hne); fold s; rewrite Ha.
    + reflexivity.
    + lia.
  - unfold a. rewrite (calls_final_state _ _ _ _ _ Hopen Hne). fold s. rewrite Ha.
    reflexivity.
  - intros Hq. unfold a.
    rewrite (printed_final_state _ _ _ _ _ Hopen Hne), final_state_stdout.
    fold s. rewrite Hfirst, Hstop.
    apply warnings_healthy; [exact Hq|lia|exact Hh].
Qed.

Lemma healthy_three_frames : healthy three_frames 0 3.
Proof.
  intros i Hi. assert (i = 0 \/ i = 1 \/ i = 2) as [->|[->| ->]] by lia;
    eexists _, _; (split; [reflexivity|reflexivity]).
Qed.

Lemma healthy_capture_meets_estimate_witness :
  callback_calls (analyze_video_quality three_frames 2 0 None (Some quiet_callback))
  = progress_reports 2 2.
Proof.
  destruct (healthy_capture_meets_estimate three_frames 2 0 None (Some quiet_callback))
    as (_ & _ & Hcalls & _);
    [reflexivity|lia|lia|reflexivity|exact healthy_three_frames|exact Hcalls].
Defined.

(** X6. An opened capture whose frame at [start_frame] is retrieved and
    converts is analyzed successfully whatever else the stream holds and
    whatever the non-zero stride is, provided the range is not empty: that
    frame is always selected, and its metrics are the first of the three
    metric sequences. *)
Theorem first_frame_suffices cap sample_rate start_frame end_frame cb frame g :
  isOpened cap = true -> sample_rate <> 0 ->
  0 <= start_frame < clamp_end end_frame (frame_count cap) ->
  stream cap !! Z.to_nat start_frame = Some (Some frame) ->
  cvtColor frame = Ok g ->
  exists msg d n clarity exposure contrast,
    returned (analyze_video_quality cap sample_rate start_frame end_frame cb)
      = (true, msg, d) /\
    d !! "num_images" = Some (PyInt n) /\ 1 <= n /\
    d !! "clarity" = Some (PyList (laplacian_var g :: clarity)) /\
    d !! "exposure" = Some (PyList (mean g :: exposure)) /\
    d !! "contrast" = Some (PyList (std g :: contrast)).
Proof.
  intros Hopen Hrate [Hstart Hlt] Hl Hcv.
  pose proof (first_index_start start_frame Hstart) as Hfirst.
  destruct (final_state_inv cap sample_rate start_frame end_frame cb)
    as ((_ & (Hcl & Hex & Hco & Hn & _) & Ha & _) & Hrange & Hend).
  set (s := final_state cap sample_rate start_frame end_frame cb) in *.
  rewrite Hfirst in *.
  assert (Hmoved : start_frame < frame_idx s).
  { destruct (Z.eq_dec (frame_idx s) start_frame) as [Heq|]; [|lia].
    rewrite Heq in Hend.
    destruct (Hend Hlt) as [Hnone|[_ Hnone]]; rewrite Hl in Hnone; discriminate Hnone. }
  rewrite (analyzed_first _ _ _ _ _ frame g Hmoved (sampled_start _ _) Hl Hcv)
    in Ha, Hn, Hcl, Hex, Hco.
  cbn [length fmap list_fmap] in Ha, Hn, Hcl, Hex, Hco.
  eexists _, (stats s), _, _, _, _.
  split; [apply (returned_final_state _ _ _ _ _ Hopen Hrate); fold s; lia|].
  split; [exact Hn|]. split; [lia|]. split; [exact Hcl|]. split; [exact Hex|exact Hco].
Qed.

Lemma first_frame_suffices_witness :
  exists msg d,
    returned (analyze_video_quality sample_capture (-7) 3 (Some 9) None) = (true, msg, d).
Proof.
  destruct (first_frame_suffices sample_capture (-7) 3 (Some 9) None
              (Image (Ok (Gray (float_const 100) (float_const 120) (float_const 40))))
              (Gray (float_const 100) (float_const 120) (float_const 40)))
    as (msg & d & n & clarity & exposure & contrast & Hret & _);
    [reflexivity|lia|vm_compute; split; [discriminate|reflexivity]|reflexivity|reflexivity|].
  exists msg, d. exact Hret.
Defined.

(** ** The report of [validate_quality] *)

Section Report.

Lemma judge_details b u o l :
  let e := fadd u o in
  exists msg vr,
    judge b u o l = (true, msg, Some vr) /\
    ValidationResult.details vr !! "clarity"
      = Some (if fgt b MAX_BLURRY_PCT then [clarity_issue b] else []) /\
    ValidationResult.details vr !! "exposure"
      = Some (if fgt e MAX_EXPOSURE_PCT then exposure_issue e :: exposure_sublines u o
              else []) /\
    ValidationResult.details vr !! "contrast"
      = Some (if fgt l MAX_LOW_CONTRAST_PCT then [contrast_issue l] else []) /\
    dom (ValidationResult.details vr) = detail_keys /\
    ValidationResult.issues vr = raised b e l /\
    ValidationResult.passed vr = is_empty (raised b e l).
Proof.
  cbv zeta. unfold judge, check_contrast, check_exposure, check_clarity, report, raised,
    exposure_sublines, details_append, no_details.
  generalize (clarity_issue b) (exposure_issue (fadd u o)) (contrast_issue l).
  generalize ("  - Under-exposed: " +:+ format_1f u +:+ "%").
  generalize ("  - Over-exposed: " +:+ format_1f o +:+ "%").
  intros so su ic ie il.
  destruct (fgt b MAX_BLURRY_PCT), (fgt (fadd u o) MAX_EXPOSURE_PCT),
    (fgt l MAX_LOW_CONTRAST_PCT), (fgt u (float_const 0)), (fgt o (float_const 0));
    eexists _, _; (split; [reflexivity|]);
    cbn [ValidationResult.details ValidationResult.issues ValidationResult.passed app];
    repeat split; try (apply (bool_decide_unpack _); vm_compute; exact I);
    simplify_map_eq; reflexivity.
Qed.

Lemma is_empty_cons issue issues : is_empty (issue :: issues) = false.
Proof. unfold is_empty. cbn [length]. apply Z.eqb_neq. lia. Qed.

End Report.

(** X7. In every result [validate_quality] returns, [details] has the
    three keys clarity, exposure and contrast; the entry of a check is empty
    when the check raised no issue and begins with its issue otherwise, the
    exposure entry alone going on with at most two lines for its under- and
    over-exposed parts; [issues] lists the first lines of the non-empty
    entries in the order of the checks, and [passed] holds exactly when the
    three entries are empty. *)
Theorem details_agree_with_issues (stats : gmap string pyval) msg vr :
  validate_quality stats = Ok (true, msg, Some vr) ->
  let details := ValidationResult.details vr in
  dom details = detail_keys /\
  ValidationResult.issues vr = headlines details /\
  (ValidationResult.passed vr = true <->
     details !! "clarity" = Some [] /\ details !! "exposure" = Some [] /\
     details !! "contrast" = Some []) /\
  (exists clarity exposure contrast,
     details !! "clarity" = Some clarity /\ details !! "exposure" = Some exposure /\
     details !! "contrast" = Some contrast /\
     (length clarity <= 1)%nat /\ (length exposure <= 3)%nat /\ (length contrast <= 1)%nat /\
     (length (ValidationResult.issues vr) <= 3)%nat).
Proof.
  intros Hv. apply validate_quality_judged in Hv as (b & u & o & l & Hj).
  destruct (judge_details b u o l) as (msg' & vr' & Hj' & Hc & He & Hl & Hd & Hi & Hp).
  rewrite Hj in Hj'. injection Hj' as <- <-. cbv zeta.
  split; [exact Hd|]. unfold headlines. rewrite Hc, He, Hl, Hi, Hp. unfold raised.
  unfold exposure_sublines.
  destruct (fgt b MAX_BLURRY_PCT), (fgt (fadd u o) MAX_EXPOSURE_PCT),
    (fgt l MAX_LOW_CONTRAST_PCT), (fgt u (float_const 0)), (fgt o (float_const 0));
    cbn [default from_option take app]; rewrite ?is_empty_cons;
    try change (is_empty []) with true;
    (split; [reflexivity|]);
    (split; [split; [intros H; try discriminate H; auto|intros (H1 & H2 & H3); congruence]|]);
    eexists _, _, _; repeat split; cbn [length]; lia.
Qed.

Lemma details_agree_with_issues_witness :
  exists msg vr,
    validate_quality twelve_in_hundred = Ok (true, msg, Some vr) /\
    ValidationResult.issues vr = headlines (ValidationResult.details vr).
Proof.
  destruct (validate_quality twelve_in_hundred) as [[[ok msg] [vr|]]|e] eqn:Hv;
    try (vm_compute in Hv; discriminate Hv).
  assert (Hok : ok = true) by (vm_compute in Hv; congruence). subst ok.
  exists msg, vr. split; [reflexivity|].
  apply (details_agree_with_issues twelve_in_hundred msg vr Hv).
Defined.

(** ** What [run] depends on *)

(** X8. The verdict of [run] depends neither on the progress callback nor
    on whether a summary is asked for, nor on what [get_quality_summary]
    does, nor on the clock: two runs on the same video with the same stride
    and range return outputs that differ at most in [summary] and in
    [created_at], which is the time each run read at line 342. Without
    [include_summary] the summary is empty. *)
Theorem run_verdict_ignores_callback_and_summary
    env env' self sample_rate start_frame end_frame include_summary include_summary' cb cb' :
  same_videos env env' ->
  on_result (fun out => without_created_at (without_summary out))
    (run env self sample_rate start_frame end_frame include_summary cb)
  = on_result (fun out => without_created_at (without_summary out))
      (run env' self sample_rate start_frame end_frame include_summary' cb') /\
  (forall out,
     run env self sample_rate start_frame end_frame include_summary cb = Ok out ->
     ValidationPipelineOutput.created_at out = utc_now env) /\
  (forall out,
     run env self sample_rate start_frame end_frame false cb = Ok out ->
     ValidationPipelineOutput.summary out = "").
Proof.
  intros (Hpath & Hopen). unfold run. rewrite <- Hopen.
  rewrite (returned_any_callback _ _ _ _ cb' cb).
  destruct (returned _) as [[ok msg] stats].
  destruct ok; cbn [negb];
    [|split; [reflexivity|split; intros out [= <-]; reflexivity]].
  destruct (validate_quality stats) as [[[vok vmsg] vr]|e]; cbn [mbind result_bind];
    [|split; [reflexivity|split; discriminate]].
  destruct vok; cbn [negb];
    (split; [reflexivity|split; intros out [= <-]; reflexivity]).
Qed.

Lemma run_verdict_ignores_callback_and_summary_witness :
  on_result (fun out => without_created_at (without_summary out))
    (run sample_environment {| video_path := "clip.mp4" |} 30 0 None true (Some raising_callback))
  = on_result (fun out => without_created_at (without_summary out))
      (run {| path_exists := path_exists sample_environment;
              open_video := open_video sample_environment;
              utc_now := "2025-06-30T12:00:00+00:00";
              get_quality_summary := fun _ _ => Raise (Exn OtherException "no summary") |}
           {| video_path := "clip.mp4" |} 30 0 None false None).
Proof.
  apply (run_verdict_ignores_callback_and_summary sample_environment).
  split; reflexivity.
Defined.

(** X9. With a negative [start_frame] the capture is not repositioned and
    the walk starts at frame 0, while the stride and the estimate of line
    104 are still anchored at [start_frame]: on a capture whose frames are
    all there, the frames analyzed are the estimate less the frames it
    counts before frame 0, of which there is at least one. So the analysis
    fails with "No frames were analyzed." when the stride selects no frame
    of the capture, and otherwise [num_images] is below [frames_analyzed]
    and no call of the callback reports completion. *)
Theorem negative_start_never_completes cap sample_rate start_frame end_frame cb :
  isOpened cap = true -> 0 < sample_rate -> start_frame < 0 ->
  let actual_end_frame := clamp_end end_frame (frame_count cap) in
  let total := estimated_total cap sample_rate start_frame end_frame in
  let before := estimate sample_rate start_frame 0 in
  let a := analyze_video_quality cap sample_rate start_frame end_frame cb in
  0 <= actual_end_frame ->
  healthy cap 0 actual_end_frame ->
  0 < before <= total /\
  (total = before -> returned a = (false, "No frames were analyzed.", ∅)) /\
  (total <> before ->
   exists d,
     returned a
       = (true,
          analysis_message (total - before) start_frame actual_end_frame sample_rate, d) /\
     d !! "num_images" = Some (PyInt (total - before)) /\
     d !! "frames_analyzed" = Some (PyInt total)) /\
  callback_calls a
    = match cb with Some _ => progress_reports (total - before) total | None => [] end.
Proof.
  intros Hopen Hrate Hstart actual_end total before a Hend Hh.
  assert (Hne : sample_rate <> 0) by lia.
  assert (Hfirst : first_index start_frame = 0).
  { unfold first_index. destruct (0 <? start_frame) eqn:E; [apply Z.ltb_lt in E; lia|reflexivity]. }
  pose proof (healthy_stop cap sample_rate start_frame end_frame cb) as Hstop.
  cbv zeta in Hstop. rewrite Hfirst in Hstop. fold actual_end in Hstop.
  specialize (Hstop Hend Hh).
  destruct (final_state_inv cap sample_rate start_frame end_frame cb)
    as ((_ & (_ & _ & _ & Hn & _) & Ha & _) & _).
  destruct (final_state_keeps cap sample_rate start_frame end_frame cb)
    as (_ & _ & _ & Htotal & _).
  pose proof (analyze_video_quality_cases cap sample_rate start_frame end_frame cb) as Hcases.
  pose proof (calls_final_state cap sample_rate start_frame end_frame cb Hopen Hne) as Hcalls.
  fold a in Hcases, Hcalls. cbv zeta in Hcases, Hcalls.
  rewrite Hopen in Hcases. cbn [negb] in Hcases.
  rewrite (proj2 (Z.eqb_neq sample_rate 0) Hne) in Hcases.
  set (s := final_state cap sample_rate start_frame end_frame cb) in *.
  rewrite Hfirst, Hstop in Ha, Hn.
  rewrite (analyzed_healthy cap sample_rate start_frame 0 actual_end Hh) in Ha, Hn.
  rewrite (selected_count sample_rate start_frame 0 actual_end Hrate Hend) in Ha, Hn.
  change (estimate sample_rate start_frame actual_end) with total in Ha, Hn.
  fold before in Ha, Hn.
  assert (Hbefore : 0 < before <= total).
  { split.
    - unfold before, estimate.
      pose proof (Z.div_le_lower_bound (0 - start_frame + sample_rate - 1) sample_rate 1
                    Hrate ltac:(lia)). lia.
    - apply (estimate_mono sample_rate start_frame 0 actual_end Hrate Hend). }
  split; [exact Hbefore|]. split; [|split].
  - intros Heq. rewrite Hcases. rewrite Ha.
    replace (total - before =? 0) with true by (symmetry; apply Z.eqb_eq; lia). reflexivity.
  - intros Hneq. exists (stats s). rewrite Hcases. rewrite Ha.
    replace (total - before =? 0) with false by (symmetry; apply Z.eqb_neq; lia).
    cbn [returned]. split; [reflexivity|]. split; [exact Hn|exact Htotal].
  - rewrite Hcalls, Ha. reflexivity.
Qed.

Lemma negative_start_never_completes_witness :
  callback_calls (analyze_video_quality three_frames 2 (-1) None (Some quiet_callback))
  = progress_reports 1 2.
Proof.
  destruct (negative_start_never_completes three_frames 2 (-1) None (Some quiet_callback))
    as (_ & _ & _ & Hcalls);
    [reflexivity|lia|lia|vm_compute; discriminate|exact healthy_three_frames|exact Hcalls].
Defined.

(** ** The threshold in terms of the counters *)

Section Threshold.

Lemma Zdigits2_exact m k : 0 <= k -> 2 ^ k <= m < 2 ^ (k + 1) -> Zdigits2 m = k + 1.
Proof.
  intros Hk [Hlo Hhi].
  assert (0 < 2 ^ k) by (apply Z.pow_pos_nonneg; lia).
  pose proof (Zdigits2_lower m k Hk Hlo).
  pose proof (Zdigits2_bound m (k + 1) ltac:(lia) ltac:(lia) Hhi). lia.
Qed.

Lemma loc_of_shr_record_of_loc m l : loc_of_shr_record (shr_record_of_loc m l) = l.
Proof. destruct l as [|[]]; reflexivity. Qed.

Lemma round_nearest_even_lower m l : m <= round_nearest_even m l.
Proof. destruct l as [|[]]; simpl; try destruct (Z.even m); lia. Qed.

(** A mantissa of 53 bits is kept as it is. *)
Lemma shr_fexp_normal m e l :
  2 ^ 52 <= m < 2 ^ 53 -> -1074 <= e ->
  shr_fexp prec emax m e l = (shr_record_of_loc m l, e).
Proof.
  intros Hm He. unfold shr_fexp. rewrite (Zdigits2_exact m 52) by (change (52 + 1) with 53; lia).
  unfold fexp, emin, prec, emax.
  replace (Z.max (52 + 1 + e - 53) (3 - 1024 - 53) - e) with 0 by lia. reflexivity.
Qed.

(** A mantissa of 54 bits loses its last bit. *)
Lemma shr_fexp_shift m e l :
  2 ^ 53 <= m < 2 ^ 54 -> -1074 <= e ->
  shr_fexp prec emax m e l = (shr_1 (shr_record_of_loc m l), e + 1).
Proof.
  intros Hm He. unfold shr_fexp. rewrite (Zdigits2_exact m 53) by (change (53 + 1) with 54; lia).
  unfold fexp, emin, prec, emax.
  replace (Z.max (53 + 1 + e - 53) (3 - 1024 - 53) - e) with 1 by lia. reflexivity.
Qed.

(** The second normalisation of [binary_round_aux]: a rounded mantissa of
    53 bits stays, and [2 ^ 53] becomes [2 ^ 52] one exponent higher. *)
Lemma round_finish m2 e1 :
  2 ^ 52 <= m2 <= 2 ^ 53 -> -1074 <= e1 <= 950 ->
  exists r e2 m,
    shr_fexp prec emax m2 e1 loc_Exact = (r, e2) /\ shr_m r = Z.pos m /\
    e2 <= emax - prec /\ 2 ^ 52 <= Z.pos m < 2 ^ 53 /\ e1 <= e2 /\
    Z.pos m * 2 ^ (e2 - e1) = m2.
Proof.
  intros Hm He. destruct (Z_lt_le_dec m2 (2 ^ 53)) as [Hlt|Hge].
  - rewrite shr_fexp_normal by lia. destruct m2 as [|p|p]; try lia.
    exists (shr_record_of_loc (Z.pos p) loc_Exact), e1, p.
    rewrite Z.sub_diag. unfold emax, prec. repeat split; lia.
  - assert (m2 = 2 ^ 53) as -> by lia.
    rewrite shr_fexp_shift by lia.
    exists (shr_1 (shr_record_of_loc (2 ^ 53) loc_Exact)), (e1 + 1), 4503599627370496%positive.
    replace (e1 + 1 - e1) with 1 by lia. unfold emax, prec.
    repeat split; try lia; reflexivity.
Qed.

(** Rounding a mantissa of 53 or 54 bits to nearest even: the result is
    normal, and its value in units of the exponent before rounding is
    within one unit of the mantissa, two units and even when a bit is
    lost. *)
Lemma binary_round_aux_shape q e l :
  2 ^ 52 <= q < 2 ^ 54 -> -1074 <= e <= 900 ->
  exists m e2,
    binary_round_aux prec emax false q e l = S754_finite false m e2 /\
    2 ^ 52 <= Z.pos m < 2 ^ 53 /\ e <= e2 /\
    q - 1 <= Z.pos m * 2 ^ (e2 - e) /\
    (q < 2 ^ 53 -> Z.pos m * 2 ^ (e2 - e) <= q + 1) /\
    (2 ^ 53 <= q -> exists w, Z.pos m * 2 ^ (e2 - e) = 2 * w /\ 2 * w <= q + 2).
Proof.
  intros Hq He. unfold binary_round_aux.
  destruct (Z_lt_le_dec q (2 ^ 53)) as [Hlt|Hge].
  - rewrite shr_fexp_normal by lia.
    rewrite shr_record_of_loc_m, loc_of_shr_record_of_loc.
    pose proof (round_nearest_even_lower q l) as Hlo.
    pose proof (round_nearest_even_bound q l ltac:(lia)) as Hhi.
    destruct (round_finish (round_nearest_even q l) e ltac:(lia) ltac:(lia))
      as (r & e2 & m & -> & -> & He2 & Hm & Hle & Hv).
    apply Z.leb_le in He2. rewrite He2.
    exists m, e2. split; [reflexivity|]. rewrite Hv.
    split; [exact Hm|]. split; [exact Hle|]. split; [lia|]. split; [lia|]. lia.
  - rewrite shr_fexp_shift by lia.
    set (r1 := shr_1 (shr_record_of_loc q l)).
    assert (Hr1 : shr_m r1 = q / 2).
    { unfold r1. rewrite shr_1_m, shr_record_of_loc_m by (rewrite shr_record_of_loc_m; lia).
      reflexivity. }
    pose proof (Z.div_mod q 2 ltac:(lia)) as Hdm.
    pose proof (Z.mod_pos_bound q 2 ltac:(lia)) as Hmod.
    pose proof (round_nearest_even_lower (shr_m r1) (loc_of_shr_record r1)) as Hlo.
    pose proof (round_nearest_even_bound (shr_m r1) (loc_of_shr_record r1)
                  ltac:(rewrite Hr1; lia)) as Hhi.
    set (m2 := round_nearest_even (shr_m r1) (loc_of_shr_record r1)) in *.
    rewrite Hr1 in Hlo, Hhi.
    destruct (round_finish m2 (e + 1) ltac:(lia) ltac:(lia))
      as (r & e2 & m & -> & -> & He2 & Hm & Hle & Hv).
    apply Z.leb_le in He2. rewrite He2.
    exists m, e2. split; [reflexivity|].
    assert (Hpow : Z.pos m * 2 ^ (e2 - e) = 2 * m2).
    { rewrite <- Hv. replace (e2 - e) with (1 + (e2 - (e + 1))) by lia.
      rewrite Z.pow_add_r by lia. lia. }
    rewrite Hpow.
    split; [exact Hm|]. split; [lia|]. split; [lia|]. split; [lia|].
    intros _. eexists. split; [reflexivity|lia].
Qed.

(** The core of the division of two positive integers whose quotient
    needs [s] more bits. *)
Lemma SFdiv_core_value a n s :
  0 < a -> 0 < n -> 0 < s ->
  Z.min (fexp prec emax (Zdigits2 a + 0 - (Zdigits2 n + 0))) (0 - 0) = - s ->
  exists l, SFdiv_core_binary prec emax a 0 n 0 = (a * 2 ^ s / n, - s, l).
Proof.
  intros Ha Hn Hs He. unfold SFdiv_core_binary. rewrite He.
  replace (0 - 0 - - s) with s by lia.
  assert (Hm : match s with Z.pos _ => Z.shiftl a s | 0 => a | Z.neg _ => 0 end = a * 2 ^ s).
  { destruct s; try lia. rewrite Z.shiftl_mul_pow2 by lia. reflexivity. }
  rewrite Hm. remember (a * 2 ^ s) as x eqn:Ex.
  assert (Hq : fst (Z.div_eucl x n) = x / n) by reflexivity.
  destruct (Z.div_eucl x n) as [q r]. cbn [fst] in Hq. subst q.
  eexists. reflexivity.
Qed.

(** The order of two normal positive floats is that of their values. *)
Lemma SFltb_normal m1 e1 m2 e2 e0 :
  2 ^ 52 <= Z.pos m1 < 2 ^ 53 -> 2 ^ 52 <= Z.pos m2 < 2 ^ 53 -> e0 <= e1 -> e0 <= e2 ->
  SFltb (S754_finite false m1 e1) (S754_finite false m2 e2) = true
  <-> Z.pos m1 * 2 ^ (e1 - e0) < Z.pos m2 * 2 ^ (e2 - e0).
Proof.
  intros H1 H2 He1 He2. unfold SFltb. cbn [SFcompare].
  assert (Hp1 : 0 < 2 ^ (e1 - e0)) by (apply Z.pow_pos_nonneg; lia).
  assert (Hp2 : 0 < 2 ^ (e2 - e0)) by (apply Z.pow_pos_nonneg; lia).
  destruct (Z.compare_spec e1 e2) as [->|Hlt|Hgt].
  - change (Pos.compare_cont Eq m1 m2) with (Pos.compare m1 m2).
    destruct (Pos.compare_spec m1 m2) as [->|Hm|Hm]; split; intros H;
      try reflexivity; try discriminate H; nia.
  - split; [intros _|reflexivity].
    replace (e2 - e0) with ((e2 - e1) + (e1 - e0)) by lia. rewrite Z.pow_add_r by lia.
    assert (Hstep : 2 ^ 1 <= 2 ^ (e2 - e1)) by (apply Z.pow_le_mono_r; lia).
    change (2 ^ 1) with 2 in Hstep.
    assert (Z.pos m1 * 2 ^ (e1 - e0) < 2 * Z.pos m2 * 2 ^ (e1 - e0))
      by (apply Z.mul_lt_mono_pos_r; lia).
    assert (2 * (Z.pos m2 * 2 ^ (e1 - e0)) <= 2 ^ (e2 - e1) * (Z.pos m2 * 2 ^ (e1 - e0)))
      by (apply Z.mul_le_mono_nonneg_r; lia).
    lia.
  - split; [discriminate|intros H; exfalso].
    replace (e1 - e0) with ((e1 - e2) + (e2 - e0)) in H by lia. rewrite Z.pow_add_r in H by lia.
    assert (Hstep : 2 ^ 1 <= 2 ^ (e1 - e2)) by (apply Z.pow_le_mono_r; lia).
    change (2 ^ 1) with 2 in Hstep.
    assert (Z.pos m2 * 2 ^ (e2 - e0) < 2 * Z.pos m1 * 2 ^ (e2 - e0))
      by (apply Z.mul_lt_mono_pos_r; lia).
    assert (2 * (Z.pos m1 * 2 ^ (e2 - e0)) <= 2 ^ (e1 - e2) * (Z.pos m1 * 2 ^ (e2 - e0)))
      by (apply Z.mul_le_mono_nonneg_r; lia).
    lia.
Qed.

(** [10 * n / n] is [10.0]. *)
Lemma fdiv_tenfold n : 0 < n ->
  fdiv (exact_int (10 * n)) (exact_int n) = float_const 10.
Proof.
  intros Hn. destruct n as [|p|p]; try lia.
  change (10 * Z.pos p) with (Z.pos (10 * p)). unfold fdiv. cbn [exact_int SFdiv].
  rewrite SFdiv_core_multiple. cbv zeta.
  destruct (Zdigits2_scale 10 p 3 ltac:(lia) ltac:(lia)) as [->| ->]; reflexivity.
Qed.

(** Up to [2 ^ 49] frames, the binary64 percentage of a counter is above
    10.0 exactly when the counter is above a tenth of the frames. *)
Lemma pct_above_tenth c n :
  0 < n <= 2 ^ 49 -> 0 <= c <= n ->
  fgt (pct c n) (float_const 10) = true <-> n < 10 * c.
Proof.
  intros Hn Hc.
  destruct (Z.eq_dec (100 * c) (10 * n)) as [Heq|Hne].
  { unfold pct. rewrite Heq, fdiv_tenfold by lia.
    split; [intros H; vm_compute in H; discriminate H|lia]. }
  destruct c as [|pc|pc]; [| |lia].
  { destruct n as [|pn|pn]; try lia.
    split; [intros H; vm_compute in H; discriminate H|lia]. }
  destruct n as [|pn|pn]; try lia.
  unfold pct, fdiv. change (100 * Z.pos pc) with (Z.pos (100 * pc)). cbn [exact_int SFdiv].
  assert (Ha : Z.pos (100 * pc) = 100 * Z.pos pc) by reflexivity.
  set (a := Z.pos (100 * pc)) in *. set (n := Z.pos pn) in *.
  assert (Hne10 : a <> 10 * n) by lia.
  (* the digits of the dividend and of the divisor *)
  pose proof (Zdigits2_value a ltac:(lia)) as Ha_hi.
  pose proof (digits2_pos_lower (100 * pc)) as Ha_lo.
  change (Z.pos (digits2_pos (100 * pc))) with (Zdigits2 a) in Ha_lo. fold a in Ha_lo.
  pose proof (Zdigits2_value n ltac:(lia)) as Hn_hi.
  pose proof (digits2_pos_lower pn) as Hn_lo.
  change (Z.pos (digits2_pos pn)) with (Zdigits2 n) in Hn_lo. fold n in Hn_lo.
  assert (Hd2 : 1 <= Zdigits2 n <= 50).
  { split; [unfold n; simpl; lia|]. apply Zdigits2_bound; lia. }
  assert (Hd1 : 7 <= Zdigits2 a <= Zdigits2 n + 7).
  { split.
    - pose proof (Zdigits2_lower a 6 ltac:(lia) ltac:(lia)). lia.
    - apply Zdigits2_bound; [lia|lia|].
      rewrite Z.pow_add_r by lia. change (2 ^ 7) with 128. nia. }
  set (d1 := Zdigits2 a) in *. set (d2 := Zdigits2 n) in *.
  set (s := 53 + d2 - d1).
  assert (Hs : 46 <= s <= 96) by (unfold s; lia).
  assert (He : Z.min (fexp prec emax (d1 + 0 - (d2 + 0))) (0 - 0) = - s).
  { unfold fexp, emin, prec, emax, s. lia. }
  destruct (SFdiv_core_value a n s ltac:(lia) ltac:(lia) ltac:(lia) He) as (l & ->).
  cbn [xorb].
  (* the quotient has 53 or 54 bits *)
  assert (Hps : 0 < 2 ^ s) by (apply Z.pow_pos_nonneg; lia).
  assert (Hpa : 2 ^ d1 = 2 * 2 ^ (d1 - 1)).
  { replace d1 with (1 + (d1 - 1)) at 1 by lia. rewrite Z.pow_add_r by lia. reflexivity. }
  assert (Hpn : 2 ^ d2 = 2 * 2 ^ (d2 - 1)).
  { replace d2 with (1 + (d2 - 1)) at 1 by lia. rewrite Z.pow_add_r by lia. reflexivity. }
  assert (Hsum : 2 ^ (d1 - 1) * 2 ^ s = 2 ^ 52 * 2 ^ d2).
  { rewrite <- !Z.pow_add_r by lia. f_equal. unfold s. lia. }
  assert (Hpa' : 0 < 2 ^ (d1 - 1)) by (apply Z.pow_pos_nonneg; lia).
  assert (Hpn' : 0 < 2 ^ (d2 - 1)) by (apply Z.pow_pos_nonneg; lia).
  set (q := a * 2 ^ s / n).
  assert (Hq : 2 ^ 52 <= q < 2 ^ 54).
  { split.
    - apply Z.div_le_lower_bound; [lia|]. nia.
    - apply Z.div_lt_upper_bound; [lia|]. nia. }
  destruct (binary_round_aux_shape q (- s) l Hq ltac:(lia))
    as (m & e2 & -> & Hm & He2 & Hlow & Hup53 & Hup54).
  unfold fgt, flt.
  change (float_const 10) with (S754_finite false 5629499534213120 (-49)).
  destruct (Z_lt_le_dec s 49) as [Hsmall|Hbig].
  - (* the quotient is at least 16 *)
    assert (Hgt : -49 < e2) by lia.
    unfold SFltb. cbn [SFcompare]. apply Z.compare_lt_iff in Hgt. rewrite Hgt.
    split; [intros _|reflexivity].
    assert (2 ^ 4 * 2 ^ d2 <= 2 ^ (d1 - 1)).
    { rewrite <- Z.pow_add_r by lia. apply Z.pow_le_mono_r; lia. }
    change (2 ^ 4) with 16 in *. lia.
  - rewrite (SFltb_normal _ _ _ _ (- s)) by lia.
    replace (e2 - - s) with (e2 + s) by lia.
    replace (e2 - - s) with (e2 + s) in Hlow, Hup53, Hup54 by lia.
    assert (HX : 5629499534213120 * 2 ^ (-49 - - s) = 10 * 2 ^ s).
    { replace s with (49 + (s - 49)) at 2 by lia. rewrite Z.pow_add_r by lia.
      replace (-49 - - s) with (s - 49) by lia. change (2 ^ 49) with 562949953421312. lia. }
    rewrite HX.
    assert (Hp49 : 2 ^ 49 <= 2 ^ s) by (apply Z.pow_le_mono_r; lia).
    destruct (Z_lt_le_dec (10 * n) a) as [Habove|Hbelow].
    + (* above the threshold by at least two units *)
      assert (Hq2 : 10 * 2 ^ s + 2 <= q).
      { apply Z.div_le_lower_bound; [lia|]. nia. }
      split; [intros _; lia|intros _; lia].
    + (* below the threshold *)
      assert (Hq1 : q < 10 * 2 ^ s).
      { apply Z.div_lt_upper_bound; [lia|]. nia. }
      split; [intros H; exfalso|intros H; lia].
      destruct (Z_lt_le_dec q (2 ^ 53)) as [H53|H54].
      * specialize (Hup53 H53). lia.
      * destruct (Hup54 H54) as (w & Hw & Hw2). lia.
Qed.

End Threshold.

Section Exposure.

Lemma binary_round_aux_sign m e l :
  binary_round_aux prec emax false m e l <> S754_zero true.
Proof.
  unfold binary_round_aux.
  destruct (shr_fexp prec emax m e l) as [r1 e1].
  destruct (shr_fexp prec emax _ e1 loc_Exact) as [r2 e2].
  destruct (shr_m r2); [discriminate| |discriminate].
  destruct (e2 <=? emax - prec); discriminate.
Qed.

(** A percentage of non-negative counters is not the negative zero. *)
Lemma pct_sign c n : 0 <= c -> 0 < n -> pct c n <> S754_zero true.
Proof.
  intros Hc Hn. unfold pct, fdiv.
  destruct n as [|pn|pn]; try lia.
  destruct (100 * c) as [|pa|pa] eqn:Ha; try lia; cbn [exact_int SFdiv xorb].
  - discriminate.
  - destruct (SFdiv_core_binary prec emax (Z.pos pa) 0 (Z.pos pn) 0) as [[q e] l].
    apply binary_round_aux_sign.
Qed.

Lemma pct_zero n : 0 < n -> pct 0 n = S754_zero false.
Proof. intros Hn. destruct n; try lia. reflexivity. Qed.

Lemma fadd_zero_r x : x <> S754_zero true -> fadd x (S754_zero false) = x.
Proof. destruct x as [[]|s| |s m e]; intros H; try reflexivity. congruence. Qed.

Lemma fadd_zero_l x : x <> S754_zero true -> fadd (S754_zero false) x = x.
Proof. destruct x as [[]|s| |s m e]; intros H; try reflexivity. congruence. Qed.

(** With one of the two exposure counters at zero the exposure percentage
    is the percentage of the other. *)
Lemma exposure_pct_single u o n :
  0 < n -> 0 <= u -> 0 <= o -> u = 0 \/ o = 0 ->
  fadd (pct u n) (pct o n) = pct (u + o) n.
Proof.
  intros Hn Hu Ho [-> | ->].
  - rewrite pct_zero, Z.add_0_l by exact Hn. apply fadd_zero_l, pct_sign; assumption.
  - rewrite pct_zero, Z.add_0_r by exact Hn. apply fadd_zero_r, pct_sign; assumption.
Qed.

End Exposure.

(** X10. For up to [2 ^ 49] analyzed frames and counters between 0 and
    [num_images], the binary64 arithmetic of [validate_quality] decides the
    clarity and contrast checks exactly: the clarity issue is raised exactly
    when more than a tenth of the frames are blurry, [10 * blurry >
    num_images], and the contrast issue exactly when [10 * low_contrast >
    num_images]; so is the exposure check when one of its two counters is
    zero. *)
Theorem issue_iff_more_than_a_tenth (stats : gmap string pyval) n b u o l :
  reads stats "num_images" n ->
  reads stats "blurry" b -> reads stats "under_exposed" u ->
  reads stats "over_exposed" o -> reads stats "low_contrast" l ->
  0 < n <= 2 ^ 49 ->
  0 <= b <= n -> 0 <= u <= n -> 0 <= o <= n -> 0 <= l <= n ->
  exists msg vr,
    validate_quality stats = Ok (true, msg, Some vr) /\
    (clarity_issue (pct b n) ∈ ValidationResult.issues vr <-> n < 10 * b) /\
    (contrast_issue (pct l n) ∈ ValidationResult.issues vr <-> n < 10 * l) /\
    (u = 0 \/ o = 0 ->
     (exposure_issue (pct (u + o) n) ∈ ValidationResult.issues vr <-> n < 10 * (u + o))).
Proof.
  intros Hn Hb Hu Ho Hl Rn Rb Ru Ro Rl.
  assert (Hrange : forall c, 0 <= c <= n -> in_range c).
  { intros c Hc. unfold in_range. rewrite Z.abs_eq by lia.
    assert (2 ^ 49 < 2 ^ 1000) by (apply Z.pow_lt_mono_r; lia). lia. }
  destruct (validate_quality_verdict stats n b u o l) as (msg & vr & Hv & Hi & _);
    try assumption; try (apply Hrange; assumption); try lia.
  exists msg, vr. split; [exact Hv|]. rewrite Hi.
  split; [|split].
  - rewrite raised_clarity. apply pct_above_tenth; assumption.
  - rewrite raised_contrast. apply pct_above_tenth; assumption.
  - intros Hzero. rewrite (exposure_pct_single u o n) by (try assumption; lia).
    rewrite raised_exposure. apply pct_above_tenth; [assumption|].
    destruct Hzero as [-> | ->]; lia.
Qed.

Lemma issue_iff_more_than_a_tenth_witness :
  exists msg vr,
    validate_quality twelve_in_hundred = Ok (true, msg, Some vr) /\
    (clarity_issue (pct 12 100) ∈ ValidationResult.issues vr <-> 100 < 10 * 12).
Proof.
  destruct (issue_iff_more_than_a_tenth twelve_in_hundred 100 12 0 0 0)
    as (msg & vr & Hv & Hc & _); try (vm_compute; reflexivity); try lia.
  exists msg, vr. split; [exact Hv|exact Hc].
Defined.

(** ** Strings *)

Section Strings.
Import Str.

Lemma lstrip_Forall (P : N -> Prop) p s : Forall P s -> Forall P (lstrip p s).
Proof.
  induction s as [|c s IH]; intros H; cbn [lstrip]; [exact H|].
  destruct (p c); [|exact H]. apply IH. apply Forall_cons in H. apply H.
Qed.

Lemma rstrip_Forall (P : N -> Prop) p s : Forall P s -> Forall P (rstrip p s).
Proof.
  intros H. unfold rstrip. apply Forall_reverse, lstrip_Forall, Forall_reverse. exact H.
Qed.

Lemma strip_Forall (P : N -> Prop) s : Forall P s -> Forall P (strip s).
Proof. intros H. apply rstrip_Forall, lstrip_Forall. exact H. Qed.

Lemma lstrip_head p c s : p c = false -> lstrip p (c :: s) = c :: s.
Proof. intros H. cbn [lstrip]. rewrite H. reflexivity. Qed.

Lemma rstrip_last p c s : p c = false -> rstrip p (s ++ [c]) = s ++ [c].
Proof.
  intros H. unfold rstrip. rewrite reverse_snoc, lstrip_head by exact H.
  rewrite reverse_cons, reverse_involutive. reflexivity.
Qed.

Lemma lstrip_id p s : Forall (fun c => p c = false) s -> lstrip p s = s.
Proof. destruct s as [|c s]; [reflexivity|]. intros H. apply lstrip_head. apply Forall_cons in H. apply H. Qed.

Lemma rstrip_id p s : Forall (fun c => p c = false) s -> rstrip p s = s.
Proof.
  intros H. unfold rstrip. rewrite lstrip_id by (apply Forall_reverse; exact H).
  apply reverse_involutive.
Qed.

(** A string without whitespace is its own [strip]. *)
Lemma strip_id s : Forall (fun c => isspace c = false) s -> strip s = s.
Proof. intros H. unfold strip. rewrite lstrip_id by exact H. apply rstrip_id. exact H. Qed.

Lemma sub_runs_Forall (P : N -> Prop) class repl s :
  (forall c, class c = true -> P c) -> Forall P repl ->
  forall in_run, Forall P (sub_runs class repl in_run s).
Proof.
  intros Hclass Hrepl. induction s as [|c s IH]; intros in_run; cbn [sub_runs]; [constructor|].
  destruct (class c) eqn:Hc.
  - apply Forall_cons. split; [apply Hclass; exact Hc|apply IH].
  - destruct in_run; [apply IH|]. apply Forall_app. split; [exact Hrepl|apply IH].
Qed.

(** Substitution leaves a string of the class as it is. *)
Lemma sub_runs_id class repl s :
  Forall (fun c => class c = true) s -> forall in_run, sub_runs class repl in_run s = s.
Proof.
  induction s as [|c s IH]; intros H in_run; cbn [sub_runs]; [reflexivity|].
  apply Forall_cons in H as [Hc Hs]. rewrite Hc, IH by exact Hs. reflexivity.
Qed.

Lemma split_nonempty sep s : split sep s <> [].
Proof.
  destruct s as [|c s]; cbn [split]; [discriminate|].
  destruct (c =? sep)%N; [discriminate|]. destruct (split sep s); discriminate.
Qed.

Lemma split_Forall (P : N -> Prop) sep s : Forall P s -> Forall (Forall P) (split sep s).
Proof.
  induction s as [|c s IH]; intros H; cbn [split].
  - repeat constructor.
  - apply Forall_cons in H as [Hc Hs]. specialize (IH Hs).
    destruct (c =? sep)%N; [apply Forall_cons; split; [constructor|exact IH]|].
    destruct (split sep s) as [|piece pieces].
    + repeat constructor. exact Hc.
    + apply Forall_cons in IH as [Hp Hps].
      apply Forall_cons. split; [apply Forall_cons; split; assumption|exact Hps].
Qed.

(** No piece holds the separator. *)
Lemma split_pieces sep s : Forall (Forall (fun c => c <> sep)) (split sep s).
Proof.
  induction s as [|c s IH]; cbn [split].
  - repeat constructor.
  - destruct (N.eqb_spec c sep) as [->|Hne];
      [apply Forall_cons; split; [constructor|exact IH]|].
    destruct (split sep s) as [|piece pieces].
    + repeat constructor. exact Hne.
    + apply Forall_cons in IH as [Hp Hps].
      apply Forall_cons. split; [apply Forall_cons; split; assumption|exact Hps].
Qed.

Lemma split_piece sep s : Forall (fun c => c <> sep) s -> split sep s = [s].
Proof.
  induction s as [|c s IH]; intros H; cbn [split]; [reflexivity|].
  apply Forall_cons in H as [Hc Hs]. rewrite IH by exact Hs.
  destruct (N.eqb_spec c sep); [contradiction|reflexivity].
Qed.

Lemma split_app sep piece s :
  Forall (fun c => c <> sep) piece -> split sep (piece ++ sep :: s) = piece :: split sep s.
Proof.
  induction piece as [|c piece IH]; intros H; cbn [app split].
  - rewrite N.eqb_refl. reflexivity.
  - apply Forall_cons in H as [Hc Hp]. rewrite IH by exact Hp.
    destruct (N.eqb_spec c sep); [contradiction|reflexivity].
Qed.

Lemma str_join_cons sep piece pieces :
  pieces <> [] -> join sep (piece :: pieces) = piece ++ sep ++ join sep pieces.
Proof. destruct pieces; [congruence|reflexivity]. Qed.

Lemma str_join_snoc sep pieces piece :
  pieces <> [] -> join sep (pieces ++ [piece]) = join sep pieces ++ sep ++ piece.
Proof.
  induction pieces as [|p pieces IH]; intros Hne; [congruence|].
  destruct pieces as [|p' pieces]; [reflexivity|].
  change ((p :: p' :: pieces) ++ [piece]) with (p :: p' :: (pieces ++ [piece])).
  rewrite str_join_cons by discriminate.
  change (p' :: (pieces ++ [piece])) with ((p' :: pieces) ++ [piece]).
  rewrite IH by discriminate.
  rewrite (str_join_cons sep p (p' :: pieces)) by discriminate.
  rewrite <- !app_assoc. reflexivity.
Qed.

Lemma str_join_app sep pieces pieces' :
  pieces <> [] -> pieces' <> [] ->
  join sep (pieces ++ pieces') = join sep pieces ++ sep ++ join sep pieces'.
Proof.
  intros Hne Hne'. induction pieces as [|p pieces IH]; [congruence|].
  destruct pieces as [|p' pieces].
  - cbn [app]. rewrite str_join_cons by exact Hne'. reflexivity.
  - change ((p :: p' :: pieces) ++ pieces') with (p :: p' :: (pieces ++ pieces')).
    rewrite str_join_cons by discriminate.
    change (p' :: (pieces ++ pieces')) with ((p' :: pieces) ++ pieces').
    rewrite IH by discriminate.
    rewrite (str_join_cons sep p (p' :: pieces)) by discriminate.
    rewrite <- !app_assoc. reflexivity.
Qed.

(** Splitting what was joined gives the pieces back. *)
Lemma split_join sep pieces :
  pieces <> [] -> Forall (Forall (fun c => c <> sep)) pieces ->
  split sep (join [sep] pieces) = pieces.
Proof.
  induction pieces as [|p pieces IH]; intros Hne H; [congruence|].
  apply Forall_cons in H as [Hp Hps].
  destruct pieces as [|p' pieces].
  - cbn [join]. apply split_piece. exact Hp.
  - rewrite str_join_cons by discriminate. cbn [app].
    rewrite split_app by exact Hp. rewrite IH by (discriminate || exact Hps). reflexivity.
Qed.

(** Joining the pieces of a string gives the string back. *)
Lemma join_split sep s : join [sep] (split sep s) = s.
Proof.
  induction s as [|c s IH]; cbn [split]; [reflexivity|].
  destruct (N.eqb_spec c sep) as [->|Hne].
  - rewrite str_join_cons by apply split_nonempty. rewrite IH. reflexivity.
  - pose proof (split_nonempty sep s) as Hs.
    destruct (split sep s) as [|piece pieces]; [congruence|].
    destruct pieces as [|piece' pieces]; cbn [join] in *; rewrite <- IH; reflexivity.
Qed.

Lemma str_join_Forall (P : N -> Prop) sep pieces :
  Forall P sep -> Forall (Forall P) pieces -> Forall P (join sep pieces).
Proof.
  intros Hsep. induction pieces as [|p pieces IH]; intros H; [constructor|].
  apply Forall_cons in H as [Hp Hps].
  destruct pieces as [|p' pieces]; [exact Hp|].
  rewrite str_join_cons by discriminate. rewrite !Forall_app. auto.
Qed.

Lemma basename_Forall (P : N -> Prop) s : Forall P s -> Forall P (basename s).
Proof.
  intros H. unfold basename. pose proof (split_Forall P slash s H) as Hs.
  destruct (last (split slash s)) as [piece|] eqn:Hl; [|constructor].
  cbn [default from_option]. rewrite Forall_forall in Hs. apply Hs.
  apply last_Some in Hl as [l' ->]. apply elem_of_app. right. apply list_elem_of_singleton.
  reflexivity.
Qed.

Lemma basename_id s : Forall (fun c => c <> slash) s -> basename s = s.
Proof. intros H. unfold basename. rewrite split_piece by exact H. reflexivity. Qed.

End Strings.

(** ** [safe_filename] and [safe_prefix] *)

Section Names.
Import Str App.

Lemma filename_char_prefix c : filename_char c = true -> prefix_char c = true.
Proof. unfold prefix_char. intros ->. reflexivity. Qed.

Lemma prefix_char_filename c : prefix_char c = true -> c <> slash -> filename_char c = true.
Proof.
  unfold prefix_char. intros H Hne. apply orb_true_iff in H as [H|H]; [exact H|].
  apply N.eqb_eq in H. contradiction.
Qed.

Lemma filename_char_not_slash c : filename_char c = true -> c <> slash.
Proof. intros H ->. vm_compute in H. discriminate H. Qed.

Lemma prefix_char_not_space c : prefix_char c = true -> isspace c = false.
Proof.
  intros H. destruct (isspace c) eqn:Hs; [|reflexivity]. exfalso.
  unfold isspace in Hs. apply bool_decide_eq_true in Hs. unfold whitespace in Hs.
  repeat (apply elem_of_cons in Hs as [->|Hs]; [vm_compute in H; discriminate H|]).
  apply elem_of_nil in Hs. exact Hs.
Qed.

Lemma filename_char_not_space c : filename_char c = true -> isspace c = false.
Proof. intros H. apply prefix_char_not_space, filename_char_prefix, H. Qed.

Lemma among_slash c : among (lit "/") c = true <-> c = slash.
Proof.
  unfold among. rewrite bool_decide_eq_true. change (lit "/") with [slash].
  apply list_elem_of_singleton.
Qed.

Lemma not_among_slash c : c <> slash -> among (lit "/") c = false.
Proof.
  intros H. destruct (among (lit "/") c) eqn:E; [|reflexivity].
  apply among_slash in E. contradiction.
Qed.

Lemma or_else_nonempty x y : y <> [] -> or_else x y <> [].
Proof. intros Hy. destruct x as [[|c s]|]; cbn [or_else]; (exact Hy || discriminate). Qed.

Lemma or_else_Forall (P : N -> Prop) x y :
  (forall s, x = Some s -> Forall P s) -> Forall P y -> Forall P (or_else x y).
Proof. intros Hx Hy. destruct x as [[|c s]|]; cbn [or_else]; auto. Qed.

Lemma upload_bin_chars : Forall (fun c => filename_char c = true) (lit "upload.bin").
Proof. apply Forall_forall. intros c Hc. vm_compute in Hc.
  repeat (apply elem_of_cons in Hc as [->|Hc]; [reflexivity|]). apply elem_of_nil in Hc. destruct Hc.
Qed.

Lemma safe_filename_chars name :
  safe_filename name <> [] /\ Forall (fun c => filename_char c = true) (safe_filename name).
Proof.
  unfold safe_filename. destruct (strip (or_else name [])) as [|c s].
  - split; [discriminate|apply upload_bin_chars].
  - split; [apply or_else_nonempty; discriminate|].
    apply or_else_Forall; [|apply upload_bin_chars].
    intros s' [= <-]. apply sub_runs_Forall; [auto|].
    repeat constructor.
Qed.

Lemma safe_filename_id name :
  name <> [] -> Forall (fun c => filename_char c = true) name ->
  safe_filename (Some name) = name.
Proof.
  intros Hne Hchars. unfold safe_filename.
  assert (Hor : or_else (Some name) [] = name) by (destruct name; [congruence|reflexivity]).
  rewrite Hor, strip_id by (eapply Forall_impl; [exact Hchars|apply filename_char_not_space]).
  destruct name as [|c s]; [congruence|].
  rewrite basename_id by (eapply Forall_impl; [exact Hchars|apply filename_char_not_slash]).
  unfold re_sub. rewrite sub_runs_id by exact Hchars. reflexivity.
Qed.

Lemma add_segment_kept segments seg :
  add_segment segments seg = segments ++ option_list (kept seg).
Proof.
  unfold add_segment, kept. destruct (strip seg) as [|c s]; [symmetry; apply app_nil_r|].
  destruct (bool_decide _); [symmetry; apply app_nil_r|reflexivity].
Qed.

Lemma foldl_add_segment pieces : forall segments,
  foldl add_segment segments pieces = segments ++ omap kept pieces.
Proof.
  induction pieces as [|p pieces IH]; intros segments; cbn [foldl omap list_omap].
  - symmetry. apply app_nil_r.
  - rewrite IH, add_segment_kept, <- app_assoc. destruct (kept p); reflexivity.
Qed.

Lemma kept_safe seg seg' :
  Forall (fun c => filename_char c = true) seg -> kept seg = Some seg' ->
  seg' = seg /\ safe_segment seg.
Proof.
  intros Hchars. unfold kept.
  rewrite strip_id by (eapply Forall_impl; [exact Hchars|apply filename_char_not_space]).
  destruct seg as [|c s]; [discriminate|].
  destruct (bool_decide _) eqn:Hd; [discriminate|]. intros [= <-].
  apply bool_decide_eq_false in Hd.
  split; [reflexivity|]. split; [discriminate|]. split; [exact Hchars|].
  split; intros Heq; apply Hd; rewrite Heq; [apply elem_of_cons; auto|].
  apply elem_of_cons. right. apply elem_of_cons. auto.
Qed.

Lemma kept_safe_segment seg : safe_segment seg -> kept seg = Some seg.
Proof.
  intros (Hne & Hchars & Hdot & Hdots). unfold kept.
  rewrite strip_id by (eapply Forall_impl; [exact Hchars|apply filename_char_not_space]).
  destruct seg as [|c s]; [congruence|].
  rewrite bool_decide_eq_false_2; [reflexivity|].
  intros Hin. apply elem_of_cons in Hin as [Hin|Hin]; [contradiction|].
  apply elem_of_cons in Hin as [Hin|Hin]; [contradiction|]. apply elem_of_nil in Hin. exact Hin.
Qed.

Lemma omap_kept_safe pieces :
  Forall (Forall (fun c => filename_char c = true)) pieces ->
  Forall safe_segment (omap kept pieces).
Proof.
  induction pieces as [|p pieces IH]; intros H; cbn [omap list_omap]; [constructor|].
  apply Forall_cons in H as [Hp Hps]. destruct (kept p) as [seg|] eqn:Hk; [|auto].
  destruct (kept_safe p seg Hp Hk) as [-> Hs]. apply Forall_cons. auto.
Qed.

Lemma omap_kept_id segs : Forall safe_segment segs -> omap kept segs = segs.
Proof.
  induction segs as [|seg segs IH]; intros H; cbn [omap list_omap]; [reflexivity|].
  apply Forall_cons in H as [Hs Hss]. rewrite kept_safe_segment, IH by assumption. reflexivity.
Qed.

Lemma safe_segment_pieces segs :
  Forall safe_segment segs -> Forall (Forall (fun c => c <> slash)) segs.
Proof.
  intros H. eapply Forall_impl; [exact H|]. intros seg (_ & Hchars & _).
  eapply Forall_impl; [exact Hchars|apply filename_char_not_slash].
Qed.

Lemma safe_segments_chars segs :
  Forall safe_segment segs -> Forall (fun c => prefix_char c = true) (join (lit "/") segs).
Proof.
  intros H. apply str_join_Forall; [repeat constructor|].
  eapply Forall_impl; [exact H|]. intros seg (_ & Hchars & _).
  eapply Forall_impl; [exact Hchars|apply filename_char_prefix].
Qed.

(** A path of safe segments neither begins nor ends with a slash. *)
Lemma safe_segments_ends segs :
  Forall safe_segment segs ->
  let p := join (lit "/") segs in
  lstrip (among (lit "/")) p = p /\ rstrip (among (lit "/")) p = p.
Proof.
  intros H. cbv zeta. destruct segs as [|seg segs]; [split; reflexivity|].
  split.
  - pose proof H as Hall. apply Forall_cons in H as [(Hne & Hchars & _) _].
    destruct seg as [|c s]; [congruence|]. apply Forall_cons in Hchars as [Hc _].
    assert (Hhead : exists rest, join (lit "/") ((c :: s) :: segs) = c :: rest).
    { destruct segs; [eexists; reflexivity|]. rewrite str_join_cons by discriminate.
      eexists. reflexivity. }
    destruct Hhead as [rest ->].
    apply lstrip_head, not_among_slash, filename_char_not_slash, Hc.
  - assert (Hlast : exists front c, join (lit "/") (seg :: segs) = front ++ [c]
                                    /\ filename_char c = true).
    { destruct (exists_last (l := seg :: segs) ltac:(discriminate)) as (front & seg' & Heq).
      rewrite Heq in H |- *. apply Forall_app in H as [_ Hlast].
      apply (proj1 (Forall_singleton _ _)) in Hlast as (Hne & Hchars & _).
      destruct (exists_last Hne) as (s' & c & ->).
      apply Forall_app in Hchars as [_ Hc]. apply (proj1 (Forall_singleton _ _)) in Hc.
      destruct front as [|f front].
      - exists s', c. split; [reflexivity|exact Hc].
      - rewrite str_join_snoc by discriminate. exists (join (lit "/") (f :: front) ++ lit "/" ++ s'), c.
        rewrite <- !app_assoc. split; [reflexivity|exact Hc]. }
    destruct Hlast as (front & c & -> & Hc).
    apply rstrip_last, not_among_slash, filename_char_not_slash, Hc.
Qed.

(** What [safe_prefix] returns: the safe segments among the pieces of the
    cleaned prefix, joined. *)
Lemma safe_prefix_joined prefix :
  exists segs, safe_prefix prefix = join (lit "/") segs /\ Forall safe_segment segs.
Proof.
  unfold safe_prefix. rewrite foldl_add_segment. cbn [app].
  eexists. split; [reflexivity|]. apply omap_kept_safe.
  set (cleaned := lstrip _ _).
  assert (Hchars : Forall (fun c => prefix_char c = true) cleaned).
  { apply lstrip_Forall, sub_runs_Forall; [auto|repeat constructor]. }
  pose proof (split_Forall _ slash cleaned Hchars) as H1.
  pose proof (split_pieces slash cleaned) as H2.
  apply Forall_forall. intros piece Hp.
  rewrite Forall_forall in H1, H2. specialize (H1 piece Hp). specialize (H2 piece Hp).
  apply Forall_forall. intros c Hc. rewrite Forall_forall in H1, H2.
  apply prefix_char_filename; auto.
Qed.

(** [safe_prefix] returns a path of safe segments as it is. *)
Lemma safe_prefix_id segs :
  Forall safe_segment segs -> safe_prefix (Some (join (lit "/") segs)) = join (lit "/") segs.
Proof.
  intros H. unfold safe_prefix.
  pose proof (safe_segments_chars segs H) as Hchars.
  pose proof (safe_segments_ends segs H) as Hends. cbv zeta in Hends.
  destruct Hends as [Hl _].
  set (p := join (lit "/") segs) in *.
  assert (Hor : or_else (Some p) [] = p) by (destruct p; reflexivity).
  rewrite Hor, strip_id by (eapply Forall_impl; [exact Hchars|apply prefix_char_not_space]).
  unfold re_sub. rewrite sub_runs_id by exact Hchars.
  rewrite Hl.
  rewrite foldl_add_segment. cbn [app].
  destruct segs as [|seg segs]; [reflexivity|].
  unfold p. change (lit "/") with [slash].
  rewrite split_join by (discriminate || apply safe_segment_pieces, H).
  rewrite omap_kept_id by exact H. reflexivity.
Qed.

End Names.

(** X11. Whatever the client sends as file name, [safe_filename] returns a
    name that is not empty and holds only letters, digits, dots, underscores
    and hyphens of ASCII: no slash, so that it is its own base name, and no
    whitespace. *)
Theorem safe_filename_is_safe name :
  let safe := App.safe_filename name in
  safe <> [] /\
  Forall (fun c => App.filename_char c = true) safe /\
  (Str.slash ∉ safe) /\
  Forall (fun c => Str.isspace c = false) safe /\
  Str.basename safe = safe /\ Str.strip safe = safe.
Proof.
  cbv zeta. destruct (safe_filename_chars name) as [Hne Hchars].
  assert (Hslash : Forall (fun c => c <> Str.slash) (App.safe_filename name))
    by (eapply Forall_impl; [exact Hchars|apply filename_char_not_slash]).
  assert (Hspace : Forall (fun c => Str.isspace c = false) (App.safe_filename name))
    by (eapply Forall_impl; [exact Hchars|apply filename_char_not_space]).
  split; [exact Hne|]. split; [exact Hchars|]. split.
  { intros Hin. rewrite Forall_forall in Hslash. exact (Hslash _ Hin eq_refl). }
  split; [exact Hspace|]. split; [apply basename_id; exact Hslash|apply strip_id; exact Hspace].
Qed.

(** X12. [safe_filename] returns a name that is already safe as it is, and
    so returns its own results unchanged. *)
Theorem safe_filename_keeps_safe_names :
  (forall name, name <> [] -> Forall (fun c => App.filename_char c = true) name ->
     App.safe_filename (Some name) = name) /\
  (forall name, App.safe_filename (Some (App.safe_filename name)) = App.safe_filename name).
Proof.
  split; [apply safe_filename_id|].
  intros name. destruct (safe_filename_chars name) as [Hne Hchars].
  apply safe_filename_id; assumption.
Qed.

Lemma safe_filename_keeps_safe_names_witness :
  App.safe_filename (Some (Str.lit "clip-01.mp4")) = Str.lit "clip-01.mp4".
Proof.
  apply (proj1 safe_filename_keeps_safe_names); [discriminate|].
  apply Forall_forall. intros c Hc. vm_compute in Hc.
  repeat (apply elem_of_cons in Hc as [->|Hc]; [reflexivity|]).
  apply elem_of_nil in Hc. destruct Hc.
Defined.

(** X13. [safe_prefix] returns a path of safe segments joined by slashes:
    every segment is not empty, holds only characters of the file-name
    class and is neither [.] nor [..]; the path neither begins nor ends
    with a slash, and splitting it at the slashes gives the segments
    back. *)
Theorem safe_prefix_is_a_path_of_safe_segments prefix :
  let path := App.safe_prefix prefix in
  exists segs,
    path = Str.join (Str.lit "/") segs /\
    Forall App.safe_segment segs /\
    (path <> [] -> Str.split Str.slash path = segs) /\
    (path = [] <-> segs = []) /\
    Str.lstrip (Str.among (Str.lit "/")) path = path /\
    Str.rstrip (Str.among (Str.lit "/")) path = path.
Proof.
  cbv zeta. destruct (safe_prefix_joined prefix) as (segs & Heq & Hsafe).
  exists segs. rewrite Heq.
  pose proof (safe_segments_ends segs Hsafe) as Hends. cbv zeta in Hends.
  assert (Hempty : Str.join (Str.lit "/") segs = [] <-> segs = []).
  { split; [|intros ->; reflexivity].
    destruct segs as [|seg segs]; [reflexivity|]. intros Hj. exfalso.
    apply Forall_cons in Hsafe as [(Hne & _) _].
    destruct segs; [cbn [Str.join] in Hj; congruence|].
    rewrite str_join_cons in Hj by discriminate. apply app_eq_nil in Hj as [Hj _]. congruence. }
  split; [reflexivity|]. split; [exact Hsafe|]. split; [|split; [exact Hempty|exact Hends]].
  intros Hne. change (Str.lit "/") with [Str.slash]. apply split_join.
  - intros ->. apply Hne. reflexivity.
  - apply safe_segment_pieces, Hsafe.
Qed.

Lemma safe_prefix_is_a_path_of_safe_segments_witness :
  exists segs,
    Forall App.safe_segment segs /\
    Str.split Str.slash (App.safe_prefix (Some (Str.lit " /a b//../c/./d/ "))) = segs.
Proof.
  destruct (safe_prefix_is_a_path_of_safe_segments (Some (Str.lit " /a b//../c/./d/ ")))
    as (segs & _ & Hsafe & Hsplit & _).
  exists segs. split; [exact Hsafe|]. apply Hsplit. vm_compute. discriminate.
Defined.

(** X14. [safe_prefix] returns a path of safe segments as it is, and so
    returns its own results unchanged. *)
Theorem safe_prefix_keeps_safe_paths :
  (forall segs, Forall App.safe_segment segs ->
     App.safe_prefix (Some (Str.join (Str.lit "/") segs)) = Str.join (Str.lit "/") segs) /\
  (forall prefix, App.safe_prefix (Some (App.safe_prefix prefix)) = App.safe_prefix prefix).
Proof.
  split; [apply safe_prefix_id|].
  intros prefix. destruct (safe_prefix_joined prefix) as (segs & -> & Hsafe).
  apply safe_prefix_id. exact Hsafe.
Qed.

Lemma safe_prefix_keeps_safe_paths_witness :
  App.safe_prefix (Some (App.safe_prefix (Some (Str.lit "x/../y z"))))
  = App.safe_prefix (Some (Str.lit "x/../y z")).
Proof. apply (proj2 safe_prefix_keeps_safe_paths). Defined.

Section ObjectKeys.
Import Str App.

Lemma str_join_empty segs :
  Forall safe_segment segs -> join (lit "/") segs = [] -> segs = [].
Proof.
  intros Hsafe Hj. destruct segs as [|seg segs]; [reflexivity|]. exfalso.
  apply Forall_cons in Hsafe as [(Hne & _) _].
  destruct segs; [cbn [join] in Hj; congruence|].
  rewrite str_join_cons in Hj by discriminate. apply app_eq_nil in Hj as [Hj _]. congruence.
Qed.

Lemma folder_prefix_joined upload_id filename folder :
  folder_prefix (upload_video_names upload_id filename folder) = safe_prefix (Some folder).
Proof.
  cbn [upload_video_names folder_prefix].
  destruct (safe_prefix_joined (Some folder)) as (segs & -> & Hsafe).
  apply (safe_segments_ends segs Hsafe).
Qed.

End ObjectKeys.

(** X15. The keys [upload_video] stores under: with an upload id that
    holds no slash, the object key is [uploads], then the safe segments of
    the folder, then one last segment made of the upload id, an underscore
    and the safe file name, so that it stays below [uploads/] whatever the
    client sends as folder and file name; the record key is [records] and
    the upload id with [.json]; and the [rstrip] of line 371 changes
    nothing. *)
Theorem upload_keys_stay_below_uploads upload_id filename folder :
  Forall (fun c => c <> Str.slash) upload_id ->
  let names := App.upload_video_names upload_id filename folder in
  exists segs,
    Forall App.safe_segment segs /\
    App.folder_prefix names = Str.join (Str.lit "/") segs /\
    App.folder_prefix names = App.safe_prefix (Some folder) /\
    Str.split Str.slash (App.video_key names)
      = App.UPLOADS_PREFIX :: segs
        ++ [upload_id ++ Str.lit "_" ++ App.original_name names] /\
    Str.split Str.slash (App.record_key names)
      = [App.RECORDS_PREFIX; upload_id ++ Str.lit ".json"].
Proof.
  intros Hid names.
  pose proof (folder_prefix_joined upload_id filename folder) as Hfolder. fold names in Hfolder.
  destruct (safe_prefix_joined (Some folder)) as (segs & Hjoin & Hsafe).
  exists segs. split; [exact Hsafe|]. split; [rewrite Hfolder; exact Hjoin|].
  split; [exact Hfolder|].
  assert (Hname : Forall (fun c => c <> Str.slash) (App.original_name names)).
  { destruct (safe_filename_chars
                (Some (Str.or_else filename (Str.lit "video.mp4")))) as [_ Hchars].
    eapply Forall_impl; [exact Hchars|apply filename_char_not_slash]. }
  set (final := upload_id ++ Str.lit "_" ++ App.original_name names).
  assert (Hfinal : Forall (fun c => c <> Str.slash) final).
  { unfold final. rewrite !Forall_app. split; [exact Hid|]. split; [|exact Hname].
    apply (bool_decide_unpack _). vm_compute. exact I. }
  assert (Huploads : Forall (fun c => c <> Str.slash) App.UPLOADS_PREFIX).
  { apply (bool_decide_unpack _). vm_compute. exact I. }
  split.
  - assert (Hkey : App.video_key names
                   = Str.join [Str.slash] (App.UPLOADS_PREFIX :: segs ++ [final])).
    { change (App.video_key names)
        with (App.uploads_base names ++ Str.lit "/" ++ final).
      change (App.uploads_base names)
        with (match App.folder_prefix names with
              | [] => App.UPLOADS_PREFIX
              | _ => App.UPLOADS_PREFIX ++ Str.lit "/" ++ App.folder_prefix names
              end).
      rewrite Hfolder, Hjoin. destruct segs as [|seg segs]; [reflexivity|].
      destruct (Str.join (Str.lit "/") (seg :: segs)) as [|c s] eqn:Hj.
      { apply str_join_empty in Hj; [discriminate Hj|exact Hsafe]. }
      rewrite <- Hj.
      rewrite (str_join_cons [Str.slash] App.UPLOADS_PREFIX ((seg :: segs) ++ [final]))
        by (cbn [app]; discriminate).
      rewrite (str_join_snoc [Str.slash] (seg :: segs) final) by discriminate.
      rewrite <- !app_assoc. reflexivity. }
    rewrite Hkey. apply split_join; [discriminate|].
    apply Forall_cons. split; [exact Huploads|].
    apply Forall_app. split; [apply safe_segment_pieces, Hsafe|].
    apply Forall_singleton. exact Hfinal.
  - change (App.record_key names)
      with (Str.join [Str.slash] [App.RECORDS_PREFIX; upload_id ++ Str.lit ".json"]).
    apply split_join; [discriminate|].
    apply Forall_cons. split; [apply (bool_decide_unpack _); vm_compute; exact I|].
    apply Forall_singleton, Forall_app. split; [exact Hid|].
    apply (bool_decide_unpack _). vm_compute. exact I.
Qed.

Lemma upload_keys_stay_below_uploads_witness :
  let names := App.upload_video_names (Str.lit "7f3a") (Some (Str.lit "../../x.mp4"))
                 (Str.lit "../a/./b") in
  exists segs,
    Forall App.safe_segment segs /\
    Str.split Str.slash (App.video_key names)
    = App.UPLOADS_PREFIX :: segs ++ [Str.lit "7f3a" ++ Str.lit "_" ++ App.original_name names].
Proof.
  destruct (upload_keys_stay_below_uploads (Str.lit "7f3a") (Some (Str.lit "../../x.mp4"))
              (Str.lit "../a/./b")) as (segs & Hsafe & _ & _ & Hkey & _).
  - apply (bool_decide_unpack _). vm_compute. exact I.
  - exists segs. split; [exact Hsafe|exact Hkey].
Defined.

(** X16. [create_folder] answers 400 exactly when nothing of the name is
    left after cleaning, and then calls [s3.put_object] not at all;
    otherwise it calls it exactly once, for an empty object in the bucket
    whose key is made of the safe segments of the parent, then those of the
    name, and ends with a slash, and answers that key, or 500 when the call
    raises. *)
Theorem create_folder_key put_object WASABI_BUCKET parent name calls :
  exists psegs nsegs,
    App.safe_prefix (Some parent) = Str.join (Str.lit "/") psegs /\
    App.safe_prefix (Some name) = Str.join (Str.lit "/") nsegs /\
    Forall App.safe_segment psegs /\ Forall App.safe_segment nsegs /\
    match App.create_folder put_object WASABI_BUCKET parent name calls with
    | (calls', App.HTTPException 400 detail) =>
        nsegs = [] /\ detail = Str.lit "Invalid folder name" /\ calls' = calls
    | (calls', App.HTTPException code detail) =>
        nsegs <> [] /\ code = 500 /\
        exists call e,
          calls' = calls ++ [call] /\
          App.Bucket call = WASABI_BUCKET /\ App.Body call = [] /\
          Str.split Str.slash (App.Key call) = psegs ++ nsegs ++ [[]] /\
          put_object calls call = Some e /\
          detail = Str.lit "Failed to create folder: " ++ e
    | (calls', App.Returns created) =>
        nsegs <> [] /\
        exists call,
          calls' = calls ++ [call] /\
          App.Bucket call = WASABI_BUCKET /\ App.Body call = [] /\
          App.Key call = App.folder_key created /\
          Str.split Str.slash (App.folder_key created) = psegs ++ nsegs ++ [[]] /\
          put_object calls call = None /\
          App.ok created = true /\ App.bucket created = WASABI_BUCKET
    end.
Proof.
  destruct (safe_prefix_joined (Some parent)) as (psegs & Hp & Hps).
  destruct (safe_prefix_joined (Some name)) as (nsegs & Hn & Hns).
  exists psegs, nsegs. split; [exact Hp|]. split; [exact Hn|].
  split; [exact Hps|]. split; [exact Hns|].
  unfold App.create_folder. rewrite Hp, Hn.
  destruct (Str.join (Str.lit "/") nsegs) as [|c s] eqn:Hj.
  { split; [apply str_join_empty in Hj; assumption|]. split; reflexivity. }
  assert (Hne : nsegs <> []) by (intros ->; discriminate Hj).
  rewrite <- Hj.
  set (folder_key := match Str.join (Str.lit "/") psegs with
                     | [] => _
                     | _ => _
                     end).
  assert (Hkey : Str.split Str.slash folder_key = psegs ++ nsegs ++ [[]]).
  { assert (Hkey : folder_key = Str.join [Str.slash] (psegs ++ nsegs ++ [[]])).
    { unfold folder_key. destruct psegs as [|pseg psegs].
      - cbn [Str.join app]. rewrite str_join_snoc by exact Hne. reflexivity.
      - destruct (Str.join (Str.lit "/") (pseg :: psegs)) as [|c' s'] eqn:Hj'.
        { apply str_join_empty in Hj'; [discriminate Hj'|exact Hps]. }
        rewrite <- Hj'. rewrite (proj2 (safe_segments_ends _ Hps)).
        rewrite str_join_app by (discriminate || (intros H; apply app_eq_nil in H as [H _];
                                                   contradiction)).
        rewrite str_join_snoc by exact Hne. rewrite <- ?app_assoc. reflexivity. }
    rewrite Hkey. apply split_join.
    - intros H. apply app_eq_nil in H as [_ H]. apply app_eq_nil in H as [_ H]. discriminate H.
    - rewrite !Forall_app. split; [apply safe_segment_pieces, Hps|].
      split; [apply safe_segment_pieces, Hns|]. repeat constructor. }
  set (call := {| App.Bucket := WASABI_BUCKET; App.Key := folder_key; App.Body := [];
                  App.ContentType := _; App.Metadata := _ |}).
  destruct (put_object calls call) as [e|] eqn:Hput.
  - split; [exact Hne|]. split; [reflexivity|]. exists call, e.
    repeat split; assumption.
  - split; [exact Hne|]. exists call. repeat split; assumption.
Qed.

Lemma create_folder_key_witness :
  fst (App.create_folder (fun _ _ => None) (Str.lit "bucket") (Str.lit "a/../b") (Str.lit " ./ ") [])
  = [].
Proof.
  destruct (create_folder_key (fun _ _ => None) (Str.lit "bucket") (Str.lit "a/../b")
              (Str.lit " ./ ") []) as (psegs & nsegs & _ & _ & _ & _ & Hcase).
  destruct (App.create_folder (fun _ _ => None) (Str.lit "bucket") (Str.lit "a/../b")
              (Str.lit " ./ ") []) as [calls' [created|code detail]] eqn:Hrun;
    [vm_compute in Hrun; discriminate Hrun|].
  assert (Hcode : code = 400) by (vm_compute in Hrun; congruence). subst code.
  cbn [fst]. apply Hcase.
Defined.

(** ** The status [upload_video] stores *)

(** X17. The [status] that [upload_video] puts in the object metadata and
    in the record is the [status] of the validation it ran, and [passed] is
    its [passed]: it is "good" exactly when [validate_video_file] returned
    an output that passed; when the validator raises, as it does for a
    path that does not exist, the upload is stored as "bad" with the
    exception as its one issue. *)
Theorem upload_status_is_validator_status env tmp_path sample_rate :
  let validation := App.upload_video_validation env tmp_path sample_rate in
  let passed := fst (App.upload_video_status env tmp_path sample_rate) in
  let status := snd (App.upload_video_status env tmp_path sample_rate) in
  passed = ValidationPipelineOutput.passed validation /\
  status = ValidationPipelineOutput.status validation /\
  (status = "good" <->
     exists out,
       validate_video_file env tmp_path sample_rate 0 None false None = Ok out /\
       ValidationPipelineOutput.passed out = true) /\
  (path_exists env tmp_path = false ->
     status = "bad" /\
     ValidationPipelineOutput.issues validation
       = ["Validator exception: Video file not found: " +:+ tmp_path]).
Proof.
  cbv zeta. unfold App.upload_video_status, App.upload_video_validation. cbn [fst snd].
  unfold validate_video_file, __init__.
  destruct (path_exists env tmp_path) eqn:Hex; cbn [negb mbind result_bind].
  - destruct (run_cases env {| video_path := tmp_path |} sample_rate 0 None false None)
      as (out & Hrun & Hcase).
    rewrite Hrun. split; [reflexivity|].
    assert (Hstatus : ValidationPipelineOutput.status out
                      = if ValidationPipelineOutput.passed out then "good" else "bad").
    { destruct Hcase as [(m & _ & ->)|(_ & _ & Hs)]; [reflexivity|exact Hs]. }
    split; [symmetry; exact Hstatus|]. split; [|discriminate].
    rewrite status_follows_passed. split.
    + intros Hp. exists out. auto.
    + intros (out' & [= <-] & Hp). exact Hp.
  - cbn [ValidationPipelineOutput.passed ValidationPipelineOutput.status
         ValidationPipelineOutput.issues exn_text].
    split; [reflexivity|]. split; [reflexivity|]. split.
    + split; [discriminate|]. intros (out & Hout & _). discriminate Hout.
    + intros _. split; reflexivity.
Qed.

Lemma upload_status_is_validator_status_witness :
  snd (App.upload_video_status empty_environment "missing.mp4" 30) = "bad".
Proof.
  apply (upload_status_is_validator_status empty_environment "missing.mp4" 30).
  reflexivity.
Defined.
